(** * git-fabric/cve: severity model, triage, queue state, action and detection

    A shallow embedding of the four-stage pipeline
    (Detection -> State -> Decision -> Action) of @git-fabric/cve and the
    properties of its specification.

    Conventions of the embedding:
    - a JS [number] that holds a count or a millisecond time stamp is a [Z];
      a CVSS score is a [Q];
    - an optional field ([x?: T], [T | null]) is an [option];
    - the truthiness test of a string ([if (s)], [!s]) is [truthy]: the empty
      string is the only falsy string;
    - [Array.prototype.sort] is the stable sort of ECMAScript 2019;
    - a JS [Map] is a list of (key, value) pairs in insertion order with
      pairwise distinct keys: iteration order decides the order of the lines
      of the queue file and the order of equal elements under the stable
      sort, so the order is part of the model;
    - [async] code that talks to GitHub runs in a state-and-exception monad
      over an abstract world. *)

From Stdlib Require Import List String Ascii ZArith QArith Bool Lia.
From Stdlib Require Import Permutation Sorted DecimalString.
Import ListNotations.

Local Open Scope Z_scope.

(* ====================================================================== *)
(** * Definitions                                                          *)
(* ====================================================================== *)

(** ** JavaScript primitives used by the layers *)

Module Js.

(** [if (s)] on a string. *)
Definition truthy (s : string) : bool := negb (String.eqb s "").

(** [a ?? b] on an optional value. *)
Definition nullish {A : Type} (a : option A) (b : A) : A :=
  match a with Some x => x | None => b end.

(** [a ?? b] where [b] is optional as well. *)
Definition nullishOpt {A : Type} (a b : option A) : option A :=
  match a with Some x => Some x | None => b end.

(** Template-literal rendering of an integral number. *)
Definition numberToString (n : Z) : string :=
  NilZero.string_of_int (Z.to_int n).

Definition upperChar (c : ascii) : ascii :=
  let n := nat_of_ascii c in
  if ((97 <=? n) && (n <=? 122))%nat then ascii_of_nat (n - 32) else c.

Definition lowerChar (c : ascii) : ascii :=
  let n := nat_of_ascii c in
  if ((65 <=? n) && (n <=? 90))%nat then ascii_of_nat (n + 32) else c.

Fixpoint mapString (f : ascii -> ascii) (s : string) : string :=
  match s with
  | EmptyString => EmptyString
  | String c s' => String (f c) (mapString f s')
  end.

(** [s.toUpperCase()] and [s.toLowerCase()] on the ASCII range: the
    letters a to z and A to Z are mapped, every other character is left as
    it is. On a string of ASCII characters this is what the methods do; on
    other strings the methods map more (U+0131 to [I], for one). *)
Definition toUpperCase (s : string) : string := mapString upperChar s.
Definition toLowerCase (s : string) : string := mapString lowerChar s.

(** [s.startsWith(p)]. *)
Definition startsWith (p s : string) : bool := String.prefix p s.

(** White space removed by [trim] (ASCII range): TAB, LF, VT, FF, CR, SP. *)
Definition isSpace (c : ascii) : bool :=
  let n := nat_of_ascii c in
  ((9 <=? n) && (n <=? 13) || (n =? 32))%nat.

Fixpoint trimStart (s : string) : string :=
  match s with
  | EmptyString => EmptyString
  | String c s' => if isSpace c then trimStart s' else s
  end.

(** [trimEnd] keeps a character when it is not a space or when something
    that is kept follows it. *)
Fixpoint trimEnd (s : string) : string :=
  match s with
  | EmptyString => EmptyString
  | String c s' =>
      match trimEnd s' with
      | EmptyString => if isSpace c then EmptyString else String c EmptyString
      | t => String c t
      end
  end.

Definition trim (s : string) : string := trimEnd (trimStart s).

Definition isSep (sep c : ascii) : bool := Ascii.eqb c sep.

(** [s.split(sep)] for a one-character separator: never the empty list. *)
Fixpoint split (sep : ascii) (s : string) : list string :=
  match s with
  | EmptyString => [EmptyString]
  | String c s' =>
      if isSep sep c then EmptyString :: split sep s'
      else match split sep s' with
           | [] => [String c EmptyString]
           | w :: ws => String c w :: ws
           end
  end.

(** [parts.join(sep)]. *)
Fixpoint join (sep : string) (parts : list string) : string :=
  match parts with
  | [] => EmptyString
  | [p] => p
  | p :: ps => (p ++ sep ++ join sep ps)%string
  end.

Definition LF : ascii := ascii_of_nat 10.
Definition LFs : string := String LF EmptyString.

(** [Array.prototype.sort(cmp)]: the sort is stable, and for a consistent
    comparator its result is the one of stable insertion: an element goes
    before the first element of the sorted rest that it does not follow. *)
Section Sort.
Context {A : Type} (cmp : A -> A -> Q).

Fixpoint insertSorted (x : A) (l : list A) : list A :=
  match l with
  | [] => [x]
  | y :: l' =>
      if Qle_bool (cmp x y) 0 then x :: y :: l' else y :: insertSorted x l'
  end.

Definition sort (l : list A) : list A := fold_right insertSorted [] l.
End Sort.

(** ** [Map]: insertion-ordered, keys pairwise distinct *)
Section MapModel.
Context {V : Type}.

Definition Map := list (string * V).

Definition empty : Map := [].

Fixpoint get (k : string) (m : Map) : option V :=
  match m with
  | [] => None
  | (k', v) :: m' => if String.eqb k k' then Some v else get k m'
  end.

Definition has (k : string) (m : Map) : bool :=
  match get k m with Some _ => true | None => false end.

(** [m.set(k, v)]: an existing key keeps its position. *)
Fixpoint set (k : string) (v : V) (m : Map) : Map :=
  match m with
  | [] => [(k, v)]
  | (k', v') :: m' =>
      if String.eqb k k' then (k', v) :: m' else (k', v') :: set k v m'
  end.

Fixpoint delete (k : string) (m : Map) : Map :=
  match m with
  | [] => []
  | (k', v') :: m' =>
      if String.eqb k k' then m' else (k', v') :: delete k m'
  end.

Definition keys (m : Map) : list string := map fst m.
Definition values (m : Map) : list V := map snd m.
Definition size (m : Map) : Z := Z.of_nat (List.length m).
End MapModel.
Arguments Map V : clear implicits.

End Js.

(** ** Shared types (types.ts) *)

Module Types.

Inductive Severity : Type :=
| CRITICAL | HIGH | MEDIUM | LOW | NONE | UNKNOWN.

Definition Severity_eqb (a b : Severity) : bool :=
  match a, b with
  | CRITICAL, CRITICAL | HIGH, HIGH | MEDIUM, MEDIUM
  | LOW, LOW | NONE, NONE | UNKNOWN, UNKNOWN => true
  | _, _ => false
  end.

Definition Severity_to_string (s : Severity) : string :=
  match s with
  | CRITICAL => "CRITICAL" | HIGH => "HIGH" | MEDIUM => "MEDIUM"
  | LOW => "LOW" | NONE => "NONE" | UNKNOWN => "UNKNOWN"
  end.

Definition SEVERITY_ORDER : list Severity :=
  [CRITICAL; HIGH; MEDIUM; LOW; NONE; UNKNOWN].

(** [arr.indexOf(x)]: the first position of [x], or -1. *)
Fixpoint indexOfFrom (i : Z) (l : list Severity) (x : Severity) : Z :=
  match l with
  | [] => -1
  | y :: l' => if Severity_eqb y x then i else indexOfFrom (i + 1) l' x
  end.

Definition indexOf (l : list Severity) (x : Severity) : Z :=
  indexOfFrom 0 l x.

Definition normalizeSeverity (s : string) : Severity :=
  let upper := Js.toUpperCase s in
  match find (fun v => String.eqb upper (Severity_to_string v))
             [CRITICAL; HIGH; MEDIUM; LOW; NONE] with
  | Some v => v
  | None => UNKNOWN
  end.

Definition meetsThreshold (severity threshold : Severity) : bool :=
  indexOf SEVERITY_ORDER severity <=? indexOf SEVERITY_ORDER threshold.

Inductive Status : Type :=
| S_pending | S_pr_opened | S_skipped | S_error.

Definition Status_eqb (a b : Status) : bool :=
  match a, b with
  | S_pending, S_pending | S_pr_opened, S_pr_opened
  | S_skipped, S_skipped | S_error, S_error => true
  | _, _ => false
  end.

Record CveQueueEntry : Type := mkEntry {
  id : string;
  ghsaId : option string;
  repo : string;
  ecosystem : string;
  affectedPackage : string;
  affectedVersion : string;
  patchedVersion : string;
  severity : Severity;
  cvssScore : option Q;
  summary : string;
  nvdUrl : string;
  detectedAt : string;
  status : Status;
  prNumber : option Z;
  prUrl : option string;
  processedAt : option string;
  skipReason : option string
}.

(** [maxPrsPerRun] is a count: an integer. A policy whose cap is a
    fraction or [NaN] is not a value of this type. *)
Record TriagePolicy : Type := mkPolicy {
  autoPrThreshold : Severity;
  draftThreshold : Severity;
  maxPrsPerRun : Z;
  requirePatchedVersion : bool
}.

Inductive ResultAction : Type :=
| R_pr_opened | R_skipped | R_error.

Record PrResult : Type := mkResult {
  cveId : string;
  r_repo : string;
  r_action : ResultAction;
  r_prNumber : option Z;
  r_prUrl : option string;
  r_reason : option string
}.

End Types.

(** ** Decision layer (layers/decision.ts) *)

Module Decision.
Import Types.

Inductive PlanAction : Type :=
| open_pr | open_draft | skip.

Record TriagePlan : Type := mkPlan {
  entry : CveQueueEntry;
  action : PlanAction;
  reason : string
}.

(** The comparator shared by [triage] and [State.list]:
    [indexOf(a.severity) - indexOf(b.severity) ||
     (b.cvssScore ?? 0) - (a.cvssScore ?? 0)]. *)
Definition compareEntries (a b : CveQueueEntry) : Q :=
  let d := indexOf SEVERITY_ORDER (severity a)
           - indexOf SEVERITY_ORDER (severity b) in
  if d =? 0
  then (Js.nullish (cvssScore b) 0 - Js.nullish (cvssScore a) 0)%Q
  else inject_Z d.

Definition capReason (policy : TriagePolicy) : string :=
  ("PR cap reached (" ++ Js.numberToString (maxPrsPerRun policy)
     ++ " per run)")%string.

Definition noPatchReason : string := "No patched version available yet".

Definition belowReason (e : CveQueueEntry) (policy : TriagePolicy) : string :=
  ("Severity " ++ Severity_to_string (severity e)
     ++ " below auto-PR threshold "
     ++ Severity_to_string (autoPrThreshold policy))%string.

Definition criticalReason : string :=
  "CRITICAL — immediate confirmed PR".

Definition draftReason (e : CveQueueEntry) : string :=
  (Severity_to_string (severity e) ++ " — draft PR for review")%string.

(** The body of the [for] loop: [plans] and [prCount] are the two mutable
    locals. *)
Fixpoint triageLoop (policy : TriagePolicy) (sorted : list CveQueueEntry)
         (plans : list TriagePlan) (prCount : Z) : list TriagePlan :=
  match sorted with
  | [] => plans
  | e :: rest =>
      if (prCount >=? maxPrsPerRun policy)
         && meetsThreshold (severity e) (autoPrThreshold policy)
      then triageLoop policy rest
             (plans ++ [mkPlan e skip (capReason policy)]) prCount
      else if requirePatchedVersion policy
              && (negb (Js.truthy (patchedVersion e))
                  || String.eqb (patchedVersion e) "unknown")
      then triageLoop policy rest
             (plans ++ [mkPlan e skip noPatchReason]) prCount
      else if negb (meetsThreshold (severity e) (autoPrThreshold policy))
      then triageLoop policy rest
             (plans ++ [mkPlan e skip (belowReason e policy)]) prCount
      else if Severity_eqb (severity e) CRITICAL
      then triageLoop policy rest
             (plans ++ [mkPlan e open_pr criticalReason]) (prCount + 1)
      else triageLoop policy rest
             (plans ++ [mkPlan e open_draft (draftReason e)]) (prCount + 1)
  end.

Definition isPending (e : CveQueueEntry) : bool :=
  Status_eqb (status e) S_pending.

Definition triage (entries : list CveQueueEntry) (policy : TriagePolicy)
  : list TriagePlan :=
  let sorted := Js.sort compareEntries (filter isPending entries) in
  triageLoop policy sorted [] 0.

Definition DEFAULT_POLICY : TriagePolicy :=
  {| autoPrThreshold := HIGH;
     draftThreshold := HIGH;
     maxPrsPerRun := 5;
     requirePatchedVersion := true |}.

End Decision.

(** ** State layer (layers/state.ts) *)

Module State.
Import Types.

Definition QUEUE_FILE : string := "state/cve-queue.jsonl".

(** The key of the queue map: the template literal [`${id}::${repo}`]. *)
Definition queueKey (i r : string) : string := (i ++ "::" ++ r)%string.

Definition entryKey (e : CveQueueEntry) : string := queueKey (id e) (repo e).

Definition Queue := Js.Map CveQueueEntry.

(** The store capability restricted to the one file the layer uses:
    [read] gives its content ([None] when the file is missing) and
    [write] replaces it. *)
Definition Store := option string.

Inductive StatusFilter : Type :=
| OnlyStatus (s : Status)
| AllStatuses.

Record ListOpts : Type := mkListOpts {
  o_status : option StatusFilter;
  o_severityMin : option Severity;
  o_repo : option string;
  o_limit : option Z
}.

Record ListResult : Type := mkListResult {
  total : Z;
  entries : list CveQueueEntry
}.

Record Update : Type := mkUpdate {
  u_id : string;
  u_repo : string;
  u_status : Status;
  u_prNumber : option Z;
  u_prUrl : option string;
  u_skipReason : option string
}.

Record EnqueueResult : Type := mkEnqueueResult {
  added : Z;
  duplicates : Z
}.

Record UpdateResult : Type := mkUpdateResult {
  updated : Z;
  notFound : Z
}.

(** [Record<string, number>] keyed by a status, in insertion order. *)
Definition StatusCounts := list (Status * Z).

Fixpoint countOf (s : Status) (c : StatusCounts) : option Z :=
  match c with
  | [] => None
  | (s', n) :: c' => if Status_eqb s s' then Some n else countOf s c'
  end.

Fixpoint setCount (s : Status) (n : Z) (c : StatusCounts) : StatusCounts :=
  match c with
  | [] => [(s, n)]
  | (s', n') :: c' =>
      if Status_eqb s s' then (s', n) :: c' else (s', n') :: setCount s n c'
  end.

Record CompactResult : Type := mkCompactResult {
  before : Z;
  after : Z;
  removed : Z;
  byStatus : StatusCounts
}.

(** [arr.slice(0, limit)]: a negative limit counts from the end. *)
Definition slice0 {A : Type} (limit : Z) (l : list A) : list A :=
  if 0 <=? limit then firstn (Z.to_nat limit) l
  else firstn (Z.to_nat (Z.of_nat (List.length l) + limit)) l.

Section WithPlatform.
(** [JSON.parse] restricted to queue entries: [None] when it throws (or
    reading [id] of the parsed value does); [JSON.stringify] of an
    entry; [new Date(s).getTime()], [None] for [NaN]. *)
Variable JSON_parse : string -> option CveQueueEntry.
Variable JSON_stringify : CveQueueEntry -> string.
Variable Date_getTime : string -> option Z.

Definition parseLine (map : Queue) (line : string) : Queue :=
  let trimmed := Js.trim line in
  if negb (Js.truthy trimmed) then map
  else match JSON_parse trimmed with
       | Some e => Js.set (entryKey e) e map
       | None => map
       end.

Definition parseQueue (raw : string) : Queue :=
  fold_left parseLine (Js.split Js.LF raw) Js.empty.

Definition serialize (map : Queue) : string :=
  Js.join Js.LFs (List.map JSON_stringify (Js.values map)).

(** The [for] loop of [enqueue] over its three mutable locals. *)
Fixpoint enqueueLoop (batch : list CveQueueEntry) (existing : Queue)
         (nAdded nDup : Z) : Queue * Z * Z :=
  match batch with
  | [] => (existing, nAdded, nDup)
  | e :: rest =>
      let key := entryKey e in
      if Js.has key existing
      then enqueueLoop rest existing nAdded (nDup + 1)
      else enqueueLoop rest (Js.set key e existing) (nAdded + 1) nDup
  end.

Definition enqueue (batch : list CveQueueEntry) (state : Store)
  : Store * EnqueueResult :=
  let existing := parseQueue (Js.nullish state EmptyString) in
  let '(existing', nAdded, nDup) := enqueueLoop batch existing 0 0 in
  (Some (serialize existing'), mkEnqueueResult nAdded nDup).

Definition listFilter (opts : ListOpts) (e : CveQueueEntry) : bool :=
  let st := Js.nullish (o_status opts) (OnlyStatus S_pending) in
  let thresholdIdx :=
    indexOf SEVERITY_ORDER (Js.nullish (o_severityMin opts) LOW) in
  let statusFails :=
    match st with
    | AllStatuses => false
    | OnlyStatus s => negb (Status_eqb (status e) s)
    end in
  let repoFails :=
    match o_repo opts with
    | Some r => Js.truthy r && negb (String.eqb (repo e) r)
    | None => false
    end in
  if statusFails then false
  else if repoFails then false
  else if indexOf SEVERITY_ORDER (severity e) >? thresholdIdx then false
  else true.

Definition applyUpdate (existing : CveQueueEntry) (u : Update)
           (now : string) : CveQueueEntry :=
  {| id := id existing;
     ghsaId := ghsaId existing;
     repo := repo existing;
     ecosystem := ecosystem existing;
     affectedPackage := affectedPackage existing;
     affectedVersion := affectedVersion existing;
     patchedVersion := patchedVersion existing;
     severity := severity existing;
     cvssScore := cvssScore existing;
     summary := summary existing;
     nvdUrl := nvdUrl existing;
     detectedAt := detectedAt existing;
     status := u_status u;
     prNumber := Js.nullishOpt (u_prNumber u) (prNumber existing);
     prUrl := Js.nullishOpt (u_prUrl u) (prUrl existing);
     processedAt := Some now;
     skipReason := Js.nullishOpt (u_skipReason u) (skipReason existing) |}.

(** The [for] loop of [update]; [now] is [new Date().toISOString()],
    taken once before the loop. *)
Fixpoint updateLoop (updates : list Update) (queue : Queue) (now : string)
         (nUpdated nNotFound : Z) : Queue * Z * Z :=
  match updates with
  | [] => (queue, nUpdated, nNotFound)
  | u :: rest =>
      let key := queueKey (u_id u) (u_repo u) in
      match Js.get key queue with
      | None => updateLoop rest queue now nUpdated (nNotFound + 1)
      | Some existing =>
          updateLoop rest (Js.set key (applyUpdate existing u now) queue)
                     now (nUpdated + 1) nNotFound
      end
  end.

Definition update (updates : list Update) (state : Store) (now : string)
  : Store * UpdateResult :=
  let queue := parseQueue (Js.nullish state EmptyString) in
  let '(queue', nUpdated, nNotFound) := updateLoop updates queue now 0 0 in
  (Some (serialize queue'), mkUpdateResult nUpdated nNotFound).

(** [ts && new Date(ts).getTime() < cutoff]. *)
Definition expired (cutoff : Z) (e : CveQueueEntry) : bool :=
  let ts := Js.nullish (processedAt e) (detectedAt e) in
  Js.truthy ts
  && match Date_getTime ts with
     | Some t => t <? cutoff
     | None => false
     end.

(** The [for (const [key, entry] of queue)] loop of [compact]: [todo] is
    what the iterator still has to visit; deleting the visited key does
    not disturb it. *)
Fixpoint compactLoop (todo : list (string * CveQueueEntry)) (cutoff : Z)
         (queue : Queue) (removedByStatus : StatusCounts)
  : Queue * StatusCounts :=
  match todo with
  | [] => (queue, removedByStatus)
  | (key, e) :: rest =>
      if Status_eqb (status e) S_pending
      then compactLoop rest cutoff queue removedByStatus
      else if expired cutoff e
      then compactLoop rest cutoff (Js.delete key queue)
             (setCount (status e)
                (Js.nullish (countOf (status e) removedByStatus) 0 + 1)
                removedByStatus)
      else compactLoop rest cutoff queue removedByStatus
  end.

(** [nowMs] is [Date.now()]. *)
Definition compact (state : Store) (retentionDays : option Z) (nowMs : Z)
  : Store * CompactResult :=
  match state with
  | None => (state, mkCompactResult 0 0 0 [])
  | Some raw =>
      if negb (Js.truthy raw) then (state, mkCompactResult 0 0 0 [])
      else
        let queue := parseQueue raw in
        let size0 := Js.size queue in
        let retentionMs := Js.nullish retentionDays 30 * 86400000 in
        let cutoff := nowMs - retentionMs in
        let '(queue', removedByStatus) :=
          compactLoop queue cutoff queue [] in
        let nRemoved := size0 - Js.size queue' in
        let state' :=
          if nRemoved >? 0 then Some (serialize queue') else state in
        (state', mkCompactResult size0 (Js.size queue') nRemoved
                   removedByStatus)
  end.

(** [list] and [pending] come last: from here on [list] names the
    operation of the layer. *)
Definition list (state : Store) (opts : ListOpts) : ListResult :=
  match state with
  | None => mkListResult 0 []
  | Some raw =>
      if negb (Js.truthy raw) then mkListResult 0 []
      else
        let queue := parseQueue raw in
        let limit := Js.nullish (o_limit opts) 50 in
        let found := filter (listFilter opts) (Js.values queue) in
        let sorted := Js.sort Decision.compareEntries found in
        mkListResult (Z.of_nat (List.length sorted)) (slice0 limit sorted)
  end.

Definition pending (state : Store) : Datatypes.list CveQueueEntry :=
  entries (list state
             {| o_status := Some (OnlyStatus S_pending);
                o_severityMin := None;
                o_repo := None;
                o_limit := Some 1000 |}).

End WithPlatform.

End State.

(** ** Effects: GitHub calls may change the world and may throw *)

Module Effect.

(** A thrown value (what a promise rejects with). It is [undefined] or
    [null] ([isNull] says which), or any other value, of which the code
    reads [message] only: absent when the value carries none. *)
Inductive Thrown : Type :=
| thrownNullish (isNull : bool)
| mkThrown (message : option string).

(** The [TypeError] of reading a property of [undefined] or [null]; the
    text is the one of V8. *)
Definition typeError (isNull : bool) : Thrown :=
  mkThrown
    (Some (if isNull
           then "Cannot read properties of null (reading 'message')"
           else "Cannot read properties of undefined (reading 'message')")%string).

(** [(err as Error).message]: it throws when [err] is [undefined] or
    [null]. *)
Definition readMessage (err : Thrown) : Thrown + option string :=
  match err with
  | thrownNullish isNull => inl (typeError isNull)
  | mkThrown message => inr message
  end.

Definition M (World A : Type) : Type := World -> (Thrown + A) * World.

Section Ops.
Context {World : Type}.

Definition ret {A : Type} (a : A) : M World A := fun w => (inr a, w).

Definition throw {A : Type} (e : Thrown) : M World A :=
  fun w => (inl e, w).

Definition bind {A B : Type} (m : M World A) (k : A -> M World B)
  : M World B :=
  fun w => match m w with
           | (inl e, w') => (inl e, w')
           | (inr a, w') => k a w'
           end.

(** [try { m } catch (err) { h err }]: what [m] did to the world before
    it threw stays done. *)
Definition tryCatch {A : Type} (m : M World A) (h : Thrown -> M World A)
  : M World A :=
  fun w => match m w with
           | (inl e, w') => h e w'
           | (inr a, w') => (inr a, w')
           end.

(** A pure computation that may throw. *)
Definition lift {A : Type} (r : Thrown + A) : M World A :=
  fun w => (r, w).

(** [for (const x of xs) { acc = body acc x }]. *)
Fixpoint forEach {A S : Type} (xs : list A) (body : S -> A -> M World S)
         (acc : S) : M World S :=
  match xs with
  | [] => ret acc
  | x :: xs' => bind (body acc x) (forEach xs' body)
  end.
End Ops.

Declare Scope effect_scope.
Delimit Scope effect_scope with effect.
Notation "x <- m ;; k" := (bind m (fun x => k))
  (at level 61, m at next level, right associativity) : effect_scope.
Notation "m ;;; k" := (bind m (fun _ => k))
  (at level 61, right associativity) : effect_scope.

End Effect.

(** ** The code-host capability ([GitHubAdapter] of types.ts) *)

Module GitHub.
Import Effect.

Record FileChange : Type := mkFile { path : string; content : string }.

Record CommitOpts : Type := mkCommitOpts {
  c_branch : string;
  c_message : string;
  c_files : list FileChange
}.

Record CommitInfo : Type := mkCommitInfo { sha : string; url : string }.

Record PrOpts : Type := mkPrOpts {
  title : string;
  body : string;
  head : string;
  base : string;
  draft : bool;
  labels : list string
}.

Record PrInfo : Type := mkPrInfo { number : Z; html_url : string }.

(** [owner] and [repo] come from [repoFull.split("/")]: the second
    component is [undefined] when the name has no slash. *)
Record GitHubAdapter (World : Type) : Type := mkAdapter {
  token : string;
  getFileContent :
    string -> option string -> string -> M World (option string);
  createBranch :
    string -> option string -> string -> string -> M World unit;
  commitFiles : string -> option string -> CommitOpts -> M World CommitInfo;
  createPullRequest : string -> option string -> PrOpts -> M World PrInfo;
  getDefaultBranch : string -> option string -> M World string
}.
Arguments token {World}.
Arguments getFileContent {World}.
Arguments createBranch {World}.
Arguments commitFiles {World}.
Arguments createPullRequest {World}.
Arguments getDefaultBranch {World}.

(** [const [owner, repo] = repoFull.split("/")]. *)
Definition splitRepo (repoFull : string) : string * option string :=
  let parts := Js.split "/"%char repoFull in
  (hd EmptyString parts, nth_error parts 1).

(** Lookup in an object literal used as a table. *)
Fixpoint lookup {A : Type} (k : string) (t : list (string * A)) : option A :=
  match t with
  | [] => None
  | (k', v) :: t' => if String.eqb k k' then Some v else lookup k t'
  end.

End GitHub.

(** ** Action layer (layers/action.ts) *)

Module Action.
Import Types Effect GitHub.
Import Decision(TriagePlan, entry, action, reason, open_pr, open_draft, skip).

Definition SEVERITY_EMOJI : list (string * string) :=
  [("CRITICAL", "🔴"); ("HIGH", "🟠"); ("MEDIUM", "🟡"); ("LOW", "🟢");
   ("NONE", "⚪"); ("UNKNOWN", "⚫")]%string.

Definition prLabels (sev : string) (isDraft : bool) : list string :=
  let base := ["security"; "cve"; "git-fabric"]%string in
  let map :=
    [("CRITICAL", ["severity:critical"; "priority:urgent"]);
     ("HIGH", ["severity:high"; "priority:high"]);
     ("MEDIUM", ["severity:medium"]);
     ("LOW", ["severity:low"])]%string in
  let extra := if isDraft then ["draft"%string] else [] in
  base ++ Js.nullish (lookup sev map) [] ++ extra.

Definition ECOSYSTEM_MANIFEST : list (string * string) :=
  [("npm", "package.json"); ("pip", "requirements.txt"); ("go", "go.mod");
   ("cargo", "Cargo.toml"); ("maven", "pom.xml");
   ("composer", "composer.json")]%string.

(** [line.match(new RegExp(`^${escaped pkg}\\s*[>=<!]=?`))]: the line
    starts with the package name, then optional white space, then one of
    the four comparison characters. The white space is that of the ASCII
    range, which is all of [\s] on a line of ASCII characters; [\s] also
    matches U+00A0 and other characters outside ASCII, which this reading
    takes for the start of the rest of the line. *)
Fixpoint stripPrefix (p s : string) : option string :=
  match p, s with
  | EmptyString, _ => Some s
  | String a p', String b s' =>
      if Ascii.eqb a b then stripPrefix p' s' else None
  | String _ _, EmptyString => None
  end.

Definition isComparator (c : ascii) : bool :=
  existsb (Ascii.eqb c) [">"; "="; "<"; "!"]%char.

Definition pipLineMatches (pkg line : string) : bool :=
  match stripPrefix pkg line with
  | Some rest =>
      match Js.trimStart rest with
      | String c _ => isComparator c
      | EmptyString => false
      end
  | None => false
  end.

Definition updatePipManifest (content pkg version : string) : string :=
  Js.join Js.LFs
    (List.map (fun line => if pipLineMatches pkg line
                           then (pkg ++ ">=" ++ version)%string
                           else line)
              (Js.split Js.LF content)).

Section WithPlatform.
Context {World : Type}.

(** What the layer takes from the platform:
    - [updateNpmManifest], which is [JSON.parse], an update of the three
      dependency sections and [JSON.stringify]; it throws when the
      manifest is not JSON;
    - the rendering of a score in a template literal;
    - [new Date(s).toISOString()], which throws a [RangeError] on an
      invalid date ([None]);
    - [new Date().toISOString()], the clock. *)
Variable updateNpmManifest : string -> string -> string -> Thrown + string.
Variable scoreToString : Q -> string.
Variable Date_toISOString : string -> option string.
Variable nowISOString : M World string.

Definition invalidTime : Thrown :=
  mkThrown (Some "Invalid time value"%string).

Local Open Scope string_scope.

Definition buildPrBody (e : CveQueueEntry) : M World string :=
  let emoji :=
    Js.nullish (lookup (Severity_to_string (severity e)) SEVERITY_EMOJI)
               "⚫" in
  let scoreStr :=
    match cvssScore e with
    | Some q => scoreToString q ++ "/10"
    | None => "N/A"
    end in
  (detected <- lift (match Date_toISOString (detectedAt e) with
                     | Some iso => inr (substring 0 10 iso)
                     | None => inl invalidTime
                     end) ;;
   now <- nowISOString ;;
   ret ("## Security Fix: " ++ id e ++ "

> This PR was opened automatically by [@git-fabric/cve](https://github.com/git-fabric/cve).

### Vulnerability Summary

| Field | Value |
|-------|-------|
| **CVE / Advisory** | [" ++ id e ++ "](" ++ nvdUrl e ++ ") |
| **Severity** | " ++ emoji ++ " " ++ Severity_to_string (severity e) ++ " |
| **CVSS Score** | " ++ scoreStr ++ " |
| **Ecosystem** | `" ++ ecosystem e ++ "` |
| **Affected Package** | `" ++ affectedPackage e ++ "` @ `" ++ affectedVersion e ++ "` |
| **Patched Version** | `" ++ patchedVersion e ++ "` |
| **Detected** | " ++ detected ++ " |

### Description

" ++ summary e ++ "

### Required Action

Upgrade `" ++ affectedPackage e ++ "` from `" ++ affectedVersion e ++ "` to `" ++ patchedVersion e ++ "` or later.

### Review Checklist

- [ ] Dependency upgraded to `" ++ patchedVersion e ++ "` or later
- [ ] Lockfile committed
- [ ] Tests pass with upgraded dependency
- [ ] No breaking API changes introduced

### References

- [NVD / Advisory](" ++ nvdUrl e ++ ")
" ++ match ghsaId e with
 | Some g => if Js.truthy g
             then "- [GitHub Advisory](https://github.com/advisories/"
                  ++ g ++ ")"
             else ""
 | None => ""
 end ++ "

---
<!-- git-fabric/cve | " ++ id e ++ " | " ++ now ++ " -->
"))%effect.

(** [null] for an ecosystem without an automated patch. *)
Definition updateManifest (content eco pkg version : string)
  : Thrown + option string :=
  if String.eqb eco "npm" then
    match updateNpmManifest content pkg version with
    | inl err => inl err
    | inr s => inr (Some s)
    end
  else if String.eqb eco "pip" then
    inr (Some (updatePipManifest content pkg version))
  else inr None.

Definition dryRunReason (a : Decision.PlanAction) : string :=
  "[DRY RUN] Would open "
  ++ (match a with open_draft => "draft " | _ => "" end) ++ "PR".

(** The manifest patch staged for the commit: at most one file. *)
Definition stageFiles (github : GitHubAdapter World)
           (owner : string) (repo : option string) (e : CveQueueEntry)
  : M World (list FileChange) :=
  match lookup (ecosystem e) ECOSYSTEM_MANIFEST with
  | Some manifestPath =>
      if Js.truthy manifestPath
         && negb (String.eqb (patchedVersion e) "unknown")
      then
        (currentContent <- getFileContent github owner repo manifestPath ;;
         match currentContent with
         | Some cur =>
             if Js.truthy cur then
               (updated <- lift (updateManifest cur (ecosystem e)
                                   (affectedPackage e) (patchedVersion e)) ;;
                match updated with
                | Some upd =>
                    if Js.truthy upd && negb (String.eqb upd cur)
                    then ret [mkFile manifestPath upd]
                    else ret []
                | None => ret []
                end)
             else ret []
         | None => ret []
         end)%effect
      else ret []
  | None => ret []
  end.

(** The [try] block of [execute] for one acting plan. Its last effect is
    the push of the [pr_opened] result (the pause that follows cannot
    throw), so the block is modelled as returning the result it pushes. *)
Definition tryBlock (github : GitHubAdapter World) (plan : TriagePlan)
  : M World PrResult :=
  let e := entry plan in
  let '(owner, repo) := splitRepo (Types.repo e) in
  let branch := "security/" ++ Js.toLowerCase (id e) in
  let isDraft :=
    match action plan with open_draft => true | _ => false end in
  let title :=
    "fix(security): " ++ id e ++ " – "
      ++ Severity_to_string (severity e) ++ " in " ++ affectedPackage e in
  (base <- getDefaultBranch github owner repo ;;
   createBranch github owner repo branch base ;;;
   files <- stageFiles github owner repo e ;;
   (if (0 <? Z.of_nat (List.length files))%Z
    then (commitFiles github owner repo
            (mkCommitOpts branch
               ("fix(security): upgrade " ++ affectedPackage e ++ " to "
                  ++ patchedVersion e ++ Js.LFs ++ Js.LFs
                  ++ "Resolves " ++ id e)
               files) ;;; ret tt)
    else ret tt) ;;;
   prBody <- buildPrBody e ;;
   pr <- createPullRequest github owner repo
           (mkPrOpts title prBody branch base isDraft
              (prLabels (Severity_to_string (severity e)) isDraft)) ;;
   ret (mkResult (id e) (Types.repo e) R_pr_opened
          (Some (number pr)) (Some (html_url pr)) None))%effect.

Definition skippedResult (plan : TriagePlan) : PrResult :=
  mkResult (id (entry plan)) (repo (entry plan)) R_skipped None None
           (Some (reason plan)).

Definition dryRunResult (plan : TriagePlan) : PrResult :=
  mkResult (id (entry plan)) (repo (entry plan)) R_pr_opened None None
           (Some (dryRunReason (action plan))).

Definition errorResult (plan : TriagePlan) (message : option string)
  : PrResult :=
  mkResult (id (entry plan)) (repo (entry plan)) R_error None None message.

(** The [catch] block of [execute]: it reads [(err as Error).message],
    which throws when what was caught is [undefined] or [null]. *)
Definition catchBlock (plan : TriagePlan) (err : Thrown) : M World PrResult :=
  (message <- lift (readMessage err) ;;
   ret (errorResult plan message))%effect.

(** The [for] loop of [execute]; [results] is the array being filled. *)
Fixpoint executeLoop (github : GitHubAdapter World) (dryRun : bool)
         (plans : list TriagePlan) (results : list PrResult)
  : M World (list PrResult) :=
  match plans with
  | [] => ret results
  | plan :: rest =>
      match action plan with
      | skip =>
          executeLoop github dryRun rest (results ++ [skippedResult plan])
      | _ =>
          if dryRun
          then executeLoop github dryRun rest
                 (results ++ [dryRunResult plan])
          else
            (r <- tryCatch (tryBlock github plan) (catchBlock plan) ;;
             executeLoop github dryRun rest (results ++ [r]))%effect
      end
  end.

Definition execute (plans : list TriagePlan) (github : GitHubAdapter World)
           (dryRun : bool) : M World (list PrResult) :=
  executeLoop github dryRun plans [].

End WithPlatform.

End Action.

(** ** Detection layer (layers/detection.ts) *)

Module Detection.
Import Types Effect GitHub.

Record GhsaAdvisory : Type := mkAdvisory {
  a_ghsaId : string;
  a_cveId : option string;
  a_summary : string;
  a_severity : string;
  a_cvssScore : option Q;
  a_packageEcosystem : string;
  a_packageName : string;
  vulnerableVersionRange : string;
  firstPatchedVersion : option string
}.

Record ManifestFile : Type := mkManifest {
  m_path : string;
  m_ecosystem : string;
  m_content : string
}.

Record DetectionResult : Type := mkDetectionResult {
  reposScanned : Z;
  findings : list CveQueueEntry;
  bySeverity : list (Severity * Z)
}.

Definition ECOSYSTEM_MAP : list (string * string) :=
  [("npm", "NPM"); ("pip", "PIP"); ("go", "GO"); ("maven", "MAVEN");
   ("cargo", "RUST"); ("composer", "COMPOSER")]%string.

Definition MANIFEST_PATHS : list (string * string) :=
  [("package.json", "npm"); ("requirements.txt", "pip"); ("go.mod", "go");
   ("Cargo.toml", "cargo"); ("pom.xml", "maven");
   ("composer.json", "composer")]%string.

(** The mutable locals of [detect]: [allFindings] and the [seen] set. *)
Record Acc : Type := mkAcc {
  allFindings : list CveQueueEntry;
  seen : list string
}.

Section WithPlatform.
Context {World : Type}.

(** What the layer takes from the platform:
    - the four manifest parsers, built on [JSON.parse] and on regular
      expressions; each returns [Object.entries] of its result and none
      throws;
    - the HTTP response of the GraphQL request of [queryGhsa]: [fetch] may
      throw, the response says whether it is [ok], and reading its body
      ([res.json()] and the walk down to the advisory nodes, [None] when a
      level is missing) may throw;
    - the clock, [new Date().toISOString()]. *)
Variable parseNpm parsePip parseGo parseCargo : string -> list (string * string).

Record Response : Type := mkResponse {
  ok : bool;
  json : M World (option (list GhsaAdvisory))
}.

Variable fetchGraphql : string -> string -> string -> M World Response.
Variable nowISOString : M World string.

Definition parseManifest (manifest : ManifestFile) : list (string * string) :=
  let eco := m_ecosystem manifest in
  if String.eqb eco "npm" then parseNpm (m_content manifest)
  else if String.eqb eco "pip" then parsePip (m_content manifest)
  else if String.eqb eco "go" then parseGo (m_content manifest)
  else if String.eqb eco "cargo" then parseCargo (m_content manifest)
  else [].

Definition queryGhsa (ecosystem packageName token : string)
  : M World (list GhsaAdvisory) :=
  (res <- fetchGraphql
            (Js.nullish (lookup ecosystem ECOSYSTEM_MAP)
                        (Js.toUpperCase ecosystem))
            packageName token ;;
   if negb (ok res) then ret []
   else (data <- json res ;; ret (Js.nullish data [])))%effect.

Definition advisoryId (adv : GhsaAdvisory) : string :=
  Js.nullish (a_cveId adv) (a_ghsaId adv).

Definition advisoryUrl (adv : GhsaAdvisory) : string :=
  match a_cveId adv with
  | Some c =>
      if Js.truthy c then ("https://nvd.nist.gov/vuln/detail/" ++ c)%string
      else ("https://github.com/advisories/" ++ a_ghsaId adv)%string
  | None => ("https://github.com/advisories/" ++ a_ghsaId adv)%string
  end.

(** The body of [for (const adv of advisories)]. *)
Definition onAdvisory (thresholdIdx : Z) (repoFull : string)
           (manifest : ManifestFile) (pkgName pkgVersion : string)
           (acc : Acc) (adv : GhsaAdvisory) : M World Acc :=
  let sev := normalizeSeverity (a_severity adv) in
  if indexOf SEVERITY_ORDER sev >? thresholdIdx then ret acc
  else
    let dedupeKey := (advisoryId adv ++ "::" ++ repoFull)%string in
    if existsb (String.eqb dedupeKey) (seen acc) then ret acc
    else
      (now <- nowISOString ;;
       ret (mkAcc
              (allFindings acc ++
               [ {| id := advisoryId adv;
                    ghsaId := Some (a_ghsaId adv);
                    repo := repoFull;
                    ecosystem := m_ecosystem manifest;
                    affectedPackage := pkgName;
                    affectedVersion := pkgVersion;
                    patchedVersion :=
                      Js.nullish (firstPatchedVersion adv) "unknown"%string;
                    severity := sev;
                    cvssScore := a_cvssScore adv;
                    summary := a_summary adv;
                    nvdUrl := advisoryUrl adv;
                    detectedAt := now;
                    status := S_pending;
                    prNumber := None;
                    prUrl := None;
                    processedAt := None;
                    skipReason := None |} ])
              (seen acc ++ [dedupeKey])))%effect.

(** The body of [for (const [pkgName, pkgVersion] of Object.entries(deps))]. *)
Definition onPackage (github : GitHubAdapter World) (thresholdIdx : Z)
           (repoFull : string) (manifest : ManifestFile)
           (acc : Acc) (dep : string * string) : M World Acc :=
  let '(pkgName, pkgVersion) := dep in
  if negb (Js.truthy pkgName) || Js.startsWith "//" pkgName then ret acc
  else
    (advisories <- queryGhsa (m_ecosystem manifest) pkgName (token github) ;;
     forEach advisories
       (onAdvisory thresholdIdx repoFull manifest pkgName pkgVersion) acc)%effect.

(** The body of [for (const manifest of manifests)]. *)
Definition onManifest (github : GitHubAdapter World) (thresholdIdx : Z)
           (repoFull : string) (acc : Acc) (manifest : ManifestFile)
  : M World Acc :=
  forEach (parseManifest manifest)
    (onPackage github thresholdIdx repoFull manifest) acc.

(** The body of [for (const { path, ecosystem } of MANIFEST_PATHS)]. *)
Definition onManifestPath (github : GitHubAdapter World)
           (owner : string) (repo : option string)
           (manifests : list ManifestFile) (pe : string * string)
  : M World (list ManifestFile) :=
  let '(path, ecosystem) := pe in
  (found <- getFileContent github owner repo path ;;
   match found with
   | Some c =>
       if Js.truthy c then ret (manifests ++ [mkManifest path ecosystem c])
       else ret manifests
   | None => ret manifests
   end)%effect.

(** The body of [for (const repoFull of repos)]. *)
Definition onRepo (github : GitHubAdapter World) (thresholdIdx : Z)
           (acc : Acc) (repoFull : string) : M World Acc :=
  let '(owner, repo) := splitRepo repoFull in
  (manifests <- forEach MANIFEST_PATHS (onManifestPath github owner repo) [] ;;
   if (Z.of_nat (List.length manifests) =? 0)%Z then ret acc
   else forEach manifests (onManifest github thresholdIdx repoFull) acc)%effect.

Definition countSeverity (fs : list CveQueueEntry) (s : Severity) : Z :=
  Z.of_nat (List.length (filter (fun f => Severity_eqb (severity f) s) fs)).

Definition detect (repos : list string) (severityThreshold : Severity)
           (github : GitHubAdapter World) : M World DetectionResult :=
  let thresholdIdx := indexOf SEVERITY_ORDER severityThreshold in
  (acc <- forEach repos (onRepo github thresholdIdx) (mkAcc [] []) ;;
   ret (mkDetectionResult
          (Z.of_nat (List.length repos))
          (allFindings acc)
          (List.map (fun s => (s, countSeverity (allFindings acc) s))
                    SEVERITY_ORDER)))%effect.

End WithPlatform.

End Detection.

(** ** A concrete platform, to run the model on example files

    The layers above are parametric in [JSON.parse], [JSON.stringify] and
    [Date]. This module gives them one concrete reading: queue entries as
    one-line JSON objects, and ISO-8601 UTC time stamps of the form
    [YYYY-MM-DDTHH:MM:SS.mmmZ] as produced by [toISOString]. A line that is
    JSON but lacks a field of [CveQueueEntry] has no value in the typed
    model and is read as malformed. *)

Module Demo.
Import Types.

Definition quote : ascii := ascii_of_nat 34.
Definition backslash : ascii := ascii_of_nat 92.

Fixpoint escape (s : string) : string :=
  match s with
  | EmptyString => EmptyString
  | String c s' =>
      if Ascii.eqb c quote then String backslash (String quote (escape s'))
      else if Ascii.eqb c backslash
      then String backslash (String backslash (escape s'))
      else if Ascii.eqb c Js.LF then String backslash (String "n" (escape s'))
      else String c (escape s')
  end.

Definition jstr (s : string) : string :=
  String quote (escape s ++ String quote EmptyString).

Definition showZ (n : Z) : string := Js.numberToString n.

(** A score with denominator 1 or 10 prints as a decimal; any other value
    prints as [null], as [JSON.stringify] does for a non-finite number. *)
Definition showScore (q : Q) : string :=
  let n := Qnum q in
  match Qden q with
  | 1%positive => showZ n
  | 10%positive =>
      if 0 <=? n then (showZ (n / 10) ++ "." ++ showZ (n mod 10))%string
      else "null"%string
  | _ => "null"%string
  end.

Definition Status_to_string (s : Status) : string :=
  match s with
  | S_pending => "pending" | S_pr_opened => "pr_opened"
  | S_skipped => "skipped" | S_error => "error"
  end.

Definition field (name value : string) : string :=
  (jstr name ++ ":" ++ value)%string.

Definition optField (name : string) (value : option string) : list string :=
  match value with
  | Some v => [field name v]
  | None => []
  end.

(** [JSON.stringify(e)]: the fields in declaration order, an absent optional
    field left out. *)
Definition JSON_stringify (e : CveQueueEntry) : string :=
  ("{" ++ Js.join ","
     ([field "id" (jstr (id e))]
      ++ optField "ghsaId" (option_map jstr (ghsaId e))
      ++ [field "repo" (jstr (repo e));
          field "ecosystem" (jstr (ecosystem e));
          field "affectedPackage" (jstr (affectedPackage e));
          field "affectedVersion" (jstr (affectedVersion e));
          field "patchedVersion" (jstr (patchedVersion e));
          field "severity" (jstr (Severity_to_string (severity e)));
          field "cvssScore"
            (match cvssScore e with Some q => showScore q | None => "null" end);
          field "summary" (jstr (summary e));
          field "nvdUrl" (jstr (nvdUrl e));
          field "detectedAt" (jstr (detectedAt e));
          field "status" (jstr (Status_to_string (status e)))]
      ++ optField "prNumber" (option_map showZ (prNumber e))
      ++ optField "prUrl" (option_map jstr (prUrl e))
      ++ optField "processedAt" (option_map jstr (processedAt e))
      ++ optField "skipReason" (option_map jstr (skipReason e)))
   ++ "}")%string.

Inductive Token : Type :=
| TLBrace | TRBrace | TColon | TComma | TNull
| TStr (s : string)
| TNum (q : Q).

(** The body of a string literal, after its opening quote. *)
Fixpoint lexStr (s : string) : option (string * string) :=
  match s with
  | EmptyString => None
  | String c s' =>
      if Ascii.eqb c quote then Some (EmptyString, s')
      else if Ascii.eqb c backslash then
        match s' with
        | String d s'' =>
            match lexStr s'' with
            | Some (b, rest) =>
                Some (String (if Ascii.eqb d "n" then Js.LF else d) b, rest)
            | None => None
            end
        | EmptyString => None
        end
      else match lexStr s' with
           | Some (b, rest) => Some (String c b, rest)
           | None => None
           end
  end.

Definition digitOf (c : ascii) : option Z :=
  let n := nat_of_ascii c in
  if ((48 <=? n) && (n <=? 57))%nat then Some (Z.of_nat (n - 48)) else None.

(** A run of digits: its value, the power of ten of its length, the rest. *)
Fixpoint lexDigits (s : string) (acc pow : Z) : Z * Z * string :=
  match s with
  | EmptyString => (acc, pow, s)
  | String c s' =>
      match digitOf c with
      | Some d => lexDigits s' (acc * 10 + d) (pow * 10)
      | None => (acc, pow, s)
      end
  end.

Definition lexNumber (s : string) : option (Q * string) :=
  let '(neg, s1) :=
    match s with
    | String "-" s' => (true, s')
    | _ => (false, s)
    end in
  let '(n, pow, s2) := lexDigits s1 0 1 in
  if pow =? 1 then None
  else
    let sign := if neg then (-1) else 1 in
    match s2 with
    | String "." s3 =>
        let '(f, fpow, s4) := lexDigits s3 0 1 in
        if fpow =? 1 then None
        else Some (Qmake (sign * (n * fpow + f)) (Z.to_pos fpow), s4)
    | _ => Some (Qmake (sign * n) 1, s2)
    end.

Fixpoint lex (fuel : nat) (s : string) : option (list Token) :=
  match fuel with
  | O => match s with EmptyString => Some [] | _ => None end
  | S fuel' =>
      match s with
      | EmptyString => Some []
      | String c s' =>
          let andThen (t : Token) (rest : string) :=
            option_map (cons t) (lex fuel' rest) in
          if Js.isSpace c then lex fuel' s'
          else if Ascii.eqb c "{" then andThen TLBrace s'
          else if Ascii.eqb c "}" then andThen TRBrace s'
          else if Ascii.eqb c ":" then andThen TColon s'
          else if Ascii.eqb c "," then andThen TComma s'
          else if Ascii.eqb c quote then
            match lexStr s' with
            | Some (b, rest) => andThen (TStr b) rest
            | None => None
            end
          else if Ascii.eqb c "n" then
            match Action.stripPrefix "ull" s' with
            | Some rest => andThen TNull rest
            | None => None
            end
          else match lexNumber s with
               | Some (q, rest) =>
                   if (String.length rest <? String.length s)%nat
                   then andThen (TNum q) rest else None
               | None => None
               end
      end
  end.

Definition isValue (t : Token) : bool :=
  match t with
  | TNull | TStr _ | TNum _ => true
  | _ => false
  end.

(** The members of a flat object, after its opening brace. *)
Fixpoint members (ts : list Token) : option (list (string * Token)) :=
  match ts with
  | TStr k :: TColon :: v :: rest =>
      if isValue v then
        match rest with
        | [TRBrace] => Some [(k, v)]
        | TComma :: rest' => option_map (cons (k, v)) (members rest')
        | _ => None
        end
      else None
  | _ => None
  end.

Definition getStr (k : string) (o : list (string * Token)) : option string :=
  match GitHub.lookup k o with
  | Some (TStr s) => Some s
  | _ => None
  end.

(** An optional string member: [Some None] when absent. *)
Definition getOptStr (k : string) (o : list (string * Token))
  : option (option string) :=
  match GitHub.lookup k o with
  | Some (TStr s) => Some (Some s)
  | None => Some None
  | _ => None
  end.

Definition Severity_of_string (s : string) : option Severity :=
  find (fun v => String.eqb s (Severity_to_string v)) SEVERITY_ORDER.

Definition Status_of_string (s : string) : option Status :=
  find (fun v => String.eqb s (Status_to_string v))
       [S_pending; S_pr_opened; S_skipped; S_error].

Definition obind {A B : Type} (a : option A) (k : A -> option B) : option B :=
  match a with Some x => k x | None => None end.

Definition entryOfMembers (o : list (string * Token)) : option CveQueueEntry :=
  obind (getStr "id" o) (fun i =>
  obind (getOptStr "ghsaId" o) (fun g =>
  obind (getStr "repo" o) (fun r =>
  obind (getStr "ecosystem" o) (fun eco =>
  obind (getStr "affectedPackage" o) (fun pkg =>
  obind (getStr "affectedVersion" o) (fun ver =>
  obind (getStr "patchedVersion" o) (fun pat =>
  obind (obind (getStr "severity" o) Severity_of_string) (fun sev =>
  obind (match GitHub.lookup "cvssScore" o with
         | Some (TNum q) => Some (Some q)
         | Some TNull => Some None
         | _ => None
         end) (fun score =>
  obind (getStr "summary" o) (fun sm =>
  obind (getStr "nvdUrl" o) (fun u =>
  obind (getStr "detectedAt" o) (fun det =>
  obind (obind (getStr "status" o) Status_of_string) (fun st =>
  obind (match GitHub.lookup "prNumber" o with
         | Some (TNum q) =>
             if (Qden q =? 1)%positive then Some (Some (Qnum q)) else None
         | None => Some None
         | _ => None
         end) (fun prn =>
  obind (getOptStr "prUrl" o) (fun pru =>
  obind (getOptStr "processedAt" o) (fun pro =>
  obind (getOptStr "skipReason" o) (fun skr =>
  Some (mkEntry i g r eco pkg ver pat sev score sm u det st
                prn pru pro skr)))))))))))))))))).

(** [JSON.parse(line)] read as an entry; [None] stands for a throw. *)
Definition JSON_parse (line : string) : option CveQueueEntry :=
  match lex (String.length line) line with
  | Some (TLBrace :: ts) => obind (members ts) entryOfMembers
  | _ => None
  end.

(** Days since 1970-01-01 of a civil date (proleptic Gregorian). *)
Definition daysFromCivil (y m d : Z) : Z :=
  let y' := if m <=? 2 then y - 1 else y in
  let era := y' / 400 in
  let yoe := y' - era * 400 in
  let doy := (153 * (if m >? 2 then m - 3 else m + 9) + 2) / 5 + d - 1 in
  let doe := yoe * 365 + yoe / 4 - yoe / 100 + doy in
  era * 146097 + doe - 719468.

(** [n] digits from position [i]. *)
Definition digitsAt (s : string) (i n : nat) : option Z :=
  let t := substring i n s in
  match lexDigits t 0 1 with
  | (v, _, EmptyString) => if (String.length t =? n)%nat then Some v else None
  | _ => None
  end.

(** [new Date(s).getTime()] for [YYYY-MM-DDTHH:MM:SS.mmmZ]; [None] is NaN. *)
Definition Date_getTime (s : string) : option Z :=
  if (String.length s =? 24)%nat
     && String.eqb (substring 4 1 s) "-" && String.eqb (substring 7 1 s) "-"
     && String.eqb (substring 10 1 s) "T" && String.eqb (substring 13 1 s) ":"
     && String.eqb (substring 16 1 s) ":" && String.eqb (substring 19 1 s) "."
     && String.eqb (substring 23 1 s) "Z"
  then
    obind (digitsAt s 0 4) (fun y =>
    obind (digitsAt s 5 2) (fun mo =>
    obind (digitsAt s 8 2) (fun d =>
    obind (digitsAt s 11 2) (fun h =>
    obind (digitsAt s 14 2) (fun mi =>
    obind (digitsAt s 17 2) (fun sec =>
    obind (digitsAt s 20 3) (fun ms =>
    if (1 <=? mo) && (mo <=? 12) && (1 <=? d) && (d <=? 31)
       && (h <=? 23) && (mi <=? 59) && (sec <=? 59)
    then Some ((((daysFromCivil y mo d * 24 + h) * 60 + mi) * 60 + sec) * 1000
               + ms)
    else None)))))))
  else None.

End Demo.

(** ** The notions the specification speaks of

    Stated from the words of the specification, independently of the code,
    so that the theorems below compare the two. *)

Module Spec.
Import Types.

(** The fixed scale, most severe first:
    CRITICAL > HIGH > MEDIUM > LOW > NONE > UNKNOWN. *)
Inductive justAbove : Severity -> Severity -> Prop :=
| above_CRITICAL_HIGH : justAbove CRITICAL HIGH
| above_HIGH_MEDIUM : justAbove HIGH MEDIUM
| above_MEDIUM_LOW : justAbove MEDIUM LOW
| above_LOW_NONE : justAbove LOW NONE
| above_NONE_UNKNOWN : justAbove NONE UNKNOWN.

(** [s] is at least as severe as [t]: [s] is [t] or stands above it. *)
Inductive atLeastAsSevere : Severity -> Severity -> Prop :=
| severe_same : forall s, atLeastAsSevere s s
| severe_above : forall s m t,
    justAbove s m -> atLeastAsSevere m t -> atLeastAsSevere s t.

Definition moreSevere (s t : Severity) : Prop :=
  atLeastAsSevere s t /\ s <> t.

(** The score used for ordering: an absent score counts as 0. *)
Definition scoreOf (e : CveQueueEntry) : Q :=
  match cvssScore e with Some q => q | None => 0%Q end.

(** [a] is not less urgent than [b]: more severe, or as severe with a score
    at least as high. *)
Definition atLeastAsUrgent (a b : CveQueueEntry) : Prop :=
  moreSevere (severity a) (severity b)
  \/ (severity a = severity b /\ (scoreOf b <= scoreOf a)%Q).

(** A patched version is known: present and not the [unknown] sentinel. *)
Definition hasKnownPatch (e : CveQueueEntry) : Prop :=
  patchedVersion e <> EmptyString /\ patchedVersion e <> "unknown"%string.

Definition isActing (p : Decision.TriagePlan) : Prop :=
  Decision.action p = Decision.open_pr
  \/ Decision.action p = Decision.open_draft.

Definition isCapSkip (policy : TriagePolicy) (p : Decision.TriagePlan) : Prop :=
  Decision.action p = Decision.skip
  /\ Decision.reason p = Decision.capReason policy.

Definition actingb (p : Decision.TriagePlan) : bool :=
  match Decision.action p with
  | Decision.skip => false
  | _ => true
  end.

Definition capSkipb (policy : TriagePolicy) (p : Decision.TriagePlan) : bool :=
  match Decision.action p with
  | Decision.skip => String.eqb (Decision.reason p) (Decision.capReason policy)
  | _ => false
  end.

(** *** Queue state *)

(** The identity of an entry. *)
Definition idRepo (e : CveQueueEntry) : string * string := (id e, repo e).

(** The invariant of a queue mapping: keys are pairwise distinct and every
    entry sits under the key computed from its own [id] and [repo]. *)
Definition wellKeyed (q : State.Queue) : Prop :=
  NoDup (Js.keys q)
  /\ Forall (fun kv => fst kv = State.entryKey (snd kv)) q.

(** Two mappings are equal as mappings: same keys, same values. *)
Definition sameMapping (q1 q2 : State.Queue) : Prop :=
  forall k, Js.get k q1 = Js.get k q2.




Definition keyIs (k : string) (e : CveQueueEntry) : bool :=
  String.eqb (State.entryKey e) k.

Definition updateKey (u : State.Update) : string :=
  State.queueKey (State.u_id u) (State.u_repo u).

(** The updates of a batch addressed to key [k], in batch order. *)
Definition updatesFor (k : string) (us : list State.Update)
  : list State.Update :=
  filter (fun u => String.eqb (updateKey u) k) us.

(** The value an optional field receives from a run of updates: that of the
    last update that provides one. *)
Fixpoint lastProvided {A : Type} (f : State.Update -> option A)
         (us : list State.Update) : option A :=
  match us with
  | [] => None
  | u :: rest =>
      match lastProvided f rest with
      | Some a => Some a
      | None => f u
      end
  end.

(** An entry of a batch is a duplicate when its key is in the mapping
    already or an earlier entry of the batch carries it. *)
Fixpoint duplicateFlags (q : State.Queue) (earlier batch : list CveQueueEntry)
  : list bool :=
  match batch with
  | [] => []
  | e :: rest =>
      (Js.has (State.entryKey e) q || existsb (keyIs (State.entryKey e)) earlier)
        :: duplicateFlags q (earlier ++ [e]) rest
  end.

Definition countTrue (l : list bool) : Z :=
  Z.of_nat (List.length (filter (fun b => b) l)).

Definition countFalse (l : list bool) : Z :=
  Z.of_nat (List.length (filter negb l)).

Fixpoint hasChar (c : ascii) (s : string) : bool :=
  match s with
  | EmptyString => false
  | String c' s' => Ascii.eqb c' c || hasChar c s'
  end.

(** What [JSON.stringify] and [JSON.parse] guarantee for an entry made of
    JSON data: the text parses back to the entry, it is one line (a line
    feed inside a string is escaped), and it starts with a brace and ends
    with one, so that trimming leaves it as it is and it is not empty. *)
Definition survivesJson (parse : string -> option CveQueueEntry)
           (stringify : CveQueueEntry -> string) (e : CveQueueEntry) : Prop :=
  parse (stringify e) = Some e
  /\ hasChar Js.LF (stringify e) = false
  /\ Js.trim (stringify e) = stringify e
  /\ stringify e <> EmptyString.

(** A run of [enqueue] calls, one per batch, on the store each call leaves. *)
Definition enqueueAll (parse : string -> option CveQueueEntry)
           (stringify : CveQueueEntry -> string)
           (batches : list (list CveQueueEntry)) (state : State.Store)
  : State.Store :=
  fold_left (fun st batch => fst (State.enqueue parse stringify batch st))
            batches state.

(** What an update never touches: everything but [status], [prNumber],
    [prUrl], [skipReason] and [processedAt]. *)
Definition sameFinding (e e' : CveQueueEntry) : Prop :=
  id e' = id e /\ ghsaId e' = ghsaId e /\ repo e' = repo e
  /\ ecosystem e' = ecosystem e
  /\ affectedPackage e' = affectedPackage e
  /\ affectedVersion e' = affectedVersion e
  /\ patchedVersion e' = patchedVersion e
  /\ severity e' = severity e /\ cvssScore e' = cvssScore e
  /\ summary e' = summary e /\ nvdUrl e' = nvdUrl e
  /\ detectedAt e' = detectedAt e.

(** An optional field after a run of updates: the last value provided, and
    the value the entry had when none is. *)
Definition carried {A : Type} (f : State.Update -> option A)
           (us : list State.Update) (old : option A) : option A :=
  match lastProvided f us with
  | Some a => Some a
  | None => old
  end.

Definition applyAll (now : string) (us : list State.Update)
           (e : CveQueueEntry) : CveQueueEntry :=
  fold_left (fun e u => State.applyUpdate e u now) us e.

(** *** Effects *)

(** A computation that returns in every world: it never throws. *)
Definition neverThrows {World A : Type} (m : Effect.M World A) : Prop :=
  forall w, exists a w', m w = (inr a, w').

(** The result and the plan are about the same entry. *)
Definition answers (plan : Decision.TriagePlan) (r : PrResult) : Prop :=
  cveId r = id (Decision.entry plan) /\ r_repo r = repo (Decision.entry plan).

(** The ecosystem name sent to the advisory database. *)
Definition ghsaEcosystem (eco : string) : string :=
  Js.nullish (GitHub.lookup eco Detection.ECOSYSTEM_MAP) (Js.toUpperCase eco).

(** *** Notions used in the proofs *)

Definition rank (s : Severity) : Z := indexOf SEVERITY_ORDER s.

(** The plan of an entry that is acted upon, and of one that is capped. *)
Definition actPlan (e : CveQueueEntry) : Decision.TriagePlan :=
  if Severity_eqb (severity e) CRITICAL
  then Decision.mkPlan e Decision.open_pr Decision.criticalReason
  else Decision.mkPlan e Decision.open_draft (Decision.draftReason e).

Definition capPlan (policy : TriagePolicy) (e : CveQueueEntry)
  : Decision.TriagePlan :=
  Decision.mkPlan e Decision.skip (Decision.capReason policy).

Definition eligible (policy : TriagePolicy) (e : CveQueueEntry) : Prop :=
  status e = S_pending
  /\ meetsThreshold (severity e) (autoPrThreshold policy) = true
  /\ (requirePatchedVersion policy = false \/ hasKnownPatch e).

Definition setEntry (q : State.Queue) (e : CveQueueEntry) : State.Queue :=
  Js.set (State.entryKey e) e q.

Definition loopQueue (r : State.Queue * Z * Z) : State.Queue := fst (fst r).
Definition loopFirst (r : State.Queue * Z * Z) : Z := snd (fst r).
Definition loopSecond (r : State.Queue * Z * Z) : Z := snd r.

(** What the loop keeps. *)
Definition kept (getTime : string -> option Z) (cutoff : Z)
           (kv : string * CveQueueEntry) : bool :=
  Status_eqb (status (snd kv)) S_pending
  || negb (State.expired getTime cutoff (snd kv)).

Definition pendingOpts : State.ListOpts :=
  State.mkListOpts (Some (State.OnlyStatus S_pending)) None None (Some 1000).

(** [a] does not come after [b] under the comparator of a sort. *)
Definition notAfter {A : Type} (cmp : A -> A -> Q) (a b : A) : Prop :=
  Qle_bool (cmp a b) 0 = true.

(** The failures the code meets as values: no throw from the capability,
    from [fetch], from the body of an OK response, or from the clock. *)
Definition failuresAreValues {World : Type}
           (github : GitHub.GitHubAdapter World)
           (fetchGraphql :
              string -> string -> string
              -> Effect.M World (@Detection.Response World))
           (nowISOString : Effect.M World string) : Prop :=
  (forall owner repo path,
      neverThrows (GitHub.getFileContent github owner repo path))
  /\ (forall eco pkg tok, neverThrows (fetchGraphql eco pkg tok))
  /\ (forall eco pkg tok w res w',
         fetchGraphql eco pkg tok w = (inr res, w') ->
         Detection.ok res = true -> neverThrows (Detection.json res))
  /\ neverThrows nowISOString.

End Spec.

(** ** One plan at a time

    The loop of [execute] read one plan at a time: what one turn of the
    loop does for a plan, with its [try] and [catch] blocks, and the turns
    taken in order, each from the world the previous one left and none
    after a turn that throws. *)

Module Run.
Import Types Effect GitHub.
Import Decision(TriagePlan, entry, action, reason, open_pr, open_draft, skip).

Section WithPlatform.
Context {World : Type}.
Variable updateNpmManifest : string -> string -> string -> Thrown + string.
Variable scoreToString : Q -> string.
Variable Date_toISOString : string -> option string.
Variable nowISOString : M World string.

Definition tryBlock :=
  Action.tryBlock updateNpmManifest scoreToString Date_toISOString
                  nowISOString.

Definition runOne (github : GitHubAdapter World) (dryRun : bool)
           (plan : TriagePlan) : M World PrResult :=
  match action plan with
  | skip => ret (Action.skippedResult plan)
  | _ =>
      if dryRun then ret (Action.dryRunResult plan)
      else tryCatch (tryBlock github plan) (Action.catchBlock plan)
  end.

Fixpoint runAll (github : GitHubAdapter World) (dryRun : bool)
         (plans : list TriagePlan) : M World (list PrResult) :=
  match plans with
  | [] => ret []
  | plan :: rest =>
      (r <- runOne github dryRun plan ;;
       rs <- runAll github dryRun rest ;;
       ret (r :: rs))%effect
  end.

End WithPlatform.

End Run.

(** ** Example data: the scenarios of the specification *)

Module Examples.
Import Types.
Local Open Scope string_scope.

Definition pendingEntry (i r : string) (sev : Severity) (score : option Q)
           (patched detected : string) : CveQueueEntry :=
  {| id := i; ghsaId := None; repo := r; ecosystem := "npm";
     affectedPackage := "lodash"; affectedVersion := "1.0.0";
     patchedVersion := patched; severity := sev; cvssScore := score;
     summary := "Prototype pollution"; nvdUrl := "https://nvd.nist.gov/vuln/detail/" ++ i;
     detectedAt := detected; status := S_pending;
     prNumber := None; prUrl := None; processedAt := None;
     skipReason := None |}.

Definition critical (i : string) (score : Q) : CveQueueEntry :=
  pendingEntry i "a/b" CRITICAL (Some score) "2.0.0"
               "2024-01-01T00:00:00.000Z".

(** Six CRITICAL pending entries, to be triaged under [maxPrsPerRun = 5]. *)
Definition sixCritical : list CveQueueEntry :=
  [critical "CVE-2024-1" (91 # 10); critical "CVE-2024-2" (98 # 10);
   critical "CVE-2024-3" (90 # 10); critical "CVE-2024-4" (100 # 10);
   critical "CVE-2024-5" (95 # 10); critical "CVE-2024-6" (93 # 10)].

(** Two entries with different [(id, repo)] and the same key string
    [CVE-2024-7::a::b]. *)
Definition colonInId : CveQueueEntry :=
  pendingEntry "CVE-2024-7::a" "b" HIGH (Some (75 # 10)) "2.0.0"
               "2024-01-01T00:00:00.000Z".

Definition colonInRepo : CveQueueEntry :=
  pendingEntry "CVE-2024-7" "a::b" CRITICAL (Some (99 # 10)) "3.0.0"
               "2024-02-01T00:00:00.000Z".

Definition colonStore : State.Store := Some (Demo.JSON_stringify colonInId).

Definition colonUpdate : State.Update :=
  State.mkUpdate "CVE-2024-7" "a::b" S_skipped None None (Some "not ours").

(** The compaction scenario, read on 2024-06-01: one [pr_opened] entry
    processed 40 days before, one pending entry detected 100 days before. *)
Definition juneFirst : Z := 1717200000000.

Definition openedLongAgo : CveQueueEntry :=
  {| id := "CVE-2024-10"; ghsaId := Some "GHSA-aaaa-bbbb-cccc"; repo := "a/b";
     ecosystem := "npm"; affectedPackage := "lodash";
     affectedVersion := "1.0.0"; patchedVersion := "2.0.0";
     severity := HIGH; cvssScore := Some (75 # 10);
     summary := "Prototype pollution";
     nvdUrl := "https://nvd.nist.gov/vuln/detail/CVE-2024-10";
     detectedAt := "2024-04-01T00:00:00.000Z"; status := S_pr_opened;
     prNumber := Some 12; prUrl := Some "https://github.com/a/b/pull/12";
     processedAt := Some "2024-04-22T00:00:00.000Z"; skipReason := None |}.

Definition pendingLongAgo : CveQueueEntry :=
  pendingEntry "CVE-2024-11" "a/b" HIGH (Some (81 # 10)) "2.0.0"
               "2024-02-22T00:00:00.000Z".

Definition compactStore : State.Store :=
  Some (Js.join Js.LFs [Demo.JSON_stringify openedLongAgo;
                        "this line is not JSON";
                        Demo.JSON_stringify pendingLongAgo]).

(** A pending entry whose advisory severity was not recognised. *)
Definition unknownSeverity : CveQueueEntry :=
  pendingEntry "GHSA-dddd-eeee-ffff" "a/b" UNKNOWN None "2.0.0"
               "2024-05-01T00:00:00.000Z".

Definition unknownStore : State.Store :=
  Some (Demo.JSON_stringify unknownSeverity).

Definition demoQueue : State.Queue :=
  [(State.entryKey openedLongAgo, openedLongAgo);
   (State.entryKey pendingLongAgo, pendingLongAgo)].

(** *** A code host for the scenarios

    The world is the number of remote calls made so far. Repositories of
    the owner [down] cannot be reached: reading a file there finds nothing
    (the adapter of [adapters/env.ts] turns a failed read into [null]), and
    every other call on them throws. *)

Definition World : Type := Z.

Definition tick {A : Type} (a : A) : Effect.M World A :=
  fun w => (inr a, w + 1).

Definition fail {A : Type} (msg : string) : Effect.M World A :=
  fun w => (inl (Effect.mkThrown (Some msg)), w + 1).

Definition demoGithub : GitHub.GitHubAdapter World :=
  {| GitHub.token := "t0ken";
     GitHub.getFileContent := fun owner _ path =>
       if String.eqb owner "down" then tick None
       else if String.eqb path "requirements.txt"
       then tick (Some "flask==1.0")
       else tick None;
     GitHub.createBranch := fun owner _ _ _ =>
       if String.eqb owner "down" then fail "Not Found" else tick tt;
     GitHub.commitFiles := fun _ _ _ =>
       tick (GitHub.mkCommitInfo "abc123" "https://github.com/commit/abc123");
     GitHub.createPullRequest := fun owner _ _ =>
       fun w => (inr (GitHub.mkPrInfo w ("https://github.com/" ++ owner ++ "/pull")),
                 w + 1);
     GitHub.getDefaultBranch := fun owner _ =>
       if String.eqb owner "down" then fail "Not Found" else tick "main" |}.

(** The same code host with a capability whose reads throw as well. *)
Definition rawGithub : GitHub.GitHubAdapter World :=
  {| GitHub.token := GitHub.token demoGithub;
     GitHub.getFileContent := fun owner repo path =>
       if String.eqb owner "down" then fail "Not Found"
       else GitHub.getFileContent demoGithub owner repo path;
     GitHub.createBranch := GitHub.createBranch demoGithub;
     GitHub.commitFiles := GitHub.commitFiles demoGithub;
     GitHub.createPullRequest := GitHub.createPullRequest demoGithub;
     GitHub.getDefaultBranch := GitHub.getDefaultBranch demoGithub |}.

Definition demoNpmUpdate (content pkg version : string)
  : Effect.Thrown + string :=
  inl (Effect.mkThrown (Some "Unexpected token")).

Definition demoToISOString (s : string) : option string :=
  match Demo.Date_getTime s with Some _ => Some s | None => None end.

Definition demoNow : Effect.M World string :=
  Effect.ret "2024-06-01T00:00:00.000Z".

(** Three plans: an acting plan on a repository that cannot be reached,
    an acting plan on one that can, and a skip. *)
Definition unreachable : CveQueueEntry :=
  pendingEntry "CVE-2024-20" "down/x" CRITICAL (Some (98 # 10)) "2.0.0"
               "2024-05-01T00:00:00.000Z".

Definition reachable : CveQueueEntry :=
  pendingEntry "CVE-2024-21" "up/y" HIGH (Some (80 # 10)) "2.0.0"
               "2024-05-01T00:00:00.000Z".

Definition threePlans : list Decision.TriagePlan :=
  [Decision.mkPlan unreachable Decision.open_pr Decision.criticalReason;
   Decision.mkPlan reachable Decision.open_draft (Decision.draftReason reachable);
   Decision.mkPlan pendingLongAgo Decision.skip Decision.noPatchReason].

(** *** An advisory database for the scenarios

    Every manifest lists [flask] and [requests]. The query for [requests]
    finds one HIGH advisory; the query for [flask] fails, in the way the
    argument says: with a non-OK response, or by throwing. *)

Definition demoParsePip (content : string) : list (string * string) :=
  [("flask", "1.0"); ("requests", "2.0")].

Definition noDeps (content : string) : list (string * string) := [].

Definition requestsAdvisory : Detection.GhsaAdvisory :=
  Detection.mkAdvisory "GHSA-rrrr-rrrr-rrrr" (Some "CVE-2024-30")
    "Leak of credentials" "high" (Some (80 # 10)) "PIP" "requests"
    "< 2.31" (Some "2.31.0").

Definition demoFetch (flaskThrows : bool) (eco pkg tok : string)
  : Effect.M World (@Detection.Response World) :=
  if String.eqb pkg "flask" then
    if flaskThrows then fail "fetch failed"
    else tick (Detection.mkResponse false (Effect.ret None))
  else tick (Detection.mkResponse true
               (Effect.ret (Some [requestsAdvisory]))).

(** A rescan of [CVE-2024-11] that now rates it CRITICAL, and a finding that
    is new; the batch carries the new finding twice. *)
Definition rescanned : CveQueueEntry :=
  pendingEntry "CVE-2024-11" "a/b" CRITICAL (Some (99 # 10)) "3.0.0"
               "2024-06-01T00:00:00.000Z".

Definition newFinding : CveQueueEntry :=
  pendingEntry "CVE-2024-12" "a/b" MEDIUM (Some (50 # 10)) "unknown"
               "2024-06-01T00:00:00.000Z".

(** The pull request of [CVE-2024-10] is closed by hand: the update gives a
    status and a reason, and no pull request number or URL. *)
Definition closedByHand : State.Update :=
  State.mkUpdate "CVE-2024-10" "a/b" S_skipped None None (Some "won't fix").

Definition notInStore : State.Update :=
  State.mkUpdate "CVE-1999-1" "a/b" S_error None None None.

(** A second batch for the store of the scenarios: the new finding again,
    and one more. *)
Definition anotherFinding : CveQueueEntry :=
  pendingEntry "CVE-2024-13" "c/d" LOW None "1.2.3"
               "2024-06-02T00:00:00.000Z".

Definition firstBatch : list CveQueueEntry := [rescanned; newFinding].
Definition secondBatch : list CveQueueEntry := [newFinding; anotherFinding].

(** A finding whose detection time is not a date, and its plan. *)
Definition undated : CveQueueEntry :=
  pendingEntry "CVE-2024-22" "up/y" HIGH (Some (80 # 10)) "2.0.0"
               "last Tuesday".

Definition undatedPlan : Decision.TriagePlan :=
  Decision.mkPlan undated Decision.open_draft (Decision.draftReason undated).

(** A finding in the [requirements.txt] of the code host of the scenarios. *)
Definition flaskFinding : CveQueueEntry :=
  {| id := "CVE-2024-40"; ghsaId := None; repo := "up/y"; ecosystem := "pip";
     affectedPackage := "flask"; affectedVersion := "1.0";
     patchedVersion := "2.0"; severity := HIGH; cvssScore := None;
     summary := "Open redirect";
     nvdUrl := "https://nvd.nist.gov/vuln/detail/CVE-2024-40";
     detectedAt := "2024-05-01T00:00:00.000Z"; status := S_pending;
     prNumber := None; prUrl := None; processedAt := None;
     skipReason := None |}.

Definition requirements : string :=
  Js.join Js.LFs ["flask==1.0"; "requests >= 2.0"; "flask-login==0.6"].

(** A code host whose lookup of the default branch rejects with no value,
    as [Promise.reject()] does, for the repositories of the owner [void]. *)
Definition reject {A : Type} : Effect.M World A :=
  fun w => (inl (Effect.thrownNullish false), w + 1).

Definition voidGithub : GitHub.GitHubAdapter World :=
  {| GitHub.token := GitHub.token demoGithub;
     GitHub.getFileContent := GitHub.getFileContent demoGithub;
     GitHub.createBranch := GitHub.createBranch demoGithub;
     GitHub.commitFiles := GitHub.commitFiles demoGithub;
     GitHub.createPullRequest := GitHub.createPullRequest demoGithub;
     GitHub.getDefaultBranch := fun owner repo =>
       if String.eqb owner "void" then reject
       else GitHub.getDefaultBranch demoGithub owner repo |}.

Definition voided : CveQueueEntry :=
  pendingEntry "CVE-2024-23" "void/z" CRITICAL (Some (98 # 10)) "2.0.0"
               "2024-05-01T00:00:00.000Z".

Definition reachablePlan : Decision.TriagePlan :=
  Decision.mkPlan reachable Decision.open_draft (Decision.draftReason reachable).

Definition voidedPlan : Decision.TriagePlan :=
  Decision.mkPlan voided Decision.open_pr Decision.criticalReason.

Definition skipPlan : Decision.TriagePlan :=
  Decision.mkPlan pendingLongAgo Decision.skip Decision.noPatchReason.

(** An advisory database that cannot be reached while [requests] is looked
    up: the query for [flask] is answered, not OK, and the one for
    [requests] throws. *)
Definition flakyFetch (eco pkg tok : string)
  : Effect.M World (@Detection.Response World) :=
  if String.eqb pkg "requests" then fail "fetch failed"
  else demoFetch false eco pkg tok.

End Examples.

(** ** Plain objects used as tables of counts *)

Module JsObject.

Definition isDigit (c : ascii) : bool :=
  let n := nat_of_ascii c in ((48 <=? n) && (n <=? 57))%nat.

Fixpoint allDigits (s : string) : bool :=
  match s with
  | EmptyString => true
  | String c s' => isDigit c && allDigits s'
  end.

Fixpoint decimalValue (s : string) (acc : Z) : Z :=
  match s with
  | EmptyString => acc
  | String c s' => decimalValue s' (acc * 10 + Z.of_nat (nat_of_ascii c - 48))
  end.

(** A property key that is an array index: the canonical decimal text of an
    integer from 0 to 2^32 - 2. *)
Definition arrayIndex (k : string) : option Z :=
  match k with
  | EmptyString => None
  | String c rest =>
      if allDigits k
         && (negb (Ascii.eqb c "0") || String.eqb rest EmptyString)
         && (decimalValue k 0 <=? 4294967294)
      then Some (decimalValue k 0)
      else None
  end.

Definition byIndex {V : Type} (a b : Z * (string * V)) : Q :=
  inject_Z (fst a - fst b).

Fixpoint indexed {V : Type} (o : Js.Map V) : list (Z * (string * V)) :=
  match o with
  | [] => []
  | (k, v) :: o' =>
      match arrayIndex k with
      | Some i => (i, (k, v)) :: indexed o'
      | None => indexed o'
      end
  end.

Definition named {V : Type} (o : Js.Map V) : list (string * V) :=
  filter (fun kv => match arrayIndex (fst kv) with
                    | Some _ => false
                    | None => true
                    end) o.

(** [Object.entries(o)] of an object built key by key ([o] lists its own
    properties in creation order): the array-index keys first, in ascending
    numeric order, then the other keys in creation order. *)
Definition entries {V : Type} (o : Js.Map V) : list (string * V) :=
  List.map snd (Js.sort byIndex (indexed o)) ++ named o.

End JsObject.

(** ** State layer, continued: [stats] (layers/state.ts) *)

Module Stats.
Import Types.

Record OldestPending : Type := mkOldest {
  o_id : string;
  o_repo : string;
  o_severity : Severity;
  o_detectedAt : string
}.

Record StatsResult : Type := mkStats {
  total : Z;
  byStatus : State.StatusCounts;
  pendingBySeverity : list (Severity * Z);
  oldestPending : option OldestPending;
  topRepos : list (string * Z)
}.

(** The step of [entries.reduce] that builds [byStatus]:
    [{...acc, [e.status]: (acc[e.status] ?? 0) + 1}]. *)
Definition countStatus (acc : State.StatusCounts) (e : CveQueueEntry)
  : State.StatusCounts :=
  State.setCount (status e)
    (Js.nullish (State.countOf (status e) acc) 0 + 1) acc.

(** The step of [pendingEntries.reduce] that builds [byRepo]. A repository
    name is taken not to be the name of a member of [Object.prototype]. *)
Definition countRepo (acc : Js.Map Z) (e : CveQueueEntry) : Js.Map Z :=
  Js.set (repo e) (Js.nullish (Js.get (repo e) acc) 0 + 1) acc.

(** [([, a], [, b]) => b - a]. *)
Definition byCount (a b : string * Z) : Q := inject_Z (snd b - snd a).

Section WithPlatform.
Variable JSON_parse : string -> option CveQueueEntry.
Variable Date_getTime : string -> option Z.

(** [new Date(a.detectedAt).getTime() - new Date(b.detectedAt).getTime()];
    the difference is NaN when a date is invalid, and [sort] reads NaN
    as 0. *)
Definition byDetection (a b : CveQueueEntry) : Q :=
  match Date_getTime (detectedAt a), Date_getTime (detectedAt b) with
  | Some ta, Some tb => inject_Z (ta - tb)
  | _, _ => 0
  end.

Definition emptyStats : StatsResult := mkStats 0 [] [] None [].

(** [pendingEntries.sort(...)] sorts the array in place: [byRepo] is
    built from the sorted array. *)
Definition stats (state : State.Store) : StatsResult :=
  match state with
  | None => emptyStats
  | Some raw =>
      if negb (Js.truthy raw) then emptyStats
      else
        let entries := Js.values (State.parseQueue JSON_parse raw) in
        let counts := fold_left countStatus entries [] in
        let pendingEntries := filter Decision.isPending entries in
        let bySeverity :=
          List.map
            (fun s =>
               (s, Z.of_nat
                     (List.length
                        (filter (fun e => Severity_eqb (severity e) s)
                                pendingEntries))))
            SEVERITY_ORDER in
        let sorted := Js.sort byDetection pendingEntries in
        let oldest := hd_error sorted in
        let byRepo := fold_left countRepo sorted Js.empty in
        let top :=
          firstn 10 (Js.sort byCount (JsObject.entries byRepo)) in
        mkStats (Z.of_nat (List.length entries)) counts bySeverity
          (option_map
             (fun o => mkOldest (id o) (repo o) (severity o) (detectedAt o))
             oldest)
          top
  end.

End WithPlatform.

End Stats.

(** ** The store capability of adapters/env.ts: [append] *)

Module Env.

(** [append(file, lines)]: a read, then a write of the old text, a line
    feed and the new lines; the new lines alone when the file is missing
    or empty. *)
Definition append (lines : list string) (state : State.Store) : State.Store :=
  let newContent :=
    match state with
    | Some existing =>
        if Js.truthy existing
        then (existing ++ Js.LFs ++ Js.join Js.LFs lines)%string
        else Js.join Js.LFs lines
    | None => Js.join Js.LFs lines
    end in
  Some newContent.

End Env.

(** ** The callers: the [triage] and [scan] commands

    [cve_triage] of app.ts and [triage] of bin/cli.js run the same steps:
    [pending], [triage], [execute] and, unless it is a dry run, [update]
    with one update per result. [cve_triage] of mcp/server.js drops some
    results before the update. [cve_scan] and [scan] run [detect] and
    enqueue the findings. What is modelled is the work of the commands; the
    text they print or return is the summary rendered by
    [JSON.stringify].

    The commands reach the queue file through the store capability, whose
    [read] and [write] may throw. The file is read in the typed model of
    the State layer: its lines are blank, malformed or complete entries. A
    line that is JSON without being a complete entry, which the code keeps
    and hands on to [triage] and [execute], has no counterpart here. *)

Module Pipeline.
Import Types Effect GitHub.

Record Summary : Type := mkSummary {
  processed : Z;
  prs_opened : Z;
  skipped : Z;
  errors : Z;
  dry_run : bool;
  results : list PrResult
}.

Definition ResultAction_eqb (a b : ResultAction) : bool :=
  match a, b with
  | R_pr_opened, R_pr_opened | R_skipped, R_skipped | R_error, R_error => true
  | _, _ => false
  end.

(** [r.action === "pr_opened" ? "pr_opened" : r.action === "error" ?
    "error" : "skipped"]. *)
Definition statusOf (a : ResultAction) : Status :=
  if ResultAction_eqb a R_pr_opened then S_pr_opened
  else if ResultAction_eqb a R_error then S_error
  else S_skipped.

Definition toUpdate (r : PrResult) : State.Update :=
  State.mkUpdate (cveId r) (r_repo r) (statusOf (r_action r))
                 (r_prNumber r) (r_prUrl r) (r_reason r).

Definition countAction (a : ResultAction) (rs : list PrResult) : Z :=
  Z.of_nat (List.length
              (filter (fun r => ResultAction_eqb (r_action r) a) rs)).

Definition summarise (dryRun : bool) (rs : list PrResult) : Summary :=
  mkSummary (Z.of_nat (List.length rs)) (countAction R_pr_opened rs)
            (countAction R_skipped rs) (countAction R_error rs) dryRun rs.

(** The policy of a run: the default policy with the arguments given. *)
Definition policyOf (auto_pr_threshold : option Severity)
           (max_prs_per_run : option Z) (require_patched_version : option bool)
  : TriagePolicy :=
  {| autoPrThreshold :=
       Js.nullish auto_pr_threshold
                  (autoPrThreshold Decision.DEFAULT_POLICY);
     draftThreshold := draftThreshold Decision.DEFAULT_POLICY;
     maxPrsPerRun :=
       Js.nullish max_prs_per_run (maxPrsPerRun Decision.DEFAULT_POLICY);
     requirePatchedVersion :=
       Js.nullish require_patched_version
                  (requirePatchedVersion Decision.DEFAULT_POLICY) |}.

(** The filter of mcp/server.js:
    [r.action !== "skipped" ||
     plans.find((p) => p.entry.id === r.cveId)?.action === "skip"]. *)
Definition keptByServer (plans : list Decision.TriagePlan) (r : PrResult)
  : bool :=
  negb (ResultAction_eqb (r_action r) R_skipped)
  || match find (fun p => String.eqb (id (Decision.entry p)) (cveId r))
                plans with
     | Some p =>
         match Decision.action p with
         | Decision.skip => true
         | _ => false
         end
     | None => false
     end.

(** The store capability ([StateAdapter] of types.ts) on the queue file,
    [state/cve-queue.jsonl]: [read] gives [null] for a missing file. *)
Record StateAdapter (World : Type) : Type := mkStateAdapter {
  read : M World (option string);
  write : string -> M World unit
}.
Arguments read {World}.
Arguments write {World}.

Section WithPlatform.
Context {World : Type}.
Variable JSON_parse : string -> option CveQueueEntry.
Variable JSON_stringify : CveQueueEntry -> string.
Variable updateNpmManifest : string -> string -> string -> Thrown + string.
Variable scoreToString : Q -> string.
Variable Date_toISOString : string -> option string.
Variable nowISOString : M World string.
Variable parseNpm parsePip parseGo parseCargo : string -> list (string * string).
Variable fetchGraphql :
  string -> string -> string -> M World (@Detection.Response World).

Definition execute :=
  Action.execute updateNpmManifest scoreToString Date_toISOString
                 nowISOString.

(** The file operations of the State layer on the capability: each reads
    the file, computes as the function of the layer does, and [enqueue]
    and [update] write the file back ([now] is the time [update] reads). *)
Definition writeBack (sa : StateAdapter World) (state : State.Store)
  : M World unit :=
  match state with
  | Some content => write sa content
  | None => ret tt
  end.

Definition pendingOn (sa : StateAdapter World)
  : M World (list CveQueueEntry) :=
  (raw <- read sa ;; ret (State.pending JSON_parse raw))%effect.

Definition enqueueOn (sa : StateAdapter World) (batch : list CveQueueEntry)
  : M World State.EnqueueResult :=
  (raw <- read sa ;;
   writeBack sa (fst (State.enqueue JSON_parse JSON_stringify batch raw)) ;;;
   ret (snd (State.enqueue JSON_parse JSON_stringify batch raw)))%effect.

Definition updateOn (sa : StateAdapter World) (updates : list State.Update)
           (now : string) : M World State.UpdateResult :=
  (raw <- read sa ;;
   writeBack sa
     (fst (State.update JSON_parse JSON_stringify updates raw now)) ;;;
   ret (snd (State.update JSON_parse JSON_stringify updates raw now)))%effect.

(** The steps shared by the three [triage] commands; [serverFilter] says
    whether the results go through the filter of mcp/server.js. *)
Definition triageRun (serverFilter : bool) (policy : TriagePolicy)
           (dryRun : bool) (github : GitHubAdapter World)
           (sa : StateAdapter World) (now : string)
  : M World Summary :=
  (pendingEntries <- pendingOn sa ;;
   let plans := Decision.triage pendingEntries policy in
   rs <- execute plans github dryRun ;;
   (if negb dryRun then
      let reported :=
        if serverFilter then filter (keptByServer plans) rs else rs in
      (updateOn sa (List.map toUpdate reported) now ;;; ret tt)
    else ret tt) ;;;
   ret (summarise dryRun rs))%effect.

(** [cve_scan] and [scan]: the findings are enqueued unless it is a dry run
    or there is none. *)
Definition scanRun (repos : list string) (threshold : Severity)
           (dryRun : bool) (github : GitHubAdapter World)
           (sa : StateAdapter World)
  : M World (Detection.DetectionResult * option State.EnqueueResult) :=
  (found <- Detection.detect parseNpm parsePip parseGo parseCargo
              fetchGraphql nowISOString repos threshold github ;;
   if negb dryRun
      && (0 <? Z.of_nat (List.length (Detection.findings found)))
   then
     (counts <- enqueueOn sa (Detection.findings found) ;;
      ret (found, Some counts))
   else ret (found, None))%effect.

End WithPlatform.

End Pipeline.

(** ** Intelligence layer (layers/intelligence.ts) *)

Module Intelligence.
Import Effect.
Local Open Scope string_scope.

(** [cvssData] of a metric: [baseScore] and [baseSeverity]. *)
Record Cvss : Type := mkCvss { baseScore : Q; baseSeverity : string }.

Record Described : Type := mkDescribed { lang : string; value : string }.

(** The [cve] object of an NVD answer, as far as [enrich] reads it:
    [cvssV31] is [metrics?.cvssMetricV31?.[0]?.cvssData], [cvssV30]
    likewise, [cvssV2] is the score and the severity of
    [metrics?.cvssMetricV2?.[0]], and [weakness] is
    [weaknesses?.[0]?.description]. *)
Record NvdItem : Type := mkItem {
  i_id : string;
  vulnStatus : string;
  cvssV31 : option Cvss;
  cvssV30 : option Cvss;
  cvssV2 : option Cvss;
  descriptions : list Described;
  i_published : string;
  referenceUrls : list string;
  weakness : option (list Described)
}.

(** [CveEnrichment & { error?: string }]: [e_description] and [e_error] of
    the record of a failure are the message of what was thrown, which a
    thrown value may lack. *)
Record CveEnrichment : Type := mkEnrichment {
  e_id : string;
  e_status : string;
  e_severity : string;
  e_score : option Q;
  e_description : option string;
  e_published : string;
  e_references : list string;
  e_cwe : option string;
  e_error : option string
}.

Definition ORDER : list string :=
  ["CRITICAL"; "HIGH"; "MEDIUM"; "LOW"; "NONE"; "UNKNOWN"].

(** [arr.indexOf(x)] on strings, counting from [i]. *)
Fixpoint indexOfFrom (i : Z) (l : list string) (x : string) : Z :=
  match l with
  | [] => -1
  | y :: l' => if String.eqb y x then i else indexOfFrom (i + 1) l' x
  end.

Definition indexOf (l : list string) (x : string) : Z := indexOfFrom 0 l x.

(** An element of [cveIds], which the callers pass on unchecked: a string,
    or a value that is not a string, on which the call [id.toUpperCase()]
    throws [raised] (a [TypeError]). *)
Inductive IdValue : Type :=
| idString (s : string)
| notString (raised : Thrown).

(** [cveIds.indexOf(id)] for a string [id]: strict equality, so only a
    string element can be found. *)
Fixpoint indexOfId (i : Z) (l : list IdValue) (x : string) : Z :=
  match l with
  | [] => -1
  | idString y :: l' =>
      if String.eqb y x then i else indexOfId (i + 1) l' x
  | notString _ :: l' => indexOfId (i + 1) l' x
  end.

Definition extractCvss (item : NvdItem) : option Q * string :=
  match cvssV31 item with
  | Some c => (Some (baseScore c), baseSeverity c)
  | None =>
      match cvssV30 item with
      | Some c => (Some (baseScore c), baseSeverity c)
      | None =>
          match cvssV2 item with
          | Some c => (Some (baseScore c), baseSeverity c)
          | None => (None, "UNKNOWN")
          end
      end
  end.

(** [ds.find((d) => d.lang === "en")?.value]. *)
Definition englishValue (ds : list Described) : option string :=
  option_map value (find (fun d => String.eqb (lang d) "en") ds).

(** The comparator of [enrichBatch]:
    [ORDER.indexOf(a.severity) - ORDER.indexOf(b.severity) ||
     (b.score ?? 0) - (a.score ?? 0)]. *)
Definition compareEnrichments (a b : CveEnrichment) : Q :=
  let d := (indexOf ORDER (e_severity a) - indexOf ORDER (e_severity b))%Z in
  if (d =? 0)%Z
  then (Js.nullish (e_score b) 0 - Js.nullish (e_score a) 0)%Q
  else inject_Z d.

(** The record [enrichBatch] pushes for an id whose enrichment threw:
    [upper] is [id.toUpperCase()] and [message] is [e.message]. *)
Definition failed (upper : string) (message : option string)
  : CveEnrichment :=
  mkEnrichment upper "ERROR" "UNKNOWN" None message "" [] None message.

Section WithPlatform.
Context {World : Type}.

(** What the layer takes from the platform:
    - the request to the NVD for a CVE id (the URL is built with
      [encodeURIComponent]), with the API key in a header when one is
      given: [fetch] may throw, the response has a status and says whether
      it is [ok], and reading its body down to
      [data.vulnerabilities?.[0]?.cve] may throw;
    - the timer: [await new Promise((r) => setTimeout(r, delay))] takes
      time and cannot throw;
    - [String.prototype.toUpperCase], which is Unicode-aware. *)
Record Response : Type := mkResponse {
  status : Z;
  ok : bool;
  json : M World (option NvdItem)
}.

Variable fetchNvd : string -> option string -> M World Response.
Variable pause : Z -> World -> World.
Variable toUpperCase : string -> string.

Definition enrich (cveId : string) (nvdApiKey : option string)
  : M World CveEnrichment :=
  let key :=
    match nvdApiKey with
    | Some k => if Js.truthy k then Some k else None
    | None => None
    end in
  (res <- fetchNvd cveId key ;;
   if (status res =? 404)%Z
   then throw (mkThrown (Some ("CVE " ++ cveId ++ " not found in NVD")))
   else if (status res =? 403)%Z
   then throw (mkThrown
                 (Some "NVD rate limited — provide an API key or wait"))
   else if negb (ok res)
   then throw (mkThrown
                 (Some ("NVD API error: " ++ Js.numberToString (status res))))
   else
     (data <- json res ;;
      match data with
      | None => throw (mkThrown (Some ("No data returned for " ++ cveId)))
      | Some item =>
          let '(score, severity) := extractCvss item in
          ret (mkEnrichment (i_id item) (vulnStatus item) severity score
                 (Some (Js.nullish (englishValue (descriptions item))
                                   "No description available."))
                 (i_published item)
                 (firstn 5 (referenceUrls item))
                 (match weakness item with
                  | Some ds => englishValue ds
                  | None => None
                  end)
                 None)
      end))%effect.

(** The [catch] block of [enrichBatch] for a string id: the record is
    built from [id.toUpperCase()] and [e.message]; reading [e.message]
    throws when what was caught is [undefined] or [null]. *)
Definition catchBlock (upper : string) (err : Thrown)
  : M World CveEnrichment :=
  (message <- lift (readMessage err) ;;
   ret (failed upper message))%effect.

(** The body of [for (const id of cveIds)]. For a string id the
    enrichment or the record of its failure is pushed, then the pause
    unless the first occurrence of the id is the last position. For a
    value that is not a string, [id.toUpperCase()] throws in the [try]
    block and again in the [catch] block, so the batch throws. *)
Definition batchStep (cveIds : list IdValue) (nvdApiKey : option string)
           (delay : Z) (results : list CveEnrichment) (id : IdValue)
  : M World (list CveEnrichment) :=
  match id with
  | notString raised => throw raised
  | idString s =>
      (r <- tryCatch (enrich (toUpperCase s) nvdApiKey)
              (catchBlock (toUpperCase s)) ;;
       if (indexOfId 0 cveIds s <? Z.of_nat (List.length cveIds) - 1)%Z
       then (fun w => (inr (results ++ [r])%list, pause delay w))
       else ret (results ++ [r])%list)%effect
  end.

Definition enrichBatch (cveIds : list IdValue) (nvdApiKey : option string)
  : M World (list CveEnrichment) :=
  let delay :=
    match nvdApiKey with
    | Some k => if Js.truthy k then 100 else 700
    | None => 700
    end in
  (results <- forEach cveIds (batchStep cveIds nvdApiKey delay) [] ;;
   ret (Js.sort compareEnrichments results))%effect.

End WithPlatform.

End Intelligence.

(** ** Further notions, for the properties of the code beyond the claims *)

Module Notions.
Import Types Spec.

(** The five names [normalizeSeverity] recognises. *)
Definition recognised : list string :=
  ["CRITICAL"; "HIGH"; "MEDIUM"; "LOW"; "NONE"]%string.

(** The patch requirement of a policy is met by an entry. *)
Definition patchOk (policy : TriagePolicy) (e : CveQueueEntry) : Prop :=
  requirePatchedVersion policy = false \/ hasKnownPatch e.

(** A plan is justified by the policy: what each action and each skip
    reason says of the entry. *)
Definition justified (policy : TriagePolicy) (p : Decision.TriagePlan) : Prop :=
  let e := Decision.entry p in
  let meets := meetsThreshold (severity e) (autoPrThreshold policy) in
  match Decision.action p with
  | Decision.open_pr =>
      severity e = CRITICAL /\ meets = true /\ patchOk policy e
  | Decision.open_draft =>
      severity e <> CRITICAL /\ meets = true /\ patchOk policy e
  | Decision.skip =>
      (Decision.reason p = Decision.capReason policy /\ meets = true)
      \/ (Decision.reason p = Decision.noPatchReason
          /\ requirePatchedVersion policy = true /\ ~ hasKnownPatch e)
      \/ (Decision.reason p = Decision.belowReason e policy
          /\ meets = false /\ patchOk policy e)
  end.

(** Two entries tie under the comparator: same severity, same score. *)
Definition tie (a b : CveQueueEntry) : bool :=
  Qle_bool (Decision.compareEntries a b) 0
  && Qle_bool (Decision.compareEntries b a) 0.

(** A policy with another draft threshold. *)
Definition withDraftThreshold (policy : TriagePolicy) (d : Severity)
  : TriagePolicy :=
  {| autoPrThreshold := autoPrThreshold policy;
     draftThreshold := d;
     maxPrsPerRun := maxPrsPerRun policy;
     requirePatchedVersion := requirePatchedVersion policy |}.

(** The entries a text holds, in line order: one for each line that, once
    trimmed, is not empty and parses. *)
Definition readLine (parse : string -> option CveQueueEntry) (line : string)
  : list CveQueueEntry :=
  if negb (Js.truthy (Js.trim line)) then []
  else match parse (Js.trim line) with
       | Some e => [e]
       | None => []
       end.

Definition readable (parse : string -> option CveQueueEntry) (raw : string)
  : list CveQueueEntry :=
  flat_map (readLine parse) (Js.split Js.LF raw).

(** The entry a run of readable lines leaves under key [k]: the last one
    that carries the key. *)
Definition lastWith (k : string) (es : list CveQueueEntry)
  : option CveQueueEntry :=
  find (keyIs k) (rev es).

(** The length of [l.slice(0, limit)] for a list of [n] elements. *)
Definition sliceLength (limit n : Z) : Z :=
  if 0 <=? limit then Z.min limit n else Z.max 0 (n + limit).

(** Counting by status, as [compact] and [stats] do it: one more for the
    status in the record of counts. *)
Definition bump (c : State.StatusCounts) (s : Status) : State.StatusCounts :=
  State.setCount s (Js.nullish (State.countOf s c) 0 + 1) c.

Definition tallyOf (ss : list Status) (c : State.StatusCounts)
  : State.StatusCounts :=
  fold_left bump ss c.

Definition occurrences (s : Status) (ss : list Status) : Z :=
  Z.of_nat (List.length (filter (Status_eqb s) ss)).

(** A count as a record of counts shows it: no member for zero. *)
Definition reported (n : Z) : option Z :=
  if n =? 0 then None else Some n.

Definition sumCounts {K : Type} (c : list (K * Z)) : Z :=
  fold_right Z.add 0 (List.map snd c).

(** The entries of a mapping that compaction at [cutoff] takes away, and
    their statuses. *)
Definition gone (getTime : string -> option Z) (cutoff : Z)
           (q : State.Queue) : State.Queue :=
  filter (fun kv => negb (kept getTime cutoff kv)) q.

Definition goneStatuses (getTime : string -> option Z) (cutoff : Z)
           (q : State.Queue) : list Status :=
  List.map (fun kv => status (snd kv)) (gone getTime cutoff q).

Definition cutoffOf (retentionDays : option Z) (nowMs : Z) : Z :=
  nowMs - Js.nullish retentionDays 30 * 86400000.

(** The pending entries of a mapping, and counts over a list of entries. *)
Definition pendingOf (q : State.Queue) : list CveQueueEntry :=
  filter Decision.isPending (Js.values q).

Definition withSeverity (s : Severity) (l : list CveQueueEntry) : Z :=
  Z.of_nat (List.length (filter (fun e => Severity_eqb (severity e) s) l)).

Definition inRepo (r : string) (l : list CveQueueEntry) : Z :=
  Z.of_nat (List.length (filter (fun e => String.eqb (repo e) r) l)).

(** What [stats] shows of an entry as the oldest pending one. *)
Definition shownAsOldest (e : CveQueueEntry) : Stats.OldestPending :=
  Stats.mkOldest (id e) (repo e) (severity e) (detectedAt e).

(** [e] was detected at [t], and no entry of [l] earlier. *)
Definition earliest (getTime : string -> option Z) (e : CveQueueEntry)
           (l : list CveQueueEntry) : Prop :=
  exists t, getTime (detectedAt e) = Some t
            /\ forall e', In e' l ->
                 exists t', getTime (detectedAt e') = Some t' /\ t <= t'.

(** The result of a plan that is not acted on. *)
Definition quietResult (p : Decision.TriagePlan) : PrResult :=
  match Decision.action p with
  | Decision.skip => Action.skippedResult p
  | _ => Action.dryRunResult p
  end.

(** The pull request [execute] asks for: title, draft flag and labels from
    the plan, with the body built, from the branch made to the base
    branch. *)
Definition prOptsFor (p : Decision.TriagePlan) (prBody branch base : string)
  : GitHub.PrOpts :=
  let e := Decision.entry p in
  let isDraft :=
    match Decision.action p with
    | Decision.open_draft => true
    | _ => false
    end in
  GitHub.mkPrOpts
    ("fix(security): " ++ id e ++ " – "
       ++ Severity_to_string (severity e) ++ " in " ++ affectedPackage e)%string
    prBody branch base isDraft
    (Action.prLabels (Severity_to_string (severity e)) isDraft).

(** What a result says of its plan. A skip is reported as skipped with the
    reason of the plan. An acting plan is reported, in a dry run, as a pull
    request without a number; otherwise as a pull request with the number
    and URL that [createPullRequest] returned for the request of the plan,
    or as an error with the message of a value that [sequence], the
    branch/commit/pull-request sequence, threw for the plan. *)
Definition reportsPlan {World : Type} (github : GitHub.GitHubAdapter World)
           (sequence : Decision.TriagePlan -> Effect.M World PrResult)
           (dryRun : bool) (p : Decision.TriagePlan) (r : PrResult) : Prop :=
  match Decision.action p with
  | Decision.skip => r = Action.skippedResult p
  | _ =>
      if dryRun then r = Action.dryRunResult p
      else (exists prBody branch base pr w0 w1,
               GitHub.createPullRequest github
                 (fst (GitHub.splitRepo (repo (Decision.entry p))))
                 (snd (GitHub.splitRepo (repo (Decision.entry p))))
                 (prOptsFor p prBody branch base) w0
               = (inr pr, w1)
               /\ r = mkResult (id (Decision.entry p))
                               (repo (Decision.entry p)) R_pr_opened
                               (Some (GitHub.number pr))
                               (Some (GitHub.html_url pr)) None)
           \/ (exists message w0 w1,
                  sequence p w0 = (inl (Effect.mkThrown message), w1)
                  /\ r = Action.errorResult p message)
  end.

(** The capability with another [createPullRequest]. *)
Definition withCreatePullRequest {World : Type}
           (g : GitHub.GitHubAdapter World)
           (cpr : string -> option string -> GitHub.PrOpts
                  -> Effect.M World GitHub.PrInfo)
  : GitHub.GitHubAdapter World :=
  GitHub.mkAdapter World (GitHub.token g) (GitHub.getFileContent g)
    (GitHub.createBranch g) (GitHub.commitFiles g) cpr
    (GitHub.getDefaultBranch g).

(** The requirement line [updatePipManifest] writes. *)
Definition pinned (pkg version : string) : string :=
  (pkg ++ ">=" ++ version)%string.

(** The ecosystems whose manifests [parseManifest] reads. *)
Definition parsedEcosystems : list string :=
  ["npm"; "pip"; "go"; "cargo"]%string.

(** A finding as [detect] makes it: pending and untouched, in one of the
    repositories scanned, within the severity threshold, from an advisory of
    the database, for a named package of a manifest that is read. *)
Definition freshFinding (threshold : Severity) (repos : list string)
           (f : CveQueueEntry) : Prop :=
  status f = S_pending
  /\ prNumber f = None /\ prUrl f = None
  /\ processedAt f = None /\ skipReason f = None
  /\ In (repo f) repos
  /\ meetsThreshold (severity f) threshold = true
  /\ ghsaId f <> None
  /\ In (ecosystem f) parsedEcosystems
  /\ affectedPackage f <> EmptyString.

(** The invariant of the two locals of [detect]. *)
Definition scanInvariant (threshold : Severity) (repos : list string)
           (acc : Detection.Acc) : Prop :=
  Detection.seen acc = List.map State.entryKey (Detection.allFindings acc)
  /\ NoDup (Detection.seen acc)
  /\ Forall (freshFinding threshold repos) (Detection.allFindings acc).

(** The entries of a batch whose key the mapping has, and has not. *)
Definition known (q : State.Queue) (batch : list CveQueueEntry) : Z :=
  Z.of_nat (List.length
              (filter (fun e => Js.has (State.entryKey e) q) batch)).

Definition unknown (q : State.Queue) (batch : list CveQueueEntry) : Z :=
  Z.of_nat (List.length
              (filter (fun e => negb (Js.has (State.entryKey e) q)) batch)).

(** What a run of [triage] that is not a dry run leaves in the store for
    the entry of a plan, given the result of the plan: the same finding,
    with the status of the result, which is never [pending], and the time
    of the run; a skip is stored as [skipped] with the reason of the plan. *)
Definition settledBy (now : string) (p : Decision.TriagePlan) (r : PrResult)
           (e' : CveQueueEntry) : Prop :=
  sameFinding (Decision.entry p) e'
  /\ status e' = Pipeline.statusOf (r_action r)
  /\ status e' <> S_pending
  /\ processedAt e' = Some now
  /\ (Decision.action p = Decision.skip ->
      status e' = S_skipped /\ skipReason e' = Some (Decision.reason p)).

(** [a] does not rank after [b] in a batch: its severity comes earlier in
    [ORDER] (a severity that is not in [ORDER] comes before all), or at the
    same place with a score at least as high. *)
Definition ranked (a b : Intelligence.CveEnrichment) : Prop :=
  Intelligence.indexOf Intelligence.ORDER (Intelligence.e_severity a)
  < Intelligence.indexOf Intelligence.ORDER (Intelligence.e_severity b)
  \/ (Intelligence.indexOf Intelligence.ORDER (Intelligence.e_severity a)
      = Intelligence.indexOf Intelligence.ORDER (Intelligence.e_severity b)
      /\ (Js.nullish (Intelligence.e_score b) 0
          <= Js.nullish (Intelligence.e_score a) 0)%Q).


(** A text of ASCII characters: on such a text [Js.toUpperCase],
    [Js.toLowerCase] and [Js.trimStart] are the functions of the platform,
    which treat other characters by the rules of Unicode. *)
Definition isAscii (s : string) : bool :=
  forallb (fun c => (nat_of_ascii c <? 128)%nat) (list_ascii_of_string s).

End Notions.

(** ** A world with the queue file, for the scenarios of the commands *)

Module StoreExamples.
Import Types Examples.
Local Open Scope string_scope.

(** The number of remote calls made so far, and the text of the queue
    file, [None] when there is no file. *)
Definition Disk : Type := (Z * option string)%type.

Definition onCalls {A : Type} (m : Effect.M World A) : Effect.M Disk A :=
  fun d => (fst (m (fst d)), (snd (m (fst d)), snd d)).

Definition onDisk (g : GitHub.GitHubAdapter World)
  : GitHub.GitHubAdapter Disk :=
  {| GitHub.token := GitHub.token g;
     GitHub.getFileContent := fun owner repo path =>
       onCalls (GitHub.getFileContent g owner repo path);
     GitHub.createBranch := fun owner repo branch from =>
       onCalls (GitHub.createBranch g owner repo branch from);
     GitHub.commitFiles := fun owner repo opts =>
       onCalls (GitHub.commitFiles g owner repo opts);
     GitHub.createPullRequest := fun owner repo opts =>
       onCalls (GitHub.createPullRequest g owner repo opts);
     GitHub.getDefaultBranch := fun owner repo =>
       onCalls (GitHub.getDefaultBranch g owner repo) |}.

Definition diskGithub : GitHub.GitHubAdapter Disk := onDisk demoGithub.

Definition diskNow : Effect.M Disk string := onCalls demoNow.

Definition diskFetch (eco pkg tok : string)
  : Effect.M Disk (@Detection.Response Disk) :=
  fun d =>
    match demoFetch false eco pkg tok (fst d) with
    | (inl err, n) => (inl err, (n, snd d))
    | (inr res, n) =>
        (inr (Detection.mkResponse (Detection.ok res)
                                   (onCalls (Detection.json res))),
         (n, snd d))
    end.

(** The store on the file: a read and a write are one remote call each. *)
Definition diskStore : Pipeline.StateAdapter Disk :=
  {| Pipeline.read := fun d => (inr (snd d), (fst d + 1, snd d));
     Pipeline.write := fun content d => (inr tt, (fst d + 1, Some content)) |}.

(** The store when the host refuses the write. *)
Definition refusingStore : Pipeline.StateAdapter Disk :=
  {| Pipeline.read := Pipeline.read diskStore;
     Pipeline.write := fun content d =>
       (inl (Effect.mkThrown (Some "Conflict")), (fst d + 1, snd d)) |}.

(** A queue file of four entries and a line that is not JSON: one entry
    with its pull request opened, and three pending ones, of which one can
    be acted on, one has no patched version and one is in a repository
    that cannot be reached. *)
Definition triageStore : State.Store :=
  Some (Js.join Js.LFs [Demo.JSON_stringify openedLongAgo;
                        Demo.JSON_stringify reachable;
                        "this line is not JSON";
                        Demo.JSON_stringify newFinding;
                        Demo.JSON_stringify unreachable]).

Definition runTime : string := "2024-06-01T00:00:00.000Z".

(** The results [execute] gives for the plans of that file, the entries
    taken by severity and score. *)
Definition triageResults : list PrResult :=
  [mkResult "CVE-2024-20" "down/x" R_error None None (Some "Not Found");
   mkResult "CVE-2024-21" "up/y" R_pr_opened (Some 5)
            (Some "https://github.com/up/pull") None;
   mkResult "CVE-2024-12" "a/b" R_skipped None None
            (Some "No patched version available yet")].

(** A queue file that has one of the two findings of the scan of the
    scenarios. *)
Definition knownFinding : CveQueueEntry :=
  {| id := "CVE-2024-30"; ghsaId := Some "GHSA-rrrr-rrrr-rrrr";
     repo := "up/a"; ecosystem := "pip"; affectedPackage := "requests";
     affectedVersion := "1.9"; patchedVersion := "2.31.0"; severity := HIGH;
     cvssScore := Some (80 # 10); summary := "Leak of credentials";
     nvdUrl := "https://nvd.nist.gov/vuln/detail/CVE-2024-30";
     detectedAt := "2024-05-20T00:00:00.000Z"; status := S_pr_opened;
     prNumber := Some 7; prUrl := Some "https://github.com/up/a/pull/7";
     processedAt := Some "2024-05-21T00:00:00.000Z"; skipReason := None |}.

Definition scanStore : State.Store :=
  Some (Js.join Js.LFs [Demo.JSON_stringify openedLongAgo;
                        Demo.JSON_stringify knownFinding]).

(** The NVD of the scenarios: it knows [CVE-2024-1], answers 404 for
    [CVE-2024-2], and the request for any other id rejects with no
    value. *)
Definition nvdItem : Intelligence.NvdItem :=
  Intelligence.mkItem "CVE-2024-1" "Analyzed"
    (Some (Intelligence.mkCvss (75 # 10) "HIGH")) None None
    [Intelligence.mkDescribed "en" "Prototype pollution"]
    "2024-01-01T00:00:00.000" [] None.

Definition demoNvd (cveId : string) (key : option string)
  : Effect.M World (@Intelligence.Response World) :=
  if String.eqb cveId "CVE-2024-1"
  then tick (Intelligence.mkResponse 200 true (Effect.ret (Some nvdItem)))
  else if String.eqb cveId "CVE-2024-2"
  then tick (Intelligence.mkResponse 404 false (Effect.ret None))
  else reject.

Definition noPause (delay : Z) (w : World) : World := w.

Definition notAFunction : Effect.Thrown :=
  Effect.mkThrown (Some "id.toUpperCase is not a function").

End StoreExamples.

(* ====================================================================== *)
(** * Theorems                                                             *)
(* ====================================================================== *)

(** ** Severity model *)

Section SeverityFacts.
Import Types Spec.

Lemma rank_range : forall s, 0 <= rank s <= 5.
Proof. destruct s; vm_compute; split; discriminate. Qed.

Lemma rank_inj : forall s t, rank s = rank t -> s = t.
Proof. destruct s, t; vm_compute; intro H; try reflexivity; discriminate H. Qed.

Lemma justAbove_rank : forall s t, justAbove s t -> rank t = rank s + 1.
Proof. intros s t H; destruct H; reflexivity. Qed.

Lemma atLeastAsSevere_rank : forall s t, atLeastAsSevere s t -> rank s <= rank t.
Proof.
  intros s t H; induction H as [s | s m t Hsm _ IH].
  - lia.
  - apply justAbove_rank in Hsm. lia.
Qed.

Lemma justAbove_next :
  forall s, rank s < 5 -> exists m, justAbove s m.
Proof.
  destruct s; intro H;
    try (eexists; constructor; fail).
  vm_compute in H. discriminate H.
Qed.

Lemma rank_atLeastAsSevere :
  forall n s t, rank t - rank s = Z.of_nat n -> atLeastAsSevere s t.
Proof.
  induction n as [| n IH]; intros s t H.
  - assert (s = t) by (apply rank_inj; lia). subst. constructor.
  - pose proof (rank_range t) as Ht.
    destruct (justAbove_next s) as [m Hm]; [lia |].
    apply severe_above with m; [exact Hm |].
    apply IH. apply justAbove_rank in Hm. lia.
Qed.

Lemma atLeastAsSevere_iff_rank :
  forall s t, atLeastAsSevere s t <-> rank s <= rank t.
Proof.
  intros s t; split.
  - apply atLeastAsSevere_rank.
  - intro H. apply rank_atLeastAsSevere with (Z.to_nat (rank t - rank s)). lia.
Qed.

Lemma moreSevere_iff_rank : forall s t, moreSevere s t <-> rank s < rank t.
Proof.
  intros s t; unfold moreSevere; rewrite atLeastAsSevere_iff_rank; split.
  - intros [Hle Hne].
    assert (rank s <> rank t) by (intro E; apply Hne, rank_inj, E). lia.
  - intro H; split; [lia | intro E; subst; lia].
Qed.

Lemma meetsThreshold_atLeastAsSevere :
  forall s t, meetsThreshold s t = true <-> atLeastAsSevere s t.
Proof.
  intros s t. rewrite atLeastAsSevere_iff_rank.
  unfold meetsThreshold; fold (rank s); fold (rank t). apply Z.leb_le.
Qed.

(** C8. For every pair of severities of the six-value scale,
    [meetsThreshold s t] is true when [s] is at least as severe as [t] under
    the fixed order CRITICAL > HIGH > MEDIUM > LOW > NONE > UNKNOWN, and
    false otherwise. *)
Theorem meetsThreshold_monotone :
  forall s t : Severity,
    (meetsThreshold s t = true <-> atLeastAsSevere s t)
    /\ (meetsThreshold s t = false <-> ~ atLeastAsSevere s t).
Proof.
  intros s t. split.
  - apply meetsThreshold_atLeastAsSevere.
  - rewrite <- meetsThreshold_atLeastAsSevere.
    destruct (meetsThreshold s t); split; intro H;
      try reflexivity; try discriminate.
    + exfalso. apply H. reflexivity.
Qed.

End SeverityFacts.

(** ** The stable sort *)

Section SortFacts.
Context {A : Type} (cmp : A -> A -> Q).

Local Abbreviation notAfter := (Spec.notAfter cmp).

Hypothesis notAfter_total : forall a b, notAfter a b \/ notAfter b a.
Hypothesis notAfter_trans :
  forall a b c, notAfter a b -> notAfter b c -> notAfter a c.

Lemma insertSorted_perm :
  forall x l, Permutation (Js.insertSorted cmp x l) (x :: l).
Proof.
  intros x l; induction l as [| y l IH]; simpl.
  - apply Permutation_refl.
  - destruct (Qle_bool (cmp x y) 0).
    + apply Permutation_refl.
    + apply perm_trans with (y :: x :: l).
      * apply perm_skip, IH.
      * apply perm_swap.
Qed.

Lemma sort_perm : forall l, Permutation (Js.sort cmp l) l.
Proof.
  induction l as [| x l IH]; simpl.
  - apply perm_nil.
  - apply perm_trans with (x :: Js.sort cmp l).
    + apply insertSorted_perm.
    + apply perm_skip, IH.
Qed.

Lemma insertSorted_sorted :
  forall x l,
    StronglySorted notAfter l ->
    StronglySorted notAfter (Js.insertSorted cmp x l).
Proof.
  intros x l H; induction H as [| y l Hs IH Hall]; simpl.
  - constructor; constructor.
  - destruct (Qle_bool (cmp x y) 0) eqn:E.
    + constructor.
      * constructor; assumption.
      * constructor; [exact E |].
        apply Forall_impl with (P := notAfter y); [| exact Hall].
        intros z Hz. apply notAfter_trans with y; assumption.
    + constructor; [exact IH |].
      assert (Hyx : notAfter y x).
      { destruct (notAfter_total x y) as [Hxy | Hyx]; [| exact Hyx].
        unfold Spec.notAfter in Hxy. congruence. }
      apply Forall_forall. intros z Hz.
      apply (Permutation_in _ (insertSorted_perm x l)) in Hz.
      destruct Hz as [<- | Hz]; [exact Hyx |].
      rewrite Forall_forall in Hall. apply Hall, Hz.
Qed.

Lemma sort_sorted : forall l, StronglySorted notAfter (Js.sort cmp l).
Proof.
  induction l as [| x l IH]; simpl.
  - constructor.
  - apply insertSorted_sorted, IH.
Qed.

End SortFacts.

Lemma StronglySorted_app_cross :
  forall {A : Type} (R : A -> A -> Prop) (l1 l2 : list A),
    StronglySorted R (l1 ++ l2) ->
    forall a b, In a l1 -> In b l2 -> R a b.
Proof.
  intros A R l1; induction l1 as [| x l1 IH]; intros l2 H a b Ha Hb.
  - destruct Ha.
  - simpl in H. apply StronglySorted_inv in H. destruct H as [Hs Hall].
    destruct Ha as [<- | Ha].
    + rewrite Forall_forall in Hall. apply Hall, in_or_app. right; exact Hb.
    + apply IH with l2; assumption.
Qed.

(** ** Decision layer *)

Section DecisionFacts.
Import Types Spec Decision.

Lemma compareEntries_notAfter :
  forall a b,
    notAfter compareEntries a b <->
    rank (severity a) < rank (severity b)
    \/ (rank (severity a) = rank (severity b) /\ (scoreOf b <= scoreOf a)%Q).
Proof.
  intros a b. unfold notAfter, compareEntries.
  fold (rank (severity a)); fold (rank (severity b)).
  rewrite Qle_bool_iff.
  change (Js.nullish (cvssScore b) 0%Q) with (scoreOf b).
  change (Js.nullish (cvssScore a) 0%Q) with (scoreOf a).
  destruct (Z.eqb_spec (rank (severity a) - rank (severity b)) 0) as [E | E].
  - split.
    + intro H. right. split; [lia |].
      apply Qle_minus_iff in H.
      setoid_replace (0 + - (scoreOf b - scoreOf a))%Q
        with (scoreOf a + - scoreOf b)%Q in H by ring.
      apply Qle_minus_iff. exact H.
    + intros [H | [_ H]]; [lia |].
      apply Qle_minus_iff.
      setoid_replace (0 + - (scoreOf b - scoreOf a))%Q
        with (scoreOf a + - scoreOf b)%Q by ring.
      apply (proj1 (Qle_minus_iff _ _)). exact H.
  - unfold Qle, inject_Z; simpl. split.
    + intro H. left. lia.
    + intros [H | [H _]]; lia.
Qed.

Lemma compareEntries_total :
  forall a b, notAfter compareEntries a b \/ notAfter compareEntries b a.
Proof.
  intros a b. rewrite !compareEntries_notAfter.
  destruct (Z.lt_trichotomy (rank (severity a)) (rank (severity b)))
    as [H | [H | H]].
  - left; left; exact H.
  - destruct (Qlt_le_dec (scoreOf a) (scoreOf b)) as [Hq | Hq].
    + right; right; split; [lia | apply Qlt_le_weak, Hq].
    + left; right; split; assumption.
  - right; left; lia.
Qed.

Lemma compareEntries_trans :
  forall a b c,
    notAfter compareEntries a b -> notAfter compareEntries b c ->
    notAfter compareEntries a c.
Proof.
  intros a b c. rewrite !compareEntries_notAfter.
  intros [H1 | [H1 Q1]] [H2 | [H2 Q2]].
  - left; lia.
  - left; lia.
  - left; lia.
  - right; split; [lia | apply Qle_trans with (scoreOf b); assumption].
Qed.

Lemma notAfter_atLeastAsUrgent :
  forall a b, notAfter compareEntries a b <-> atLeastAsUrgent a b.
Proof.
  intros a b. rewrite compareEntries_notAfter. unfold atLeastAsUrgent.
  rewrite moreSevere_iff_rank. split.
  - intros [H | [H Q]]; [left; exact H | right; split; [apply rank_inj, H | exact Q]].
  - intros [H | [H Q]]; [left; exact H | right; split; [rewrite H; reflexivity | exact Q]].
Qed.

Lemma triageLoop_acc :
  forall policy sorted plans prCount,
    triageLoop policy sorted plans prCount
    = plans ++ triageLoop policy sorted [] prCount.
Proof.
  intros policy sorted; induction sorted as [| e rest IH]; intros plans c.
  - simpl. rewrite app_nil_r. reflexivity.
  - simpl.
    repeat match goal with
           | |- context [if ?b then _ else _] => destruct b
           end;
      rewrite IH; rewrite (IH [_]); rewrite <- app_assoc; reflexivity.
Qed.

Lemma eligible_patch_check :
  forall policy e,
    eligible policy e ->
    requirePatchedVersion policy
    && (negb (Js.truthy (patchedVersion e))
        || String.eqb (patchedVersion e) "unknown") = false.
Proof.
  intros policy e (_ & _ & [H | [H1 H2]]).
  - rewrite H. reflexivity.
  - apply andb_false_iff. right. apply orb_false_iff. split.
    + unfold Js.truthy. rewrite negb_involutive.
      apply String.eqb_neq. exact H1.
    + apply String.eqb_neq. exact H2.
Qed.

Lemma triageLoop_eligible :
  forall policy sorted (j : nat),
    Forall (eligible policy) sorted ->
    Z.of_nat j <= maxPrsPerRun policy ->
    let room := Z.to_nat (maxPrsPerRun policy - Z.of_nat j) in
    triageLoop policy sorted [] (Z.of_nat j)
    = List.map actPlan (firstn room sorted)
      ++ List.map (capPlan policy) (skipn room sorted).
Proof.
  intros policy sorted; induction sorted as [| e rest IH]; intros j Hall Hj room.
  - simpl. rewrite firstn_nil, skipn_nil. reflexivity.
  - inversion Hall as [| ? ? He Hrest]; subst.
    pose proof (eligible_patch_check policy e He) as Hpatch.
    destruct He as (_ & Hmeets & _).
    simpl. rewrite Hmeets. simpl negb. rewrite Hpatch.
    rewrite andb_true_r.
    destruct (Z.geb_spec (Z.of_nat j) (maxPrsPerRun policy)) as [Hfull | Hroom].
    + assert (room = 0%nat) as -> by (unfold room; lia).
      rewrite triageLoop_acc. rewrite (IH j Hrest Hj).
      replace (Z.to_nat (maxPrsPerRun policy - Z.of_nat j)) with 0%nat by lia.
      reflexivity.
    + assert (room = S (Z.to_nat (maxPrsPerRun policy - Z.of_nat (S j))))
        as -> by (unfold room; lia).
      cbn [firstn skipn List.map].
      assert (Hj' : Z.of_nat (S j) <= maxPrsPerRun policy) by lia.
      specialize (IH (S j) Hrest Hj'). cbv zeta in IH.
      replace (Z.of_nat j + 1) with (Z.of_nat (S j)) by lia.
      unfold actPlan at 1.
      destruct (Severity_eqb (severity e) CRITICAL);
        rewrite triageLoop_acc; rewrite IH; reflexivity.
Qed.

End DecisionFacts.

Section CapFairness.
Import Types Spec Decision.

Lemma filter_all :
  forall {A : Type} (f : A -> bool) (l : list A),
    Forall (fun x => f x = true) l -> filter f l = l.
Proof.
  intros A f l H; induction H as [| x l Hx _ IH]; simpl.
  - reflexivity.
  - rewrite Hx, IH. reflexivity.
Qed.

Lemma filter_none :
  forall {A : Type} (f : A -> bool) (l : list A),
    Forall (fun x => f x = false) l -> filter f l = [].
Proof.
  intros A f l H; induction H as [| x l Hx _ IH]; simpl.
  - reflexivity.
  - rewrite Hx, IH. reflexivity.
Qed.

Lemma actPlan_entry : forall e, entry (actPlan e) = e.
Proof. intro e; unfold actPlan; destruct (Severity_eqb _ _); reflexivity. Qed.

Lemma actPlan_acting : forall e, isActing (actPlan e) /\ actingb (actPlan e) = true.
Proof.
  intro e; unfold actPlan, isActing, actingb.
  destruct (Severity_eqb _ _); simpl; auto.
Qed.

Lemma actPlan_not_cap : forall policy e, capSkipb policy (actPlan e) = false.
Proof.
  intros policy e; unfold actPlan, capSkipb.
  destruct (Severity_eqb _ _); reflexivity.
Qed.

Lemma capPlan_cap :
  forall policy e,
    isCapSkip policy (capPlan policy e)
    /\ capSkipb policy (capPlan policy e) = true
    /\ actingb (capPlan policy e) = false.
Proof.
  intros policy e; unfold capPlan, isCapSkip, capSkipb, actingb; simpl.
  rewrite String.eqb_refl. auto.
Qed.

Lemma triage_eligible_shape :
  forall entries policy (k : nat),
    Forall (eligible policy) entries ->
    maxPrsPerRun policy = Z.of_nat k ->
    let sorted := Js.sort compareEntries entries in
    triage entries policy
    = List.map actPlan (firstn k sorted)
      ++ List.map (capPlan policy) (skipn k sorted).
Proof.
  intros entries policy k Hall Hk sorted.
  unfold triage.
  rewrite filter_all.
  2:{ apply Forall_impl with (P := eligible policy); [| exact Hall].
      intros e (Hs & _). unfold isPending. rewrite Hs. reflexivity. }
  fold sorted.
  assert (Hsorted : Forall (eligible policy) sorted).
  { apply Forall_forall. intros e He.
    apply (Permutation_in _ (sort_perm compareEntries entries)) in He.
    rewrite Forall_forall in Hall. apply Hall, He. }
  pose proof (triageLoop_eligible policy sorted 0 Hsorted) as H.
  cbv zeta in H. change (Z.of_nat 0) with 0 in H.
  rewrite H by lia.
  replace (Z.to_nat (maxPrsPerRun policy - 0)) with k by lia.
  reflexivity.
Qed.

(** C1. Cap fairness. For N pending entries that all meet the
    auto-remediation threshold and all have a known patched version (or
    under a policy that does not require one), and [maxPrsPerRun = k < N]:
    [triage] plans every entry once; exactly k plans act ([open_pr] or
    [open_draft]) and exactly N-k are skips with the cap reason; and the
    acting plans are for the k most severe entries, ties broken by the
    higher score: no capped entry is more urgent than an acting one. *)
Theorem triage_cap_fairness :
  forall (entries : list CveQueueEntry) (policy : TriagePolicy) (k : nat),
    Forall (fun e =>
              status e = S_pending
              /\ meetsThreshold (severity e) (autoPrThreshold policy) = true
              /\ (requirePatchedVersion policy = false \/ hasKnownPatch e))
           entries ->
    maxPrsPerRun policy = Z.of_nat k ->
    (k < List.length entries)%nat ->
    let plans := triage entries policy in
    let acting := firstn k plans in
    let capped := skipn k plans in
    Permutation (List.map entry plans) entries
    /\ List.length (filter actingb plans) = k
    /\ List.length (filter (capSkipb policy) plans)
       = (List.length entries - k)%nat
    /\ List.length acting = k
    /\ List.length capped = (List.length entries - k)%nat
    /\ Forall isActing acting
    /\ Forall (isCapSkip policy) capped
    /\ (forall a b,
          In a acting -> In b capped -> atLeastAsUrgent (entry a) (entry b)).
Proof.
  intros entries policy k Hall Hk Hlt plans acting capped.
  pose proof (triage_eligible_shape entries policy k Hall Hk) as Hshape.
  cbv zeta in Hshape. fold plans in Hshape.
  set (sorted := Js.sort compareEntries entries) in *.
  assert (Hperm : Permutation sorted entries) by apply sort_perm.
  assert (Hlen : List.length sorted = List.length entries)
    by (apply Permutation_length, Hperm).
  assert (Hfirst : List.length (firstn k sorted) = k)
    by (rewrite length_firstn; lia).
  assert (Hacting : acting = List.map actPlan (firstn k sorted)).
  { unfold acting. rewrite Hshape.
    rewrite firstn_app, length_map, Hfirst, Nat.sub_diag. simpl.
    rewrite app_nil_r. apply firstn_all2. rewrite length_map. lia. }
  assert (Hcapped : capped = List.map (capPlan policy) (skipn k sorted)).
  { unfold capped. rewrite Hshape.
    rewrite skipn_app, length_map, Hfirst, Nat.sub_diag. simpl.
    rewrite skipn_all2 by (rewrite length_map; lia). reflexivity. }
  repeat split.
  - rewrite Hshape, map_app, !map_map.
    rewrite (map_ext _ (fun e => e) actPlan_entry), map_id.
    rewrite (map_ext (fun x => entry (capPlan policy x)) (fun e => e))
      by reflexivity.
    rewrite map_id, firstn_skipn. exact Hperm.
  - rewrite Hshape, filter_app.
    rewrite filter_all, filter_none.
    + rewrite app_nil_r, length_map. exact Hfirst.
    + apply Forall_forall. intros p Hp. apply in_map_iff in Hp.
      destruct Hp as (e & <- & _). apply capPlan_cap.
    + apply Forall_forall. intros p Hp. apply in_map_iff in Hp.
      destruct Hp as (e & <- & _). apply actPlan_acting.
  - rewrite Hshape, filter_app.
    rewrite filter_none, filter_all.
    + simpl. rewrite length_map, length_skipn. lia.
    + apply Forall_forall. intros p Hp. apply in_map_iff in Hp.
      destruct Hp as (e & <- & _). apply capPlan_cap.
    + apply Forall_forall. intros p Hp. apply in_map_iff in Hp.
      destruct Hp as (e & <- & _). apply actPlan_not_cap.
  - rewrite Hacting, length_map. exact Hfirst.
  - rewrite Hcapped, length_map, length_skipn. lia.
  - rewrite Hacting. apply Forall_forall. intros p Hp.
    apply in_map_iff in Hp. destruct Hp as (e & <- & _). apply actPlan_acting.
  - rewrite Hcapped. apply Forall_forall. intros p Hp.
    apply in_map_iff in Hp. destruct Hp as (e & <- & _). apply capPlan_cap.
  - intros a b Ha Hb. rewrite Hacting in Ha. rewrite Hcapped in Hb.
    apply in_map_iff in Ha. destruct Ha as (ea & <- & Ha).
    apply in_map_iff in Hb. destruct Hb as (eb & <- & Hb).
    rewrite actPlan_entry. simpl.
    apply notAfter_atLeastAsUrgent.
    apply (StronglySorted_app_cross (notAfter compareEntries)
             (firstn k sorted) (skipn k sorted)); try assumption.
    rewrite firstn_skipn.
    apply sort_sorted; [apply compareEntries_total | apply compareEntries_trans].
Qed.

End CapFairness.

Section CapFairnessScenario.
Import Types Spec Decision Examples.

(** The scenario of the specification: six CRITICAL pending entries under
    the default policy ([maxPrsPerRun = 5]) give five acting plans and one
    skip with the cap reason; the entry left out has the lowest score. *)
Lemma triage_cap_fairness_witness :
  Forall (fun e =>
            status e = S_pending
            /\ meetsThreshold (severity e) (autoPrThreshold DEFAULT_POLICY)
               = true
            /\ (requirePatchedVersion DEFAULT_POLICY = false
                \/ hasKnownPatch e))
         sixCritical
  /\ maxPrsPerRun DEFAULT_POLICY = Z.of_nat 5
  /\ (5 < List.length sixCritical)%nat
  /\ let plans := triage sixCritical DEFAULT_POLICY in
     Permutation (List.map entry plans) sixCritical
     /\ List.length (filter actingb plans) = 5%nat
     /\ List.length (filter (capSkipb DEFAULT_POLICY) plans)
        = (List.length sixCritical - 5)%nat
     /\ List.length (firstn 5 plans) = 5%nat
     /\ List.length (skipn 5 plans) = (List.length sixCritical - 5)%nat
     /\ Forall isActing (firstn 5 plans)
     /\ Forall (isCapSkip DEFAULT_POLICY) (skipn 5 plans)
     /\ (forall a b,
           In a (firstn 5 plans) -> In b (skipn 5 plans) ->
           atLeastAsUrgent (entry a) (entry b)).
Proof.
  assert (H1 : Forall (fun e =>
            status e = S_pending
            /\ meetsThreshold (severity e) (autoPrThreshold DEFAULT_POLICY)
               = true
            /\ (requirePatchedVersion DEFAULT_POLICY = false
                \/ hasKnownPatch e))
         sixCritical).
  { unfold sixCritical, hasKnownPatch.
    repeat (apply Forall_cons; [repeat split; try reflexivity; right; split; discriminate |]).
    apply Forall_nil. }
  assert (H2 : maxPrsPerRun DEFAULT_POLICY = Z.of_nat 5) by reflexivity.
  assert (H3 : (5 < List.length sixCritical)%nat) by (simpl; lia).
  split; [exact H1 |]. split; [exact H2 |]. split; [exact H3 |].
  exact (triage_cap_fairness sixCritical DEFAULT_POLICY 5 H1 H2 H3).
Defined.

Example triage_six_critical :
  List.map (fun p => (id (entry p), action p, reason p))
           (triage sixCritical DEFAULT_POLICY)
  = [("CVE-2024-4", open_pr, criticalReason);
     ("CVE-2024-2", open_pr, criticalReason);
     ("CVE-2024-5", open_pr, criticalReason);
     ("CVE-2024-6", open_pr, criticalReason);
     ("CVE-2024-1", open_pr, criticalReason);
     ("CVE-2024-3", skip, "PR cap reached (5 per run)")]%string.
Proof. vm_compute. reflexivity. Qed.

End CapFairnessScenario.

(** ** The insertion-ordered map *)

Section MapFacts.
Context {V : Type}.
Implicit Types (m : Js.Map V) (k : string) (v : V).

Lemma get_set_eq : forall k v m, Js.get k (Js.set k v m) = Some v.
Proof.
  intros k v m; induction m as [| [k' v'] m IH]; simpl.
  - rewrite String.eqb_refl. reflexivity.
  - destruct (String.eqb k k') eqn:E; simpl; rewrite E; [reflexivity | exact IH].
Qed.

Lemma get_set_neq :
  forall k k' v m, k <> k' -> Js.get k' (Js.set k v m) = Js.get k' m.
Proof.
  intros k k' v m Hne; induction m as [| [k0 v0] m IH]; simpl.
  - apply String.eqb_neq in Hne. rewrite String.eqb_sym, Hne. reflexivity.
  - destruct (String.eqb k k0) eqn:E; simpl.
    + apply String.eqb_eq in E; subst k0.
      assert (String.eqb k' k = false) as -> by (apply String.eqb_neq; congruence).
      reflexivity.
    + rewrite IH. reflexivity.
Qed.

Lemma get_None_iff : forall k m, Js.get k m = None <-> ~ In k (Js.keys m).
Proof.
  intros k m; induction m as [| [k' v'] m IH]; simpl.
  - split; [intros _ [] | reflexivity].
  - destruct (String.eqb_spec k k') as [-> | Hne].
    + split; [discriminate | intro H; exfalso; apply H; left; reflexivity].
    + rewrite IH. split.
      * intros H [E | Hin]; [congruence | exact (H Hin)].
      * intros H Hin. apply H. right; exact Hin.
Qed.

Lemma get_Some_In : forall k v m, Js.get k m = Some v -> In (k, v) m.
Proof.
  intros k v m; induction m as [| [k' v'] m IH]; simpl; [discriminate |].
  destruct (String.eqb_spec k k') as [-> | Hne].
  - intro H; injection H as ->. left; reflexivity.
  - intro H; right; apply IH, H.
Qed.

Lemma In_get :
  forall k v m, NoDup (Js.keys m) -> In (k, v) m -> Js.get k m = Some v.
Proof.
  intros k v m; induction m as [| [k' v'] m IH]; simpl; intros Hnd Hin.
  - destruct Hin.
  - inversion Hnd as [| ? ? Hnotin Hnd']; subst.
    destruct Hin as [E | Hin].
    + injection E as -> ->. rewrite String.eqb_refl. reflexivity.
    + destruct (String.eqb_spec k k') as [-> | Hne].
      * exfalso. apply Hnotin. apply (in_map fst) in Hin. exact Hin.
      * apply IH; assumption.
Qed.

Lemma has_true_iff : forall k m, Js.has k m = true <-> In k (Js.keys m).
Proof.
  intros k m; unfold Js.has.
  destruct (Js.get k m) as [v |] eqn:E.
  - split; [intros _ | reflexivity].
    apply get_Some_In in E. apply (in_map fst) in E. exact E.
  - apply get_None_iff in E. split; [discriminate | intro H; contradiction].
Qed.

Lemma set_absent :
  forall k v m, Js.get k m = None -> Js.set k v m = m ++ [(k, v)].
Proof.
  intros k v m; induction m as [| [k' v'] m IH]; simpl; intro H.
  - reflexivity.
  - destruct (String.eqb k k'); [discriminate |].
    rewrite IH by exact H. reflexivity.
Qed.

Lemma keys_set_present :
  forall k v m, In k (Js.keys m) -> Js.keys (Js.set k v m) = Js.keys m.
Proof.
  intros k v m; induction m as [| [k' v'] m IH]; simpl; intro H.
  - destruct H.
  - destruct (String.eqb_spec k k') as [-> | Hne]; simpl.
    + reflexivity.
    + f_equal. apply IH. destruct H as [E | H]; [congruence | exact H].
Qed.

Lemma keys_set_absent :
  forall k v m, ~ In k (Js.keys m) -> Js.keys (Js.set k v m) = Js.keys m ++ [k].
Proof.
  intros k v m H. apply get_None_iff in H. rewrite set_absent by exact H.
  unfold Js.keys. rewrite map_app. reflexivity.
Qed.

Lemma set_NoDup :
  forall k v m, NoDup (Js.keys m) -> NoDup (Js.keys (Js.set k v m)).
Proof.
  intros k v m Hnd.
  destruct (in_dec string_dec k (Js.keys m)) as [Hin | Hnotin].
  - rewrite keys_set_present by exact Hin. exact Hnd.
  - rewrite keys_set_absent by exact Hnotin.
    apply NoDup_app; [exact Hnd | repeat constructor; intros [] |].
    intros x Hx [E | []]. subst x. exact (Hnotin Hx).
Qed.

Lemma In_set :
  forall k v k' v' m,
    In (k', v') (Js.set k v m) -> (k' = k /\ v' = v) \/ In (k', v') m.
Proof.
  intros k v k' v' m; induction m as [| [k0 v0] m IH]; simpl.
  - intros [E | []]. injection E as <- <-. left; split; reflexivity.
  - destruct (String.eqb_spec k k0) as [-> | Hne]; simpl.
    + intros [E | H]; [injection E as <- <-; left; split; reflexivity
                      | right; right; exact H].
    + intros [E | H]; [right; left; exact E |].
      destruct (IH H) as [L | R]; [left; exact L | right; right; exact R].
Qed.

Lemma delete_app_absent :
  forall k v l1 l2,
    ~ In k (Js.keys l1) -> Js.delete k (l1 ++ (k, v) :: l2) = l1 ++ l2.
Proof.
  intros k v l1 l2; induction l1 as [| [k' v'] l1 IH]; simpl; intro H.
  - rewrite String.eqb_refl. reflexivity.
  - destruct (String.eqb_spec k k') as [-> | Hne].
    + exfalso; apply H; left; reflexivity.
    + rewrite IH; [reflexivity | intro Hin; apply H; right; exact Hin].
Qed.

Lemma size_length : forall m, Js.size m = Z.of_nat (List.length m).
Proof. reflexivity. Qed.

End MapFacts.

(** ** State layer: the queue invariant *)

Section QueueInvariant.
Import Types Spec.
Import State(Queue, entryKey, queueKey).

Lemma wellKeyed_empty : wellKeyed Js.empty.
Proof. split; constructor. Qed.

Lemma wellKeyed_set :
  forall (q : Queue) e, wellKeyed q -> wellKeyed (Js.set (entryKey e) e q).
Proof.
  intros q e [Hnd Hall]. split.
  - apply set_NoDup, Hnd.
  - apply Forall_forall. intros [k' e'] Hin.
    apply In_set in Hin. destruct Hin as [[-> ->] | Hin].
    + reflexivity.
    + rewrite Forall_forall in Hall. apply (Hall _ Hin).
Qed.

Lemma wellKeyed_get :
  forall (q : Queue) k e, wellKeyed q -> Js.get k q = Some e -> k = entryKey e.
Proof.
  intros q k e [_ Hall] H. apply get_Some_In in H.
  rewrite Forall_forall in Hall. apply (Hall _ H).
Qed.

Lemma wellKeyed_keys :
  forall q : Queue, wellKeyed q -> Js.keys q = List.map entryKey (Js.values q).
Proof.
  intros q [_ Hall]. unfold Js.keys, Js.values. rewrite map_map.
  apply map_ext_in. intros kv Hin.
  rewrite Forall_forall in Hall. apply (Hall _ Hin).
Qed.

Lemma NoDup_map_factor :
  forall {A B C : Type} (f : A -> B) (g : B -> C) (l : list A),
    NoDup (List.map (fun x => g (f x)) l) -> NoDup (List.map f l).
Proof.
  intros A B C f g l; induction l as [| x l IH]; simpl; intro H.
  - constructor.
  - inversion H as [| ? ? Hnotin Hnd]; subst. constructor.
    + intro Hin. apply Hnotin. apply in_map_iff in Hin.
      destruct Hin as (y & Hy & Hin). apply in_map_iff.
      exists y. split; [rewrite Hy; reflexivity | exact Hin].
    + apply IH, Hnd.
Qed.

(** In a well-keyed mapping no two entries have the same [(id, repo)]. *)
Lemma wellKeyed_unique :
  forall q : Queue, wellKeyed q -> NoDup (List.map idRepo (Js.values q)).
Proof.
  intros q Hq.
  apply (NoDup_map_factor idRepo (fun p => queueKey (fst p) (snd p))).
  change (NoDup (List.map entryKey (Js.values q))).
  rewrite <- wellKeyed_keys by exact Hq. apply Hq.
Qed.

Lemma wellKeyed_app_inv :
  forall q1 q2 : Queue, wellKeyed (q1 ++ q2) -> wellKeyed q1 /\ wellKeyed q2.
Proof.
  intros q1 q2 [Hnd Hall]. unfold Js.keys in Hnd. rewrite map_app in Hnd.
  apply Forall_app in Hall. destruct Hall as [H1 H2].
  split; split; try assumption.
  - apply NoDup_app_remove_r in Hnd. exact Hnd.
  - apply NoDup_app_remove_l in Hnd. exact Hnd.
Qed.

End QueueInvariant.

(** ** State layer: parsing and serialization *)

Section ParseFacts.
Import Types Spec.
Import State(Queue, entryKey, queueKey).
Variable JSON_parse : string -> option CveQueueEntry.
Variable JSON_stringify : CveQueueEntry -> string.

Local Abbreviation parseLine := (State.parseLine JSON_parse).
Local Abbreviation parseQueue := (State.parseQueue JSON_parse).
Local Abbreviation serialize := (State.serialize JSON_stringify).

Lemma parseLine_wellKeyed :
  forall q line, wellKeyed q -> wellKeyed (parseLine q line).
Proof.
  intros q line Hq. unfold State.parseLine.
  destruct (negb (Js.truthy (Js.trim line))); [exact Hq |].
  destruct (JSON_parse (Js.trim line)) as [e |]; [| exact Hq].
  apply wellKeyed_set, Hq.
Qed.

Lemma parseLines_wellKeyed :
  forall lines q, wellKeyed q -> wellKeyed (fold_left parseLine lines q).
Proof.
  induction lines as [| line lines IH]; intros q Hq; simpl.
  - exact Hq.
  - apply IH, parseLine_wellKeyed, Hq.
Qed.

(** Whatever the file holds (malformed lines, repeated keys), the mapping
    read from it is well keyed. *)
Lemma parseQueue_wellKeyed : forall raw, wellKeyed (parseQueue raw).
Proof.
  intro raw. unfold State.parseQueue.
  apply parseLines_wellKeyed, wellKeyed_empty.
Qed.

End ParseFacts.

(** ** Lines of a file *)

Section LineFacts.
Import Spec.

Lemma split_line_app :
  forall s t,
    hasChar Js.LF s = false ->
    Js.split Js.LF (s ++ Js.LFs ++ t)%string = s :: Js.split Js.LF t.
Proof.
  induction s as [| c s IH]; intros t H.
  - reflexivity.
  - simpl in H. apply orb_false_iff in H. destruct H as [Hc Hs].
    cbn [append Js.split]. unfold Js.isSep. rewrite Hc.
    rewrite (IH t Hs). reflexivity.
Qed.

Lemma split_one_line :
  forall s, hasChar Js.LF s = false -> Js.split Js.LF s = [s].
Proof.
  induction s as [| c s IH]; intro H.
  - reflexivity.
  - simpl in H. apply orb_false_iff in H. destruct H as [Hc Hs].
    cbn [Js.split]. unfold Js.isSep. rewrite Hc.
    rewrite (IH Hs). reflexivity.
Qed.

Lemma split_join :
  forall lines,
    lines <> [] ->
    Forall (fun l => hasChar Js.LF l = false) lines ->
    Js.split Js.LF (Js.join Js.LFs lines) = lines.
Proof.
  induction lines as [| l lines IH]; intros Hne Hall.
  - contradiction.
  - inversion Hall as [| ? ? Hl Hrest]; subst.
    destruct lines as [| l' lines'].
    + simpl. apply split_one_line, Hl.
    + change (Js.join Js.LFs (l :: l' :: lines'))
        with (l ++ Js.LFs ++ Js.join Js.LFs (l' :: lines'))%string.
      rewrite split_line_app by exact Hl.
      rewrite IH; [reflexivity | discriminate | exact Hrest].
Qed.

End LineFacts.

(** ** State layer: the round trip *)

Section RoundTrip.
Import Types Spec.
Import State(Queue, entryKey, queueKey).
Variable JSON_parse : string -> option CveQueueEntry.
Variable JSON_stringify : CveQueueEntry -> string.

Local Abbreviation parseLine := (State.parseLine JSON_parse).
Local Abbreviation parseQueue := (State.parseQueue JSON_parse).
Local Abbreviation serialize := (State.serialize JSON_stringify).
Local Abbreviation survives := (survivesJson JSON_parse JSON_stringify).

Lemma parseLine_survivor :
  forall q e, survives e -> parseLine q (JSON_stringify e) = setEntry q e.
Proof.
  intros q e (Hparse & _ & Htrim & Hne). unfold State.parseLine.
  rewrite Htrim. unfold Js.truthy.
  apply String.eqb_neq in Hne. rewrite Hne. simpl.
  rewrite Hparse. reflexivity.
Qed.

Lemma parseLines_survivors :
  forall es q,
    Forall survives es ->
    fold_left parseLine (List.map JSON_stringify es) q = fold_left setEntry es q.
Proof.
  induction es as [| e es IH]; intros q Hall; simpl.
  - reflexivity.
  - inversion Hall as [| ? ? He Hrest]; subst.
    rewrite parseLine_survivor by exact He. apply IH, Hrest.
Qed.

Lemma parseQueue_lines :
  forall es,
    Forall survives es ->
    parseQueue (Js.join Js.LFs (List.map JSON_stringify es))
    = fold_left setEntry es Js.empty.
Proof.
  intros es Hall. unfold State.parseQueue.
  destruct es as [| e es].
  - reflexivity.
  - rewrite split_join.
    + apply parseLines_survivors, Hall.
    + discriminate.
    + apply Forall_forall. intros l Hl. apply in_map_iff in Hl.
      destruct Hl as (x & <- & Hx). rewrite Forall_forall in Hall.
      apply (Hall x Hx).
Qed.

Lemma setEntries_rebuild :
  forall (todo done : Queue),
    wellKeyed (done ++ todo) ->
    fold_left setEntry (Js.values todo) done = done ++ todo.
Proof.
  induction todo as [| [k e] todo IH]; intros done Hwk; simpl.
  - rewrite app_nil_r. reflexivity.
  - assert (Hk : k = entryKey e).
    { destruct Hwk as [_ Hall]. rewrite Forall_forall in Hall.
      apply (Hall (k, e)). apply in_or_app. right; left; reflexivity. }
    assert (Hfresh : Js.get k done = None).
    { apply get_None_iff. intro Hin. destruct Hwk as [Hnd _].
      unfold Js.keys in Hnd, Hin. rewrite map_app in Hnd. simpl in Hnd.
      apply NoDup_remove_2 in Hnd. apply Hnd. apply in_or_app. left; exact Hin. }
    unfold setEntry at 2. rewrite <- Hk. rewrite set_absent by exact Hfresh.
    rewrite IH.
    + rewrite <- app_assoc. reflexivity.
    + rewrite <- app_assoc. exact Hwk.
Qed.

Lemma find_app_first :
  forall {A : Type} (f : A -> bool) (l1 l2 : list A),
    find f (l1 ++ l2)
    = match find f l1 with Some x => Some x | None => find f l2 end.
Proof.
  intros A f l1 l2; induction l1 as [| x l1 IH]; simpl.
  - reflexivity.
  - destruct (f x); [reflexivity | exact IH].
Qed.

Lemma setEntries_lookup :
  forall es q k,
    Js.get k (fold_left setEntry es q)
    = match find (keyIs k) (rev es) with
      | Some e => Some e
      | None => Js.get k q
      end.
Proof.
  induction es as [| e es IH]; intros q k; simpl.
  - reflexivity.
  - rewrite IH. rewrite find_app_first.
    destruct (find (keyIs k) (rev es)) as [e' |]; [reflexivity |].
    simpl. unfold keyIs at 1. unfold setEntry.
    destruct (String.eqb_spec (entryKey e) k) as [<- | Hne].
    + apply get_set_eq.
    + apply get_set_neq. exact Hne.
Qed.

Lemma find_unique_key :
  forall es k e,
    NoDup (List.map entryKey es) ->
    (find (keyIs k) es = Some e <-> In e es /\ entryKey e = k).
Proof.
  induction es as [| x es IH]; intros k e Hnd; simpl.
  - split; [discriminate | intros [[] _]].
  - inversion Hnd as [| ? ? Hnotin Hnd']; subst.
    unfold keyIs at 1.
    destruct (String.eqb_spec (entryKey x) k) as [Hk | Hk].
    + split.
      * intro H; injection H as <-. split; [left; reflexivity | exact Hk].
      * intros [[<- | Hin] He]; [reflexivity |].
        exfalso. apply Hnotin. rewrite Hk, <- He. apply in_map, Hin.
    + rewrite IH by exact Hnd'. split.
      * intros [Hin He]. split; [right; exact Hin | exact He].
      * intros [[<- | Hin] He]; [contradiction | split; assumption].
Qed.

Lemma get_wellKeyed_iff :
  forall (m : Queue) k e,
    wellKeyed m ->
    (Js.get k m = Some e <-> In e (Js.values m) /\ entryKey e = k).
Proof.
  intros m k e Hwk. split.
  - intro H. split.
    + apply get_Some_In in H. apply (in_map snd) in H. exact H.
    + symmetry. apply (wellKeyed_get m); assumption.
  - intros [Hin He]. apply in_map_iff in Hin. destruct Hin as ([k' e'] & E & Hin).
    simpl in E. subst e'. apply In_get; [apply Hwk |].
    destruct Hwk as [_ Hall]. rewrite Forall_forall in Hall.
    specialize (Hall _ Hin). simpl in Hall. subst. exact Hin.
Qed.

Lemma option_ext :
  forall {A : Type} (x y : option A),
    (forall a, x = Some a <-> y = Some a) -> x = y.
Proof.
  intros A [a |] [b |] H; try reflexivity.
  - symmetry. apply (proj1 (H a)). reflexivity.
  - symmetry. apply (proj1 (H a)). reflexivity.
  - apply (proj2 (H b)). reflexivity.
Qed.

(** C9. Round trip. For a queue mapping whose keys agree with each entry's
    [(id, repo)] and whose entries are JSON data, parsing the serialization
    gives the mapping back, and it gives the same keys and the same values
    whatever the order of the serialized lines. *)
Theorem parseQueue_serialize_roundtrip :
  forall m : Queue,
    wellKeyed m ->
    Forall survives (Js.values m) ->
    parseQueue (serialize m) = m
    /\ (forall lines,
          Permutation lines (List.map JSON_stringify (Js.values m)) ->
          sameMapping (parseQueue (Js.join Js.LFs lines)) m).
Proof.
  intros m Hwk Hall. split.
  - unfold State.serialize. rewrite parseQueue_lines by exact Hall.
    apply (setEntries_rebuild m []). exact Hwk.
  - intros lines Hperm k.
    apply Permutation_map_inv in Hperm. destruct Hperm as (es & -> & Hperm).
    assert (Hall' : Forall survives es).
    { apply Forall_forall. intros e He. rewrite Forall_forall in Hall.
      apply Hall. apply Permutation_sym in Hperm.
      apply (Permutation_in _ Hperm He). }
    rewrite parseQueue_lines by exact Hall'.
    rewrite setEntries_lookup. simpl Js.get.
    assert (Hnd : NoDup (List.map entryKey (rev es))).
    { apply (Permutation_NoDup (l := List.map entryKey (Js.values m))).
      - apply Permutation_map.
        apply perm_trans with es; [exact Hperm | apply Permutation_rev].
      - rewrite <- wellKeyed_keys by exact Hwk. apply Hwk. }
    apply option_ext. intro e.
    rewrite (get_wellKeyed_iff m k e Hwk).
    destruct (find (keyIs k) (rev es)) as [e' |] eqn:E.
    + split.
      * intro H; injection H as <-.
        apply find_unique_key in E; [| exact Hnd]. destruct E as [Hin He].
        split; [| exact He].
        apply in_rev in Hin. apply Permutation_sym in Hperm.
        apply (Permutation_in _ Hperm Hin).
      * intros [Hin He]. f_equal.
        assert (E' : find (keyIs k) (rev es) = Some e).
        { apply find_unique_key; [exact Hnd |]. split; [| exact He].
          apply in_rev. rewrite rev_involutive.
          apply (Permutation_in _ Hperm Hin). }
        congruence.
    + split; [discriminate |].
      intros [Hin He]. exfalso.
      assert (E' : find (keyIs k) (rev es) = Some e).
      { apply find_unique_key; [exact Hnd |]. split; [| exact He].
        apply in_rev. rewrite rev_involutive.
        apply (Permutation_in _ Hperm Hin). }
      congruence.
Qed.

End RoundTrip.

(** ** State layer: [enqueue] *)

Section EnqueueFacts.
Import Types Spec.
Import State(Queue, entryKey, queueKey).
Variable JSON_parse : string -> option CveQueueEntry.
Variable JSON_stringify : CveQueueEntry -> string.

Local Abbreviation parseQueue := (State.parseQueue JSON_parse).
Local Abbreviation serialize := (State.serialize JSON_stringify).
Local Abbreviation enqueue := (State.enqueue JSON_parse JSON_stringify).

Lemma enqueueLoop_lookup :
  forall batch (q : Queue) a d k,
    Js.get k (loopQueue (State.enqueueLoop batch q a d))
    = match Js.get k q with
      | Some e => Some e
      | None => find (keyIs k) batch
      end.
Proof.
  induction batch as [| e batch IH]; intros q a d k; simpl.
  - unfold loopQueue; simpl. destruct (Js.get k q); reflexivity.
  - unfold keyIs at 1.
    destruct (Js.has (entryKey e) q) eqn:Hhas; rewrite IH.
    + destruct (Js.get k q) eqn:Hk; [reflexivity |].
      destruct (String.eqb_spec (entryKey e) k) as [E | _]; [| reflexivity].
      exfalso. unfold Js.has in Hhas. rewrite E, Hk in Hhas. discriminate.
    + destruct (String.eqb_spec (entryKey e) k) as [<- | Hne].
      * rewrite get_set_eq.
        unfold Js.has in Hhas.
        destruct (Js.get (entryKey e) q); [discriminate | reflexivity].
      * rewrite get_set_neq by exact Hne. reflexivity.
Qed.

Lemma enqueueLoop_wellKeyed :
  forall batch (q : Queue) a d,
    wellKeyed q -> wellKeyed (loopQueue (State.enqueueLoop batch q a d)).
Proof.
  induction batch as [| e batch IH]; intros q a d Hq; simpl.
  - exact Hq.
  - destruct (Js.has (entryKey e) q); apply IH; [exact Hq |].
    apply wellKeyed_set, Hq.
Qed.

Lemma enqueueLoop_extends :
  forall batch (q : Queue) a d,
    exists news, loopQueue (State.enqueueLoop batch q a d) = q ++ news.
Proof.
  induction batch as [| e batch IH]; intros q a d; simpl.
  - exists []. rewrite app_nil_r. reflexivity.
  - destruct (Js.has (entryKey e) q) eqn:Hhas.
    + apply IH.
    + destruct (IH (Js.set (entryKey e) e q) (a + 1) d) as [news Hnews].
      exists ((entryKey e, e) :: news). rewrite Hnews.
      rewrite set_absent.
      * rewrite <- app_assoc. reflexivity.
      * unfold Js.has in Hhas.
        destruct (Js.get (entryKey e) q); [discriminate | reflexivity].
Qed.

Lemma has_set :
  forall (q : Queue) k e k',
    Js.has k' (Js.set k e q) = String.eqb k k' || Js.has k' q.
Proof.
  intros q k e k'. unfold Js.has.
  destruct (String.eqb_spec k k') as [<- | Hne].
  - rewrite get_set_eq. reflexivity.
  - rewrite get_set_neq by exact Hne. reflexivity.
Qed.

Lemma existsb_snoc :
  forall {A : Type} (f : A -> bool) l x,
    existsb f (l ++ [x]) = existsb f l || f x.
Proof.
  intros A f l x. rewrite existsb_app. simpl. rewrite orb_false_r. reflexivity.
Qed.

Lemma enqueueLoop_counts :
  forall batch (q0 qc : Queue) earlier a d,
    (forall k, Js.has k qc = Js.has k q0 || existsb (keyIs k) earlier) ->
    loopFirst (State.enqueueLoop batch qc a d)
    = a + countFalse (duplicateFlags q0 earlier batch)
    /\ loopSecond (State.enqueueLoop batch qc a d)
       = d + countTrue (duplicateFlags q0 earlier batch).
Proof.
  induction batch as [| e batch IH]; intros q0 qc earlier a d Hinv.
  - unfold loopFirst, loopSecond, countFalse, countTrue. simpl. split; lia.
  - cbn [State.enqueueLoop duplicateFlags].
    rewrite <- Hinv.
    destruct (Js.has (entryKey e) qc) eqn:Hhas.
    + destruct (IH q0 qc (earlier ++ [e]) a (d + 1)) as [H1 H2].
      { intro k. rewrite existsb_snoc, orb_assoc, <- Hinv. unfold keyIs.
        destruct (String.eqb_spec (entryKey e) k) as [<- | _].
        - rewrite Hhas. reflexivity.
        - rewrite orb_false_r. reflexivity. }
      rewrite H1, H2. unfold countFalse, countTrue. cbn [filter negb].
      cbn [List.length]. split; lia.
    + destruct (IH q0 (Js.set (entryKey e) e qc) (earlier ++ [e]) (a + 1) d)
        as [H1 H2].
      { intro k. rewrite has_set, existsb_snoc, orb_assoc, <- Hinv.
        unfold keyIs. apply orb_comm. }
      rewrite H1, H2. unfold countFalse, countTrue. cbn [filter negb].
      cbn [List.length]. split; lia.
Qed.

Lemma enqueueLoop_sizes :
  forall batch (q : Queue) a d,
    loopFirst (State.enqueueLoop batch q a d) - a
    = Js.size (loopQueue (State.enqueueLoop batch q a d)) - Js.size q
    /\ (loopFirst (State.enqueueLoop batch q a d) - a)
       + (loopSecond (State.enqueueLoop batch q a d) - d)
       = Z.of_nat (List.length batch).
Proof.
  induction batch as [| e batch IH]; intros q a d.
  - simpl. unfold loopFirst, loopSecond, loopQueue. simpl. split; lia.
  - cbn [State.enqueueLoop].
    destruct (Js.has (entryKey e) q) eqn:Hhas.
    + destruct (IH q a (d + 1)) as [H1 H2]. cbn [List.length]. split; lia.
    + destruct (IH (Js.set (entryKey e) e q) (a + 1) d) as [H1 H2].
      assert (Hsize : Js.size (Js.set (entryKey e) e q) = Js.size q + 1).
      { rewrite set_absent.
        - unfold Js.size. rewrite length_app. simpl. lia.
        - unfold Js.has in Hhas.
          destruct (Js.get (entryKey e) q); [discriminate | reflexivity]. }
      cbn [List.length]. split; lia.
Qed.

Lemma enqueue_unfold :
  forall batch state,
    enqueue batch state
    = (Some (serialize
               (loopQueue (State.enqueueLoop batch
                  (parseQueue (Js.nullish state EmptyString)) 0 0))),
       State.mkEnqueueResult
         (loopFirst (State.enqueueLoop batch
            (parseQueue (Js.nullish state EmptyString)) 0 0))
         (loopSecond (State.enqueueLoop batch
            (parseQueue (Js.nullish state EmptyString)) 0 0))).
Proof.
  intros batch state. unfold State.enqueue.
  destruct (State.enqueueLoop batch _ 0 0) as [[q' a'] d']. reflexivity.
Qed.

End EnqueueFacts.

Section EnqueueTheorems.
Import Types Spec.
Import State(Queue, entryKey, queueKey).
Variable JSON_parse : string -> option CveQueueEntry.
Variable JSON_stringify : CveQueueEntry -> string.

Local Abbreviation parseQueue := (State.parseQueue JSON_parse).
Local Abbreviation serialize := (State.serialize JSON_stringify).
Local Abbreviation enqueue := (State.enqueue JSON_parse JSON_stringify).

(** C4 (as amended). First-write-wins on the key string. [enqueue] reads the
    store into a mapping keyed by the string [id::repo], goes through the
    batch in order and writes the mapping back. An entry whose key string
    is already in the mapping (from the store, or from an earlier entry of
    the batch) changes nothing and counts as a duplicate: every entry of
    the store keeps its place and all its fields, whatever the incoming
    entry holds. An entry whose key string is new is appended and counts as
    added. The two counts are returned. *)
Theorem enqueue_first_write_wins :
  forall (batch : list CveQueueEntry) (state : State.Store),
    let q := parseQueue (Js.nullish state EmptyString) in
    let flags := duplicateFlags q [] batch in
    exists q' : Queue,
      enqueue batch state
      = (Some (serialize q'),
         State.mkEnqueueResult (countFalse flags) (countTrue flags))
      /\ (exists news, q' = q ++ news)
      /\ (forall k e, Js.get k q = Some e -> Js.get k q' = Some e)
      /\ (forall k, Js.get k q = None -> Js.get k q' = find (keyIs k) batch)
      /\ countFalse flags = Js.size q' - Js.size q
      /\ countFalse flags + countTrue flags = Z.of_nat (List.length batch)
      /\ wellKeyed q'.
Proof.
  intros batch state q flags.
  exists (loopQueue (State.enqueueLoop batch q 0 0)).
  destruct (enqueueLoop_counts batch q q [] 0 0) as [Ha Hd].
  { intro k. simpl. rewrite orb_false_r. reflexivity. }
  destruct (enqueueLoop_sizes batch q 0 0) as [Hs Hl].
  fold flags in Ha, Hd. simpl in Ha, Hd.
  split; [| split; [| split; [| split; [| split; [| split]]]]].
  - rewrite enqueue_unfold. fold q. rewrite Ha, Hd. reflexivity.
  - apply enqueueLoop_extends.
  - intros k e H. rewrite enqueueLoop_lookup, H. reflexivity.
  - intros k H. rewrite enqueueLoop_lookup, H. reflexivity.
  - lia.
  - lia.
  - apply enqueueLoop_wellKeyed, parseQueue_wellKeyed.
Qed.

Lemma enqueueAll_written :
  forall batches batch state,
    exists q : Queue,
      enqueueAll JSON_parse JSON_stringify (batch :: batches) state
      = Some (serialize q)
      /\ wellKeyed q.
Proof.
  induction batches as [| b batches IH]; intros batch state.
  - simpl. rewrite enqueue_unfold. simpl. eexists. split; [reflexivity |].
    apply enqueueLoop_wellKeyed, parseQueue_wellKeyed.
  - change (enqueueAll JSON_parse JSON_stringify (batch :: b :: batches) state)
      with (enqueueAll JSON_parse JSON_stringify (b :: batches)
              (fst (enqueue batch state))).
    apply IH.
Qed.

(** C5. Key uniqueness. After any sequence of [enqueue] calls, from any
    store (malformed lines and repeated keys included), the store holds no
    two entries with equal [(id, repo)]: what was written is the
    serialization of a mapping whose entries have pairwise distinct
    [(id, repo)], and so has the mapping read back from it. *)
Theorem enqueue_key_uniqueness :
  forall (state : State.Store) (batch : list CveQueueEntry)
         (batches : list (list CveQueueEntry)),
    let final :=
      enqueueAll JSON_parse JSON_stringify (batch :: batches) state in
    (exists q : Queue,
        final = Some (serialize q)
        /\ NoDup (List.map idRepo (Js.values q)))
    /\ NoDup (List.map idRepo
                (Js.values (parseQueue (Js.nullish final EmptyString)))).
Proof.
  intros state batch batches final. split.
  - destruct (enqueueAll_written batches batch state) as (q & Hq & Hwk).
    exists q. split; [exact Hq | apply wellKeyed_unique, Hwk].
  - apply wellKeyed_unique, parseQueue_wellKeyed.
Qed.

End EnqueueTheorems.

(** The key string and the pair: on identifiers that hold no colon (every
    CVE and GHSA identifier) two entries have the same key string exactly
    when they have the same [(id, repo)]. *)
Lemma queueKey_injective_on_ids :
  forall i r i' r',
    Spec.hasChar ":" i = false ->
    Spec.hasChar ":" i' = false ->
    State.queueKey i r = State.queueKey i' r' ->
    i = i' /\ r = r'.
Proof.
  unfold State.queueKey.
  induction i as [| c i IH]; intros r i' r' Hi Hi' H.
  - destruct i' as [| c' i'].
    + simpl in H. injection H as ->. split; reflexivity.
    + simpl in H, Hi'. injection H as <- _.
      rewrite Ascii.eqb_refl in Hi'. discriminate Hi'.
  - simpl in Hi. apply orb_false_iff in Hi. destruct Hi as [Hc Hi].
    destruct i' as [| c' i'].
    + simpl in H. injection H as -> _.
      rewrite Ascii.eqb_refl in Hc. discriminate Hc.
    + simpl in H, Hi'. injection H as <- H.
      apply orb_false_iff in Hi'. destruct Hi' as [_ Hi'].
      destruct (IH r i' r' Hi Hi' H) as [-> ->]. split; reflexivity.
Qed.

Section EnqueueScenario.
Import Types Spec Examples.
Import State(Queue, entryKey, queueKey).

Local Abbreviation parseQueue := (State.parseQueue Demo.JSON_parse).
Local Abbreviation enqueue :=
  (State.enqueue Demo.JSON_parse Demo.JSON_stringify).

(** C4 as stated fails when the identity is read as the pair [(id, repo)]:
    the store holds one entry, [(CVE-2024-7::a, b)]; the incoming entry
    [(CVE-2024-7, a::b)] has an [(id, repo)] that no entry of the store has,
    yet it is counted as a duplicate and is not inserted, because both
    pairs give the key string [CVE-2024-7::a::b]. *)
Lemma enqueue_new_pair_taken_for_duplicate :
  let before := parseQueue (Js.nullish colonStore EmptyString) in
  let result := enqueue [colonInRepo] colonStore in
  let after := parseQueue (Js.nullish (fst result) EmptyString) in
  Js.values before = [colonInId]
  /\ ~ In (idRepo colonInRepo) (List.map idRepo (Js.values before))
  /\ snd result = State.mkEnqueueResult 0 1
  /\ Js.values after = [colonInId]
  /\ ~ In colonInRepo (Js.values after).
Proof.
  cbv zeta.
  assert (H1 : Js.values (parseQueue (Js.nullish colonStore EmptyString))
               = [colonInId]) by (vm_compute; reflexivity).
  assert (H2 : Js.values
                 (parseQueue
                    (Js.nullish (fst (enqueue [colonInRepo] colonStore))
                       EmptyString))
               = [colonInId]) by (vm_compute; reflexivity).
  rewrite H1, H2.
  split; [reflexivity |]. split; [| split; [| split; [reflexivity |]]].
  - simpl. intros [H | []]. discriminate H.
  - vm_compute. reflexivity.
  - simpl. intros [H | []]. discriminate H.
Qed.

End EnqueueScenario.

(** ** State layer: [update] *)

Section UpdateFacts.
Import Types Spec.
Import State(Queue, entryKey, queueKey, applyUpdate, u_status, u_prNumber,
             u_prUrl, u_skipReason).

Lemma applyUpdate_key :
  forall e u now, entryKey (applyUpdate e u now) = entryKey e.
Proof. reflexivity. Qed.

Lemma sameFinding_refl : forall e, sameFinding e e.
Proof. intro e. unfold sameFinding. repeat split. Qed.

Lemma applyAll_sameFinding :
  forall now us e, sameFinding e (applyAll now us e).
Proof.
  intros now us; induction us as [| u us IH]; intro e.
  - apply sameFinding_refl.
  - change (applyAll now (u :: us) e)
      with (applyAll now us (applyUpdate e u now)).
    specialize (IH (applyUpdate e u now)).
    unfold sameFinding in *. simpl in IH. exact IH.
Qed.

Lemma applyAll_snoc :
  forall now us u e,
    applyAll now (us ++ [u]) e = applyUpdate (applyAll now us e) u now.
Proof.
  intros now us u e. unfold applyAll. rewrite fold_left_app. reflexivity.
Qed.

Lemma applyAll_carried :
  forall now us e,
    prNumber (applyAll now us e) = carried u_prNumber us (prNumber e)
    /\ prUrl (applyAll now us e) = carried u_prUrl us (prUrl e)
    /\ skipReason (applyAll now us e)
       = carried u_skipReason us (skipReason e).
Proof.
  intros now us; induction us as [| u us IH]; intro e.
  - repeat split.
  - change (applyAll now (u :: us) e)
      with (applyAll now us (applyUpdate e u now)).
    destruct (IH (applyUpdate e u now)) as (H1 & H2 & H3).
    rewrite H1, H2, H3. unfold carried. simpl.
    destruct (lastProvided u_prNumber us);
      destruct (lastProvided u_prUrl us);
      destruct (lastProvided u_skipReason us);
      destruct (u_prNumber u); destruct (u_prUrl u);
      destruct (u_skipReason u); repeat split.
Qed.

Lemma updateLoop_lookup :
  forall updates (q : Queue) now a d k,
    Js.get k (loopQueue (State.updateLoop updates q now a d))
    = option_map (applyAll now (updatesFor k updates)) (Js.get k q).
Proof.
  induction updates as [| u updates IH]; intros q now a d k.
  - unfold loopQueue; simpl. destruct (Js.get k q); reflexivity.
  - cbn [State.updateLoop].
    change (State.queueKey (State.u_id u) (State.u_repo u)) with (updateKey u).
    unfold updatesFor. cbn [filter]. fold (updatesFor k updates).
    destruct (Js.get (updateKey u) q) as [existing |] eqn:Hget.
    + rewrite IH.
      destruct (String.eqb_spec (updateKey u) k) as [<- | Hne].
      * rewrite get_set_eq, Hget. reflexivity.
      * rewrite get_set_neq by exact Hne. reflexivity.
    + rewrite IH.
      destruct (String.eqb_spec (updateKey u) k) as [<- | Hne];
        [rewrite Hget |]; reflexivity.
Qed.

Lemma updateLoop_keys :
  forall updates (q : Queue) now a d,
    Js.keys (loopQueue (State.updateLoop updates q now a d)) = Js.keys q.
Proof.
  induction updates as [| u updates IH]; intros q now a d.
  - reflexivity.
  - cbn [State.updateLoop].
    destruct (Js.get _ q) as [existing |] eqn:Hget.
    + rewrite IH. apply keys_set_present.
      apply get_Some_In in Hget. apply (in_map fst) in Hget. exact Hget.
    + apply IH.
Qed.

Lemma has_keys :
  forall (q1 q2 : Queue) k,
    Js.keys q1 = Js.keys q2 -> Js.has k q1 = Js.has k q2.
Proof.
  intros q1 q2 k H.
  destruct (Js.has k q1) eqn:E1; destruct (Js.has k q2) eqn:E2;
    try reflexivity.
  - apply has_true_iff in E1. rewrite H in E1. apply has_true_iff in E1.
    congruence.
  - apply has_true_iff in E2. rewrite <- H in E2. apply has_true_iff in E2.
    congruence.
Qed.

Lemma updateLoop_counts :
  forall updates (q0 q : Queue) now a d,
    Js.keys q = Js.keys q0 ->
    loopFirst (State.updateLoop updates q now a d)
    = a + Z.of_nat (List.length
                      (filter (fun u => Js.has (updateKey u) q0) updates))
    /\ loopSecond (State.updateLoop updates q now a d)
       = d + Z.of_nat (List.length
                         (filter (fun u => negb (Js.has (updateKey u) q0))
                                 updates)).
Proof.
  induction updates as [| u updates IH]; intros q0 q now a d Hkeys.
  - unfold loopFirst, loopSecond. simpl. split; lia.
  - cbn [State.updateLoop filter].
    change (State.queueKey (State.u_id u) (State.u_repo u)) with (updateKey u).
    rewrite <- (has_keys q q0 (updateKey u) Hkeys).
    assert (Hh : Js.has (updateKey u) q
                 = match Js.get (updateKey u) q with
                   | Some _ => true
                   | None => false
                   end) by reflexivity.
    rewrite Hh.
    destruct (Js.get (updateKey u) q) as [existing |] eqn:Hget.
    + destruct (IH q0 (Js.set (updateKey u) (applyUpdate existing u now) q)
                   now (a + 1) d) as [H1 H2].
      { rewrite <- Hkeys. apply keys_set_present.
        apply get_Some_In in Hget. apply (in_map fst) in Hget. exact Hget. }
      rewrite H1, H2. cbn [negb List.length]. split; lia.
    + destruct (IH q0 q now a (d + 1) Hkeys) as [H1 H2].
      rewrite H1, H2. cbn [negb List.length]. split; lia.
Qed.

Lemma updateLoop_wellKeyed :
  forall updates (q : Queue) now a d,
    wellKeyed q -> wellKeyed (loopQueue (State.updateLoop updates q now a d)).
Proof.
  induction updates as [| u updates IH]; intros q now a d Hq.
  - exact Hq.
  - cbn [State.updateLoop].
    destruct (Js.get _ q) as [existing |] eqn:Hget; apply IH; [| exact Hq].
    rewrite (wellKeyed_get q _ existing Hq Hget).
    rewrite <- (applyUpdate_key existing u now).
    apply wellKeyed_set, Hq.
Qed.

End UpdateFacts.

Section UpdateTheorems.
Import Types Spec.
Import State(Queue, entryKey, queueKey, applyUpdate, u_status, u_prNumber,
             u_prUrl, u_skipReason).
Variable JSON_parse : string -> option CveQueueEntry.
Variable JSON_stringify : CveQueueEntry -> string.

Local Abbreviation parseQueue := (State.parseQueue JSON_parse).
Local Abbreviation serialize := (State.serialize JSON_stringify).
Local Abbreviation update := (State.update JSON_parse JSON_stringify).

Lemma update_unfold :
  forall updates state now,
    update updates state now
    = (Some (serialize
               (loopQueue (State.updateLoop updates
                  (parseQueue (Js.nullish state EmptyString)) now 0 0))),
       State.mkUpdateResult
         (loopFirst (State.updateLoop updates
            (parseQueue (Js.nullish state EmptyString)) now 0 0))
         (loopSecond (State.updateLoop updates
            (parseQueue (Js.nullish state EmptyString)) now 0 0))).
Proof.
  intros updates state now. unfold State.update.
  destruct (State.updateLoop updates _ now 0 0) as [[q' a'] d']. reflexivity.
Qed.

Lemma carried_keeps :
  forall {A : Type} (f : State.Update -> option A) us (old : option A),
    (old <> None -> carried f us old <> None)
    /\ (Forall (fun u => f u = None) us -> carried f us old = old).
Proof.
  intros A f us old. unfold carried. split.
  - intro H. destruct (lastProvided f us); [discriminate | exact H].
  - intro H. induction H as [| u us Hu _ IH]; simpl.
    + reflexivity.
    + destruct (lastProvided f us); [exact IH |]. rewrite Hu. reflexivity.
Qed.

(** C10 (as amended). The frame of [update], on the key string. [update]
    reads the store into a mapping keyed by the string [id::repo], applies
    the batch in order and writes the mapping back. The mapping keeps its
    keys and their order. An entry whose key string is the key string of no
    update of the batch is unchanged. An entry whose key string is that of
    some update keeps every field but [status], [prNumber], [prUrl],
    [skipReason] and [processedAt]; its status is that of the last such
    update, [processedAt] is the time of the call, and each of [prNumber],
    [prUrl] and [skipReason] is the last value an update provides: an
    update that omits the field never clears it. The counts returned are
    those of the updates whose key string is, and is not, in the store. *)
Theorem update_frame :
  forall (updates : list State.Update) (state : State.Store) (now : string),
    let q := parseQueue (Js.nullish state EmptyString) in
    exists q' : Queue,
      update updates state now
      = (Some (serialize q'),
         State.mkUpdateResult
           (Z.of_nat (List.length
                        (filter (fun u => Js.has (updateKey u) q) updates)))
           (Z.of_nat (List.length
                        (filter (fun u => negb (Js.has (updateKey u) q))
                                updates))))
      /\ Js.keys q' = Js.keys q
      /\ (forall k e,
            Js.get k q = Some e -> updatesFor k updates = [] ->
            Js.get k q' = Some e)
      /\ (forall k e us u,
            Js.get k q = Some e -> updatesFor k updates = us ++ [u] ->
            exists e',
              Js.get k q' = Some e'
              /\ sameFinding e e'
              /\ status e' = u_status u
              /\ processedAt e' = Some now
              /\ prNumber e' = carried u_prNumber (us ++ [u]) (prNumber e)
              /\ prUrl e' = carried u_prUrl (us ++ [u]) (prUrl e)
              /\ skipReason e'
                 = carried u_skipReason (us ++ [u]) (skipReason e)
              /\ (prNumber e <> None -> prNumber e' <> None)
              /\ (prUrl e <> None -> prUrl e' <> None)
              /\ (skipReason e <> None -> skipReason e' <> None)).
Proof.
  intros updates state now q.
  exists (loopQueue (State.updateLoop updates q now 0 0)).
  destruct (updateLoop_counts updates q q now 0 0 eq_refl) as [Hu Hn].
  split; [| split; [| split]].
  - rewrite update_unfold. fold q. rewrite Hu, Hn. reflexivity.
  - apply updateLoop_keys.
  - intros k e Hget Hnone.
    rewrite updateLoop_lookup, Hget, Hnone. reflexivity.
  - intros k e us u Hget Hsome.
    exists (applyAll now (us ++ [u]) e).
    destruct (applyAll_carried now (us ++ [u]) e) as (H1 & H2 & H3).
    split; [| split; [| split; [| split; [| split; [| split; [| split]]]]]].
    + rewrite updateLoop_lookup, Hget, Hsome. reflexivity.
    + apply applyAll_sameFinding.
    + rewrite applyAll_snoc. reflexivity.
    + rewrite applyAll_snoc. reflexivity.
    + exact H1.
    + exact H2.
    + exact H3.
    + rewrite H1, H2, H3. repeat split; apply carried_keeps.
Qed.

End UpdateTheorems.

Section UpdateScenario.
Import Types Spec Examples.
Import State(Queue, entryKey, queueKey).

Local Abbreviation parseQueue := (State.parseQueue Demo.JSON_parse).
Local Abbreviation update :=
  (State.update Demo.JSON_parse Demo.JSON_stringify).

(** C10 as stated fails when the identity is read as the pair
    [(id, repo)]: the store holds one entry, [(CVE-2024-7::a, b)]; the batch
    names [(CVE-2024-7, a::b)] only; the entry of the store, which the batch
    does not name, is marked skipped, because both pairs give the key
    string [CVE-2024-7::a::b]. *)
Lemma update_changes_unnamed_pair :
  let before := parseQueue (Js.nullish colonStore EmptyString) in
  let result := update [colonUpdate] colonStore "2024-06-01T00:00:00.000Z" in
  let after := parseQueue (Js.nullish (fst result) EmptyString) in
  Js.values before = [colonInId]
  /\ Forall (fun u => (State.u_id u, State.u_repo u) <> idRepo colonInId)
            [colonUpdate]
  /\ List.map idRepo (Js.values after) = [idRepo colonInId]
  /\ List.map status (Js.values after) = [S_skipped]
  /\ Js.values after <> Js.values before.
Proof.
  cbv zeta.
  assert (H1 : Js.values (parseQueue (Js.nullish colonStore EmptyString))
               = [colonInId]) by (vm_compute; reflexivity).
  rewrite H1.
  split; [reflexivity |]. split; [| split; [| split]].
  - constructor; [| constructor]. simpl. intro H. discriminate H.
  - vm_compute. reflexivity.
  - vm_compute. reflexivity.
  - intro H. apply (f_equal (List.map status)) in H.
    vm_compute in H. discriminate H.
Qed.

End UpdateScenario.

(** ** State layer: [compact] *)

Section CompactFacts.
Import Types Spec.
Import State(Queue, entryKey, queueKey).
Variable JSON_parse : string -> option CveQueueEntry.
Variable JSON_stringify : CveQueueEntry -> string.
Variable Date_getTime : string -> option Z.

Local Abbreviation parseQueue := (State.parseQueue JSON_parse).
Local Abbreviation serialize := (State.serialize JSON_stringify).
Local Abbreviation expired := (State.expired Date_getTime).
Local Abbreviation compactLoop := (State.compactLoop Date_getTime).
Local Abbreviation compact :=
  (State.compact JSON_parse JSON_stringify Date_getTime).

Lemma Status_eqb_eq : forall a b, Status_eqb a b = true <-> a = b.
Proof. destruct a, b; simpl; split; intro H; try reflexivity; discriminate. Qed.



Lemma keys_filter_subset :
  forall (f : string * CveQueueEntry -> bool) (q : Queue) k,
    In k (Js.keys (filter f q)) -> In k (Js.keys q).
Proof.
  intros f q k H. apply in_map_iff in H. destruct H as (kv & <- & Hin).
  apply filter_In in Hin. apply in_map, Hin.
Qed.

Lemma keys_filter_NoDup :
  forall (f : string * CveQueueEntry -> bool) (q : Queue),
    NoDup (Js.keys q) -> NoDup (Js.keys (filter f q)).
Proof.
  intros f q; induction q as [| kv q IH]; simpl; intro H.
  - constructor.
  - inversion H as [| ? ? Hnotin Hnd]; subst.
    destruct (f kv); simpl.
    + constructor; [| apply IH, Hnd].
      intro Hin. apply Hnotin. apply (keys_filter_subset f q), Hin.
    + apply IH, Hnd.
Qed.


Lemma compactLoop_filter :
  forall cutoff (todo done : Queue) counts,
    NoDup (Js.keys (done ++ todo)) ->
    fst (compactLoop todo cutoff
           (filter (kept Date_getTime cutoff) done ++ todo) counts)
    = filter (kept Date_getTime cutoff) (done ++ todo).
Proof.
  intros cutoff todo; induction todo as [| [k e] todo IH];
    intros done counts Hnd.
  - simpl. rewrite !app_nil_r. reflexivity.
  - assert (Hstep : forall c keepIt,
               kept Date_getTime cutoff (k, e) = keepIt ->
               fst (compactLoop todo cutoff
                      (filter (kept Date_getTime cutoff) done
                       ++ (if keepIt then [(k, e)] else []) ++ todo) c)
               = filter (kept Date_getTime cutoff) (done ++ (k, e) :: todo)).
    { intros c keepIt Hk.
      replace (done ++ (k, e) :: todo) with ((done ++ [(k, e)]) ++ todo)
        by (rewrite <- app_assoc; reflexivity).
      rewrite <- IH with (counts := c).
      - rewrite filter_app. simpl. rewrite Hk.
        rewrite <- app_assoc. destruct keepIt; reflexivity.
      - rewrite <- app_assoc. exact Hnd. }
    cbn [State.compactLoop]. unfold kept in Hstep. simpl in Hstep.
    destruct (Status_eqb (status e) S_pending) eqn:Ep.
    + apply (Hstep counts true). reflexivity.
    + destruct (expired cutoff e) eqn:Ex.
      * rewrite delete_app_absent.
        -- apply (Hstep _ false). reflexivity.
        -- intro Hin. apply keys_filter_subset in Hin.
           unfold Js.keys in Hnd. rewrite map_app in Hnd. simpl in Hnd.
           apply NoDup_remove_2 in Hnd. apply Hnd.
           apply in_or_app. left. exact Hin.
      * apply (Hstep counts true). reflexivity.
Qed.

Lemma parseQueue_empty : parseQueue EmptyString = [].
Proof. reflexivity. Qed.


End CompactFacts.

Section CompactScenario.
Import Types Spec Examples.

(** The scenario of the specification: with [retentionDays = 30], of a
    [pr_opened] entry processed 40 days ago and a pending entry detected
    100 days ago only the former is removed (the malformed line of the
    file goes with the rewrite). *)
Example compact_scenario :
  Demo.Date_getTime "2024-06-01T00:00:00.000Z" = Some juneFirst
  /\ State.compact Demo.JSON_parse Demo.JSON_stringify Demo.Date_getTime
       compactStore (Some 30) juneFirst
     = (Some (Demo.JSON_stringify pendingLongAgo),
        State.mkCompactResult 2 1 1 [(S_pr_opened, 1)]).
Proof. split; vm_compute; reflexivity. Qed.

End CompactScenario.

(** ** State layer: [list] and [pending] *)

Section PendingFacts.
Import Types Spec.
Variable JSON_parse : string -> option CveQueueEntry.

Local Abbreviation parseQueue := (State.parseQueue JSON_parse).
Local Abbreviation pending := (State.pending JSON_parse).

Lemma listFilter_pending :
  forall e,
    State.listFilter pendingOpts e
    = Status_eqb (status e) S_pending && meetsThreshold (severity e) LOW.
Proof.
  intro e. unfold State.listFilter, pendingOpts, meetsThreshold. simpl.
  destruct (Status_eqb (status e) S_pending); simpl; [| reflexivity].
  destruct (severity e); reflexivity.
Qed.

(** What [pending] returns: the entries of the store that are pending and
    at least as severe as LOW, in triage order, at most 1000 of them. *)
Lemma pending_characterised :
  forall state : State.Store,
    pending state
    = firstn 1000
        (Js.sort Decision.compareEntries
           (filter (fun e => Status_eqb (status e) S_pending
                             && meetsThreshold (severity e) LOW)
                   (Js.values (parseQueue (Js.nullish state EmptyString))))).
Proof.
  intro state. unfold State.pending, State.list.
  destruct state as [raw |]; [| reflexivity].
  destruct (negb (Js.truthy raw)) eqn:Eraw.
  - unfold Js.truthy in Eraw. rewrite negb_involutive in Eraw.
    apply String.eqb_eq in Eraw. subst raw. reflexivity.
  - simpl. fold pendingOpts.
    rewrite (filter_ext _ _ listFilter_pending). reflexivity.
Qed.

Lemma firstn_In : forall {A : Type} n (l : list A) x, In x (firstn n l) -> In x l.
Proof.
  intros A n l x H. rewrite <- (firstn_skipn n l). apply in_or_app. left; exact H.
Qed.

(** No entry of severity NONE or UNKNOWN is ever returned by [pending]. *)
Lemma pending_never_below_LOW :
  forall (state : State.Store) e,
    In e (pending state) ->
    status e = S_pending /\ atLeastAsSevere (severity e) LOW.
Proof.
  intros state e H. rewrite pending_characterised in H.
  apply firstn_In in H.
  apply (Permutation_in _ (sort_perm Decision.compareEntries _)) in H.
  apply filter_In in H. destruct H as [_ H].
  apply andb_true_iff in H. destruct H as [Hs Hm]. split.
  - apply Status_eqb_eq, Hs.
  - apply meetsThreshold_atLeastAsSevere, Hm.
Qed.

End PendingFacts.

Section PendingScenario.
Import Types Spec Examples.

(** C2 at its failing input. The store holds one entry; it is pending and
    its severity is UNKNOWN; [pending] returns nothing, although the store
    is far from the limit of 1000: the entry is dropped by the default
    minimum severity (LOW) of [list]. *)
Theorem pending_drops_unknown_severity :
  Js.values (State.parseQueue Demo.JSON_parse
               (Js.nullish unknownStore EmptyString))
  = [unknownSeverity]
  /\ status unknownSeverity = S_pending
  /\ severity unknownSeverity = UNKNOWN
  /\ State.pending Demo.JSON_parse unknownStore = [].
Proof. repeat split; vm_compute; reflexivity. Qed.

End PendingScenario.

(** ** Effects *)

Section EffectFacts.
Import Effect.
Context {World : Type}.

Lemma bind_returns :
  forall {A B : Type} (m : M World A) (k : A -> M World B) w b w',
    bind m k w = (inr b, w') ->
    exists a w1, m w = (inr a, w1) /\ k a w1 = (inr b, w').
Proof.
  intros A B m k w b w' H. unfold bind in H.
  destruct (m w) as [[err | a] w1].
  - discriminate H.
  - exists a, w1. split; [reflexivity | exact H].
Qed.

Lemma bind_throws :
  forall {A B : Type} (m : M World A) (k : A -> M World B) w err w',
    m w = (inl err, w') -> bind m k w = (inl err, w').
Proof. intros A B m k w err w' H. unfold bind. rewrite H. reflexivity. Qed.

Lemma bind_continues :
  forall {A B : Type} (m : M World A) (k : A -> M World B) w a w',
    m w = (inr a, w') -> bind m k w = k a w'.
Proof. intros A B m k w a w' H. unfold bind. rewrite H. reflexivity. Qed.

End EffectFacts.

(** ** Action layer *)

Section ActionFacts.
Import Types Effect GitHub Spec.
Import Decision(TriagePlan, entry, action, reason, open_pr, open_draft, skip).
Context {World : Type}.
Variable updateNpmManifest : string -> string -> string -> Thrown + string.
Variable scoreToString : Q -> string.
Variable Date_toISOString : string -> option string.
Variable nowISOString : M World string.
Variable github : GitHubAdapter World.

Local Abbreviation tryBlock :=
  (Run.tryBlock updateNpmManifest scoreToString Date_toISOString nowISOString).
Local Abbreviation executeLoop :=
  (Action.executeLoop updateNpmManifest scoreToString Date_toISOString
                      nowISOString github).
Local Abbreviation execute :=
  (fun plans dryRun =>
     Action.execute updateNpmManifest scoreToString Date_toISOString
                    nowISOString plans github dryRun).
Local Abbreviation runOne :=
  (Run.runOne updateNpmManifest scoreToString Date_toISOString nowISOString
              github).
Local Abbreviation runAll :=
  (Run.runAll updateNpmManifest scoreToString Date_toISOString nowISOString
              github).

Ltac bind_inv H :=
  let a := fresh "a" in
  let w := fresh "w" in
  let Hm := fresh "Hm" in
  apply bind_returns in H; destruct H as (a & w & Hm & H).

Lemma tryBlock_answers :
  forall plan w r w',
    tryBlock github plan w = (inr r, w') ->
    answers plan r /\ r_action r = R_pr_opened.
Proof.
  intros plan w r w' H. unfold Run.tryBlock, Action.tryBlock in H.
  destruct (splitRepo (repo (entry plan))) as [owner rp].
  do 6 bind_inv H.
  unfold ret in H. injection H as <- _.
  split; [split |]; reflexivity.
Qed.

Lemma tryBlock_result :
  forall plan w r w',
    tryBlock github plan w = (inr r, w') ->
    exists prBody branch base pr w0,
      createPullRequest github
        (fst (splitRepo (repo (entry plan))))
        (snd (splitRepo (repo (entry plan))))
        (Notions.prOptsFor plan prBody branch base) w0
      = (inr pr, w')
      /\ r = mkResult (id (entry plan)) (repo (entry plan)) R_pr_opened
                      (Some (number pr)) (Some (html_url pr)) None.
Proof.
  intros plan w r w' H. unfold Run.tryBlock, Action.tryBlock in H.
  destruct (splitRepo (repo (entry plan))) as [owner rp].
  cbn [fst snd].
  apply bind_returns in H. destruct H as (base & wb & _ & H).
  apply bind_returns in H. destruct H as (u1 & w1 & _ & H).
  apply bind_returns in H. destruct H as (files & w2 & _ & H).
  apply bind_returns in H. destruct H as (u2 & w3 & _ & H).
  apply bind_returns in H. destruct H as (prBody & w4 & _ & H).
  apply bind_returns in H. destruct H as (pr & w5 & Hpr & H).
  unfold ret in H. injection H as <- <-.
  exists prBody, ("security/" ++ Js.toLowerCase (id (entry plan)))%string,
         base, pr, w4.
  split; [exact Hpr | reflexivity].
Qed.

(** One plan whose sequence throws: the catch block reads the message of
    what was thrown. *)
Lemma runOne_caught :
  forall plan w err w',
    action plan <> skip ->
    tryBlock github plan w = (inl err, w') ->
    runOne false plan w
    = match readMessage err with
      | inr message => (inr (Action.errorResult plan message), w')
      | inl raised => (inl raised, w')
      end.
Proof.
  intros plan w err w' Hact H. unfold Run.runOne.
  destruct (action plan); try contradiction;
    unfold tryCatch; rewrite H;
    unfold Action.catchBlock, bind, lift, ret;
    destruct (readMessage err); reflexivity.
Qed.

Lemma runOne_returns :
  forall dryRun plan w r w',
    runOne dryRun plan w = (inr r, w') ->
    Notions.reportsPlan github (tryBlock github) dryRun plan r
    /\ answers plan r
    /\ (dryRun = true \/ action plan = skip -> w' = w).
Proof.
  intros dryRun plan w r w' H.
  assert (Hquiet : forall r0,
             (ret r0 : M World PrResult) w = (inr r, w') ->
             r = r0 /\ w' = w).
  { intros r0 E. unfold ret in E. injection E as <- <-. split; reflexivity. }
  assert (Hacting :
            action plan <> skip ->
            tryCatch (tryBlock github plan) (Action.catchBlock plan) w
            = (inr r, w') ->
            ((exists prBody branch base pr w0 w1,
                 createPullRequest github
                   (fst (splitRepo (repo (entry plan))))
                   (snd (splitRepo (repo (entry plan))))
                   (Notions.prOptsFor plan prBody branch base) w0
                 = (inr pr, w1)
                 /\ r = mkResult (id (entry plan)) (repo (entry plan))
                                 R_pr_opened (Some (number pr))
                                 (Some (html_url pr)) None)
             \/ (exists message w0 w1,
                    tryBlock github plan w0 = (inl (mkThrown message), w1)
                    /\ r = Action.errorResult plan message))
            /\ answers plan r).
  { intros Hact E. unfold tryCatch in E.
    destruct (tryBlock github plan w) as [[err | r0] w1] eqn:Et.
    - unfold Action.catchBlock, bind, lift, ret in E.
      destruct err as [b | message]; cbn [readMessage] in E;
        [discriminate E |].
      injection E as <- <-. split; [| split; reflexivity].
      right. exists message, w, w1. split; [exact Et | reflexivity].
    - injection E as <- <-.
      destruct (tryBlock_result plan w r0 w1 Et)
        as (prBody & branch & base & pr & w0 & Hpr & ->).
      split; [| split; reflexivity].
      left. exists prBody, branch, base, pr, w0, w1.
      split; [exact Hpr | reflexivity]. }
  unfold Run.runOne in H. unfold Notions.reportsPlan.
  destruct (action plan) eqn:Ea.
  - destruct dryRun.
    + destruct (Hquiet _ H) as [-> ->].
      split; [reflexivity |]. split; [split; reflexivity |].
      intros _. reflexivity.
    + destruct (Hacting ltac:(discriminate) H) as [Hrep Hans].
      split; [exact Hrep |]. split; [exact Hans |].
      intros [Hd | Hs]; discriminate.
  - destruct dryRun.
    + destruct (Hquiet _ H) as [-> ->].
      split; [reflexivity |]. split; [split; reflexivity |].
      intros _. reflexivity.
    + destruct (Hacting ltac:(discriminate) H) as [Hrep Hans].
      split; [exact Hrep |]. split; [exact Hans |].
      intros [Hd | Hs]; discriminate.
  - destruct (Hquiet _ H) as [-> ->].
    split; [reflexivity |]. split; [split; reflexivity |].
    intros _. reflexivity.
Qed.

Lemma runOne_throws :
  forall dryRun plan w err w',
    runOne dryRun plan w = (inl err, w') ->
    dryRun = false /\ action plan <> skip
    /\ exists isNull,
         tryBlock github plan w = (inl (thrownNullish isNull), w')
         /\ err = typeError isNull.
Proof.
  intros dryRun plan w err w' H. unfold Run.runOne in H.
  assert (Hacting :
            tryCatch (tryBlock github plan) (Action.catchBlock plan) w
            = (inl err, w') ->
            exists isNull,
              tryBlock github plan w = (inl (thrownNullish isNull), w')
              /\ err = typeError isNull).
  { intro E. unfold tryCatch in E.
    destruct (tryBlock github plan w) as [[e | r0] w1]; [| discriminate E].
    unfold Action.catchBlock, bind, lift, ret in E.
    destruct e as [b | message]; cbn [readMessage] in E; [| discriminate E].
    injection E as <- <-. exists b. split; reflexivity. }
  destruct (action plan); try discriminate H;
    (destruct dryRun; [discriminate H |]);
    (split; [reflexivity |]); (split; [discriminate |]);
    apply Hacting, H.
Qed.

Lemma executeLoop_runAll :
  forall dryRun plans results w,
    executeLoop dryRun plans results w
    = bind (runAll dryRun plans) (fun rs => ret (results ++ rs)) w.
Proof.
  intros dryRun plans; induction plans as [| plan rest IH]; intros results w.
  - simpl. unfold bind, ret. rewrite app_nil_r. reflexivity.
  - assert (Hstep : forall (m : M World PrResult),
               bind m (fun r => executeLoop dryRun rest (results ++ [r])) w
               = bind (bind m (fun r =>
                                 bind (runAll dryRun rest)
                                      (fun rs => ret (r :: rs))))
                      (fun rs => ret (results ++ rs)) w).
    { intro m. unfold bind at 1 2 3. destruct (m w) as [[e | r] w1];
        [reflexivity |].
      rewrite IH. unfold bind, ret.
      destruct (runAll dryRun rest w1) as [[e | rs] w2]; [reflexivity |].
      rewrite <- app_assoc. reflexivity. }
    cbn [Action.executeLoop Run.runAll]. unfold Run.runOne.
    destruct (action plan);
      try (apply (Hstep (ret (Action.skippedResult plan))));
      (destruct dryRun;
       [apply (Hstep (ret (Action.dryRunResult plan))) | apply Hstep]).
Qed.

Lemma execute_runAll :
  forall dryRun plans w, execute plans dryRun w = runAll dryRun plans w.
Proof.
  intros dryRun plans w. unfold Action.execute.
  rewrite executeLoop_runAll. unfold bind, ret.
  destruct (runAll dryRun plans w) as [[e | rs] w1]; reflexivity.
Qed.

Lemma runAll_app :
  forall dryRun pre post w,
    runAll dryRun (pre ++ post) w
    = bind (runAll dryRun pre)
           (fun a => bind (runAll dryRun post) (fun b => ret (a ++ b))) w.
Proof.
  intros dryRun pre; induction pre as [| plan pre IH]; intros post w.
  - cbn [app Run.runAll]. unfold bind, ret.
    destruct (runAll dryRun post w) as [[e | rs] w1]; reflexivity.
  - cbn [app Run.runAll]. unfold bind at 1 3 4.
    destruct (runOne dryRun plan w) as [[e | r] w1]; [reflexivity |].
    unfold bind at 1. rewrite IH. unfold bind, ret.
    destruct (runAll dryRun pre w1) as [[e | rs] w2]; [reflexivity |].
    destruct (runAll dryRun post w2) as [[e | rs'] w3]; reflexivity.
Qed.

Lemma runAll_returns :
  forall dryRun plans w results w',
    runAll dryRun plans w = (inr results, w') ->
    Forall2 (Notions.reportsPlan github (tryBlock github) dryRun)
            plans results
    /\ Forall2 answers plans results
    /\ (dryRun = true \/ Forall (fun p => action p = skip) plans -> w' = w).
Proof.
  intros dryRun plans; induction plans as [| plan rest IH];
    intros w results w' H.
  - unfold Run.runAll, ret in H. injection H as <- <-.
    split; [constructor |]. split; [constructor | reflexivity].
  - cbn [Run.runAll] in H.
    apply bind_returns in H. destruct H as (r & w1 & H1 & H).
    apply bind_returns in H. destruct H as (rs & w2 & H2 & H).
    unfold ret in H. injection H as <- <-.
    destruct (runOne_returns dryRun plan w r w1 H1) as (Hrep & Hans & Hw).
    destruct (IH w1 rs w2 H2) as (IHrep & IHans & IHw).
    split; [constructor; assumption |].
    split; [constructor; assumption |].
    intros [Hd | Hs].
    + rewrite IHw by (left; exact Hd). apply Hw. left; exact Hd.
    + inversion Hs as [| ? ? Hp Hrest]; subst.
      rewrite IHw by (right; exact Hrest). apply Hw. right; exact Hp.
Qed.

Lemma runAll_throws :
  forall dryRun plans w err w',
    runAll dryRun plans w = (inl err, w') ->
    dryRun = false
    /\ exists pre plan post rpre w1 isNull,
         plans = pre ++ plan :: post
         /\ action plan <> skip
         /\ runAll false pre w = (inr rpre, w1)
         /\ tryBlock github plan w1 = (inl (thrownNullish isNull), w')
         /\ err = typeError isNull.
Proof.
  intros dryRun plans; induction plans as [| plan rest IH];
    intros w err w' H.
  - discriminate H.
  - cbn [Run.runAll] in H. unfold bind at 1 in H.
    destruct (runOne dryRun plan w) as [[e | r] w1] eqn:H1.
    + injection H as <- <-.
      destruct (runOne_throws dryRun plan w e w1 H1)
        as (Hd & Hact & b & Ht & He).
      split; [exact Hd |].
      exists [], plan, rest, [], w, b.
      repeat match goal with |- _ /\ _ => split end;
        try reflexivity; assumption.
    + unfold bind at 1 in H.
      destruct (runAll dryRun rest w1) as [[e | rs] w2] eqn:H2;
        [| discriminate H].
      injection H as <- <-.
      destruct (IH w1 e w2 H2)
        as (Hd & pre & p & post & rpre & w3 & b & -> & Hact & Hpre & Ht & He).
      split; [exact Hd |]. subst dryRun.
      exists (plan :: pre), p, post, (r :: rpre), w3, b.
      repeat match goal with |- _ /\ _ => split end;
        try reflexivity; try assumption.
      cbn [Run.runAll]. rewrite (bind_continues _ _ w r w1 H1).
      rewrite (bind_continues _ _ w1 rpre w3 Hpre). reflexivity.
Qed.

(** What [execute] does guarantee at a plan whose sequence throws a value
    that is not [undefined] or [null]: the plan gets the error with the
    message of the value, and the plans after it are processed as usual,
    from the world the failed sequence left. *)
Lemma execute_isolates_thrown_values :
  forall pre plan post w rpre w1 message w2,
    action plan <> skip ->
    execute pre false w = (inr rpre, w1) ->
    tryBlock github plan w1 = (inl (mkThrown message), w2) ->
    execute (pre ++ plan :: post) false w
    = bind (execute post false)
           (fun rpost =>
              ret (rpre ++ Action.errorResult plan message :: rpost)) w2.
Proof.
  intros pre plan post w rpre w1 message w2 Hact Hpre Hthrow.
  cbv beta in Hpre |- *.
  rewrite execute_runAll in Hpre. rewrite execute_runAll, runAll_app.
  rewrite (bind_continues _ _ w rpre w1 Hpre).
  cbn [Run.runAll]. unfold bind at 1 2.
  rewrite (runOne_caught plan w1 _ w2 Hact Hthrow). cbn [readMessage].
  unfold bind, ret. rewrite execute_runAll.
  destruct (runAll false post w2) as [[e | rs] w3]; reflexivity.
Qed.

(** C6. Failure is per plan, except for a sequence that throws [undefined]
    or [null]. Take a plan that acts, in a run that is not a dry run, and
    let its branch/commit/PR sequence throw, after the plans before it
    gave their results. When what is thrown is a value other than
    [undefined] and [null], the plan gets the error result with the message
    of the value and the plans after it are processed as usual. When it is
    [undefined] or [null], the catch block throws on reading its message
    and [execute] throws that [TypeError]: no result is returned, neither
    for the plans before, whose pull requests may have been opened, nor for
    the plans after, which are not processed. *)
Theorem execute_aborts_on_nullish_rejection :
  forall (pre : list TriagePlan) (plan : TriagePlan) (post : list TriagePlan)
         (w : World) (rpre : list PrResult) (w1 : World) (err : Thrown)
         (w2 : World),
    action plan <> skip ->
    execute pre false w = (inr rpre, w1) ->
    tryBlock github plan w1 = (inl err, w2) ->
    match err with
    | mkThrown message =>
        execute (pre ++ plan :: post) false w
        = bind (execute post false)
               (fun rpost =>
                  ret (rpre ++ Action.errorResult plan message :: rpost)) w2
    | thrownNullish isNull =>
        execute (pre ++ plan :: post) false w = (inl (typeError isNull), w2)
        /\ forall results w',
             execute (pre ++ plan :: post) false w <> (inr results, w')
    end.
Proof.
  intros pre plan post w rpre w1 err w2 Hact Hpre Hthrow.
  destruct err as [isNull | message].
  - assert (H : execute (pre ++ plan :: post) false w
                = (inl (typeError isNull), w2)).
    { cbv beta in Hpre |- *.
      rewrite execute_runAll in Hpre. rewrite execute_runAll, runAll_app.
      rewrite (bind_continues _ _ w rpre w1 Hpre).
      cbn [Run.runAll]. unfold bind at 1 2.
      rewrite (runOne_caught plan w1 _ w2 Hact Hthrow). reflexivity. }
    split; [exact H |]. intros results w' E. rewrite H in E. discriminate E.
  - apply (execute_isolates_thrown_values pre plan post w rpre w1 message w2);
      assumption.
Qed.

End ActionFacts.

(** ** Detection layer *)

Section DetectionFacts.
Import Types Effect GitHub Spec.
Context {World : Type}.
Variable parseNpm parsePip parseGo parseCargo : string -> list (string * string).
Variable fetchGraphql :
  string -> string -> string -> M World (@Detection.Response World).
Variable nowISOString : M World string.
Variable github : GitHubAdapter World.

Local Abbreviation queryGhsa := (Detection.queryGhsa fetchGraphql).
Local Abbreviation onAdvisory := (Detection.onAdvisory nowISOString).
Local Abbreviation onPackage :=
  (Detection.onPackage fetchGraphql nowISOString github).
Local Abbreviation onManifest :=
  (Detection.onManifest parseNpm parsePip parseGo parseCargo fetchGraphql
                        nowISOString github).
Local Abbreviation onRepo :=
  (Detection.onRepo parseNpm parsePip parseGo parseCargo fetchGraphql
                    nowISOString github).
Local Abbreviation detect :=
  (fun repos threshold =>
     Detection.detect parseNpm parsePip parseGo parseCargo fetchGraphql
                      nowISOString repos threshold github).

Lemma neverThrows_ret : forall {A : Type} (a : A), neverThrows (@ret World A a).
Proof. intros A a w. exists a, w. reflexivity. Qed.

Lemma neverThrows_bind_from :
  forall {A B : Type} (m : M World A) (k : A -> M World B),
    neverThrows m ->
    (forall w a w', m w = (inr a, w') -> neverThrows (k a)) ->
    neverThrows (bind m k).
Proof.
  intros A B m k Hm Hk w.
  destruct (Hm w) as (a & w1 & E).
  destruct (Hk w a w1 E w1) as (b & w2 & E2).
  exists b, w2. rewrite (bind_continues m k w a w1 E). exact E2.
Qed.

Lemma neverThrows_bind :
  forall {A B : Type} (m : M World A) (k : A -> M World B),
    neverThrows m -> (forall a, neverThrows (k a)) -> neverThrows (bind m k).
Proof.
  intros A B m k Hm Hk. apply neverThrows_bind_from; [exact Hm |].
  intros w a w' _. apply Hk.
Qed.

Lemma neverThrows_forEach :
  forall {A S : Type} (body : S -> A -> M World S) (xs : list A),
    (forall acc x, neverThrows (body acc x)) ->
    forall acc, neverThrows (forEach xs body acc).
Proof.
  intros A S body xs Hbody; induction xs as [| x xs IH]; intro acc; simpl.
  - apply neverThrows_ret.
  - apply neverThrows_bind; [apply Hbody | exact IH].
Qed.

Local Abbreviation failuresAreValues :=
  (Spec.failuresAreValues github fetchGraphql nowISOString).

Lemma queryGhsa_neverThrows :
  failuresAreValues -> forall eco pkg tok, neverThrows (queryGhsa eco pkg tok).
Proof.
  intros (_ & Hfetch & Hjson & _) eco pkg tok. unfold Detection.queryGhsa.
  apply neverThrows_bind_from; [apply Hfetch |].
  intros w res w' E.
  destruct (Detection.ok res) eqn:Eok; simpl.
  - apply neverThrows_bind; [apply (Hjson _ _ _ _ _ _ E Eok) |].
    intro data. apply neverThrows_ret.
  - apply neverThrows_ret.
Qed.

Lemma onAdvisory_neverThrows :
  failuresAreValues ->
  forall idx repoFull manifest pkgName pkgVersion acc adv,
    neverThrows (onAdvisory idx repoFull manifest pkgName pkgVersion acc adv).
Proof.
  intros (_ & _ & _ & Hnow) idx repoFull manifest pkgName pkgVersion acc adv.
  unfold Detection.onAdvisory.
  destruct (_ >? idx); [apply neverThrows_ret |].
  destruct (existsb _ _); [apply neverThrows_ret |].
  apply neverThrows_bind; [exact Hnow |]. intro now. apply neverThrows_ret.
Qed.

Lemma onPackage_neverThrows :
  failuresAreValues ->
  forall idx repoFull manifest acc dep,
    neverThrows (onPackage idx repoFull manifest acc dep).
Proof.
  intros H idx repoFull manifest acc [pkgName pkgVersion].
  unfold Detection.onPackage.
  destruct (_ || _); [apply neverThrows_ret |].
  apply neverThrows_bind; [apply queryGhsa_neverThrows, H |].
  intro advisories. apply neverThrows_forEach.
  intros acc' adv. apply onAdvisory_neverThrows, H.
Qed.

Lemma onRepo_neverThrows :
  failuresAreValues ->
  forall idx acc repoFull, neverThrows (onRepo idx acc repoFull).
Proof.
  intros H idx acc repoFull. unfold Detection.onRepo.
  destruct (splitRepo repoFull) as [owner repo].
  apply neverThrows_bind.
  - apply neverThrows_forEach. intros manifests [path eco].
    unfold Detection.onManifestPath.
    apply neverThrows_bind; [apply H |].
    intros [c |]; [destruct (Js.truthy c) |]; apply neverThrows_ret.
  - intro manifests. destruct (_ =? 0); [apply neverThrows_ret |].
    apply neverThrows_forEach. intros acc' manifest.
    unfold Detection.onManifest. apply neverThrows_forEach.
    intros acc'' dep. apply onPackage_neverThrows, H.
Qed.

(** What [detect] does guarantee. A failure that reaches it as a value
    does not abort the scan: an advisory query answered with a non-OK
    response yields no advisory for that package and leaves the findings as
    they were; when no call of the capability, of [fetch], of the body of
    an OK response or of the clock throws, [detect] returns a result.
    Whenever [detect] returns a result, [reposScanned] is the number of
    repositories it was given. *)
Lemma detect_skips_failed_queries :
  forall (repos : list string) (threshold : Severity),
    (forall w result w',
        detect repos threshold w = (inr result, w') ->
        Detection.reposScanned result = Z.of_nat (List.length repos))
    /\ (failuresAreValues ->
        forall w, exists result w',
          detect repos threshold w = (inr result, w')
          /\ Detection.reposScanned result = Z.of_nat (List.length repos))
    /\ (forall eco pkg tok w res w',
          fetchGraphql (ghsaEcosystem eco) pkg tok w = (inr res, w') ->
          Detection.ok res = false ->
          queryGhsa eco pkg tok w = (inr [], w'))
    /\ (forall idx repoFull manifest acc pkgName pkgVersion w res w',
          Js.truthy pkgName = true ->
          Js.startsWith "//" pkgName = false ->
          fetchGraphql (ghsaEcosystem (Detection.m_ecosystem manifest))
            pkgName (token github) w = (inr res, w') ->
          Detection.ok res = false ->
          onPackage idx repoFull manifest acc (pkgName, pkgVersion) w
          = (inr acc, w')).
Proof.
  intros repos threshold.
  assert (Hscanned : forall w result w',
             detect repos threshold w = (inr result, w') ->
             Detection.reposScanned result = Z.of_nat (List.length repos)).
  { intros w result w' H. unfold Detection.detect in H.
    apply bind_returns in H. destruct H as (acc & w1 & _ & H).
    unfold ret in H. injection H as <- _. reflexivity. }
  assert (Hquery : forall eco pkg tok w res w',
             fetchGraphql (ghsaEcosystem eco) pkg tok w = (inr res, w') ->
             Detection.ok res = false ->
             queryGhsa eco pkg tok w = (inr [], w')).
  { intros eco pkg tok w res w' E Eok. unfold Detection.queryGhsa.
    fold (ghsaEcosystem eco).
    rewrite (bind_continues _ _ w res w' E). rewrite Eok. reflexivity. }
  split; [exact Hscanned |]. split; [| split; [exact Hquery |]].
  - intros H w.
    assert (Hnt : neverThrows (detect repos threshold)).
    { unfold Detection.detect. apply neverThrows_bind.
      - apply neverThrows_forEach. intros acc repoFull.
        apply onRepo_neverThrows, H.
      - intro acc. apply neverThrows_ret. }
    destruct (Hnt w) as (result & w' & E).
    exists result, w'. split; [exact E | apply (Hscanned w result w' E)].
  - intros idx repoFull manifest acc pkgName pkgVersion w res w' Ht Hs E Eok.
    unfold Detection.onPackage. rewrite Ht, Hs. simpl.
    rewrite (bind_continues _ _ w [] w' (Hquery _ _ _ _ _ _ E Eok)).
    reflexivity.
Qed.

Lemma forEach_throws_at :
  forall {A S : Type} (body : S -> A -> M World S) (pre : list A) (x : A)
         (post : list A) acc w acc1 w1 err w2,
    forEach pre body acc w = (inr acc1, w1) ->
    body acc1 x w1 = (inl err, w2) ->
    forEach (pre ++ x :: post) body acc w = (inl err, w2).
Proof.
  intros A S body pre x post; induction pre as [| y pre IH];
    intros acc w acc1 w1 err w2 Hpre Hx.
  - unfold forEach, ret in Hpre. injection Hpre as <- <-.
    cbn [app forEach]. apply bind_throws, Hx.
  - cbn [app forEach] in Hpre |- *.
    apply bind_returns in Hpre. destruct Hpre as (a & w0 & Hy & Hpre).
    rewrite (bind_continues _ _ w a w0 Hy).
    apply (IH a w0 acc1 w1 err w2 Hpre Hx).
Qed.

Lemma detect_throws_at_repo :
  forall pre repoFull post threshold w acc w1 err w2,
    forEach pre (onRepo (indexOf SEVERITY_ORDER threshold))
            (Detection.mkAcc [] []) w = (inr acc, w1) ->
    onRepo (indexOf SEVERITY_ORDER threshold) acc repoFull w1
    = (inl err, w2) ->
    detect (pre ++ repoFull :: post) threshold w = (inl err, w2)
    /\ forall result w',
         detect (pre ++ repoFull :: post) threshold w <> (inr result, w').
Proof.
  intros pre repoFull post threshold w acc w1 err w2 Hpre Hrepo.
  assert (H : detect (pre ++ repoFull :: post) threshold w = (inl err, w2)).
  { cbv beta. unfold Detection.detect. apply bind_throws.
    apply (forEach_throws_at _ pre repoFull post _ w acc w1 err w2 Hpre Hrepo). }
  split; [exact H |]. intros result w' E. rewrite H in E. discriminate E.
Qed.

(** C7. A call that throws aborts the scan. Let the repositories before
    one repository be scanned. If, in that repository, the [fetch] of the
    advisory query for one package throws (the manifests of the repository
    were read, the manifests before this one and the packages before this
    one were looked up), or if the read of one of its manifests throws,
    then [detect] throws what the call threw: it returns no result, neither
    the findings so far, nor those of the packages and repositories that
    were still to come, nor [reposScanned]. *)
Theorem detect_aborts_when_a_call_throws :
  forall (pre : list string) (repoFull : string) (post : list string)
         (threshold : Severity) (w : World) (acc : Detection.Acc)
         (w1 : World),
    forEach pre (onRepo (indexOf SEVERITY_ORDER threshold))
            (Detection.mkAcc [] []) w = (inr acc, w1) ->
    (forall manifests w2 mpre manifest mpost acc2 w3
            dpre pkgName pkgVersion dpost acc3 w4 err w5,
        forEach Detection.MANIFEST_PATHS
                (Detection.onManifestPath github
                   (fst (splitRepo repoFull)) (snd (splitRepo repoFull)))
                [] w1
        = (inr manifests, w2) ->
        manifests = mpre ++ manifest :: mpost ->
        forEach mpre
                (Detection.onManifest parseNpm parsePip parseGo parseCargo
                   fetchGraphql nowISOString github
                   (indexOf SEVERITY_ORDER threshold) repoFull)
                acc w2
        = (inr acc2, w3) ->
        Detection.parseManifest parseNpm parsePip parseGo parseCargo manifest
        = dpre ++ (pkgName, pkgVersion) :: dpost ->
        forEach dpre
                (onPackage (indexOf SEVERITY_ORDER threshold) repoFull
                           manifest)
                acc2 w3
        = (inr acc3, w4) ->
        Js.truthy pkgName = true ->
        Js.startsWith "//" pkgName = false ->
        fetchGraphql (ghsaEcosystem (Detection.m_ecosystem manifest))
                     pkgName (token github) w4
        = (inl err, w5) ->
        detect (pre ++ repoFull :: post) threshold w = (inl err, w5)
        /\ forall result w',
             detect (pre ++ repoFull :: post) threshold w
             <> (inr result, w'))
    /\ (forall ppre path eco ppost manifests w2 err w3,
           Detection.MANIFEST_PATHS = ppre ++ (path, eco) :: ppost ->
           forEach ppre
                   (Detection.onManifestPath github
                      (fst (splitRepo repoFull)) (snd (splitRepo repoFull)))
                   [] w1
           = (inr manifests, w2) ->
           getFileContent github (fst (splitRepo repoFull))
                          (snd (splitRepo repoFull)) path w2
           = (inl err, w3) ->
           detect (pre ++ repoFull :: post) threshold w = (inl err, w3)
           /\ forall result w',
                detect (pre ++ repoFull :: post) threshold w
                <> (inr result, w')).
Proof.
  intros pre repoFull post threshold w acc w1 Hpre. split.
  - intros manifests w2 mpre manifest mpost acc2 w3
           dpre pkgName pkgVersion dpost acc3 w4 err w5
           Hpaths -> Hmpre Hparse Hdpre Ht Hs Hfetch.
    apply (detect_throws_at_repo pre repoFull post threshold w acc w1 err w5
             Hpre).
    unfold Detection.onRepo.
    destruct (splitRepo repoFull) as [owner repo]. cbn [fst snd] in Hpaths.
    rewrite (bind_continues _ _ w1 _ w2 Hpaths).
    replace (Z.of_nat (List.length (mpre ++ manifest :: mpost)) =? 0)%Z
      with false
      by (symmetry; apply Z.eqb_neq; rewrite length_app; simpl; lia).
    apply (forEach_throws_at _ mpre manifest mpost acc w2 acc2 w3 err w5 Hmpre).
    unfold Detection.onManifest. rewrite Hparse.
    apply (forEach_throws_at _ dpre (pkgName, pkgVersion) dpost acc2 w3
             acc3 w4 err w5 Hdpre).
    unfold Detection.onPackage. rewrite Ht, Hs. cbn [negb orb].
    apply bind_throws. unfold Detection.queryGhsa. apply bind_throws.
    exact Hfetch.
  - intros ppre path eco ppost manifests w2 err w3 Hsplit Hppre Hread.
    apply (detect_throws_at_repo pre repoFull post threshold w acc w1 err w3
             Hpre).
    unfold Detection.onRepo.
    destruct (splitRepo repoFull) as [owner repo].
    cbn [fst snd] in Hppre, Hread.
    apply bind_throws. rewrite Hsplit.
    apply (forEach_throws_at _ ppre (path, eco) ppost [] w1 manifests w2
             err w3 Hppre).
    unfold Detection.onManifestPath. apply bind_throws. exact Hread.
Qed.

End DetectionFacts.

(** ** Scenarios of the Action and Detection layers *)

Section EffectScenarios.
Import Types Spec Examples.
Local Open Scope string_scope.

Local Abbreviation execute :=
  (Action.execute demoNpmUpdate Demo.showScore demoToISOString demoNow).
Local Abbreviation detect :=
  (fun flaskThrows =>
     Detection.detect noDeps demoParsePip noDeps noDeps (demoFetch flaskThrows)
                      demoNow).

(** The first plan fails at its first remote call; its result is the error
    with the message thrown, and the two plans after it get their results:
    a pull request and a skip. *)
Example execute_scenario :
  Run.tryBlock demoNpmUpdate Demo.showScore demoToISOString demoNow
               demoGithub (hd (Decision.mkPlan unreachable Decision.skip "")
                              threePlans) 0
  = (inl (Effect.mkThrown (Some "Not Found")), 1)
  /\ execute threePlans demoGithub false 0
     = (inr [mkResult "CVE-2024-20" "down/x" R_error None None
                      (Some "Not Found");
             mkResult "CVE-2024-21" "up/y" R_pr_opened (Some 4)
                      (Some "https://github.com/up/pull") None;
             mkResult "CVE-2024-11" "a/b" R_skipped None None
                      (Some "No patched version available yet")],
        5).
Proof. split; vm_compute; reflexivity. Qed.

(** A non-OK answer to the query for [flask] costs the findings of that
    package only: [requests] is still looked up, in every repository, and a
    repository without manifest still counts as scanned. *)
Example detect_scenario :
  match detect false ["up/a"; "down/b"; "up/c"] HIGH demoGithub 0 with
  | (inr result, _) =>
      Detection.reposScanned result = 3
      /\ List.map (fun e => (id e, repo e, affectedPackage e))
                  (Detection.findings result)
         = [("CVE-2024-30", "up/a", "requests");
            ("CVE-2024-30", "up/c", "requests")]
  | (inl _, _) => False
  end.
Proof. vm_compute. split; reflexivity. Qed.

(** When the advisory query for one package throws, [detect] throws as
    well: nothing is returned, neither the findings of the other packages
    and repositories nor [reposScanned]. The same holds when a manifest
    read throws. *)
Example detect_aborts_when_query_raises :
  (forall w,
      demoFetch true (ghsaEcosystem "pip") "flask" "t0ken" w
      = (inl (Effect.mkThrown (Some "fetch failed")), w + 1))
  /\ detect true ["up/a"; "up/b"] HIGH demoGithub 0
     = (inl (Effect.mkThrown (Some "fetch failed")), 7)
  /\ (forall result w',
         detect true ["up/a"; "up/b"] HIGH demoGithub 0 <> (inr result, w'))
  /\ detect false ["up/a"; "down/b"; "up/c"] HIGH rawGithub 0
     = (inl (Effect.mkThrown (Some "Not Found")), 9)
  /\ (forall result w',
         detect false ["up/a"; "down/b"; "up/c"] HIGH rawGithub 0
         <> (inr result, w')).
Proof.
  assert (H1 : detect true ["up/a"; "up/b"] HIGH demoGithub 0
               = (inl (Effect.mkThrown (Some "fetch failed")), 7))
    by (vm_compute; reflexivity).
  assert (H2 : detect false ["up/a"; "down/b"; "up/c"] HIGH rawGithub 0
               = (inl (Effect.mkThrown (Some "Not Found")), 9))
    by (vm_compute; reflexivity).
  split; [intro w; reflexivity |].
  split; [exact H1 |].
  split; [intros result w' H; rewrite H1 in H; discriminate H |].
  split; [exact H2 |].
  intros result w' H; rewrite H2 in H; discriminate H.
Qed.

(** The abort of [execute], on a code host that rejects with no value: the
    pull request of the first plan is opened, the second plan's lookup of
    the default branch rejects with [undefined], and the run throws a
    [TypeError]: the opened pull request is reported to no one and the
    third plan is not processed. *)
Lemma execute_aborts_on_nullish_rejection_witness :
  execute [reachablePlan] voidGithub false 0
  = (inr [mkResult "CVE-2024-21" "up/y" R_pr_opened (Some 3)
                   (Some "https://github.com/up/pull") None], 4)
  /\ Run.tryBlock demoNpmUpdate Demo.showScore demoToISOString demoNow
                  voidGithub voidedPlan 4
     = (inl (Effect.thrownNullish false), 5)
  /\ execute ([reachablePlan] ++ voidedPlan :: [skipPlan])%list voidGithub false 0
     = (inl (Effect.mkThrown
               (Some "Cannot read properties of undefined (reading 'message')")),
        5)
  /\ forall results w',
       execute ([reachablePlan] ++ voidedPlan :: [skipPlan])%list voidGithub false 0
       <> (inr results, w').
Proof.
  assert (Hpre :
            execute [reachablePlan] voidGithub false 0
            = (inr [mkResult "CVE-2024-21" "up/y" R_pr_opened (Some 3)
                             (Some "https://github.com/up/pull") None], 4))
    by (vm_compute; reflexivity).
  assert (Hthrow :
            Run.tryBlock demoNpmUpdate Demo.showScore demoToISOString demoNow
                         voidGithub voidedPlan 4
            = (inl (Effect.thrownNullish false), 5))
    by (vm_compute; reflexivity).
  split; [exact Hpre |]. split; [exact Hthrow |].
  exact (execute_aborts_on_nullish_rejection
           demoNpmUpdate Demo.showScore demoToISOString demoNow voidGithub
           [reachablePlan] voidedPlan [skipPlan] 0 _ 4
           (Effect.thrownNullish false) 5
           ltac:(discriminate) Hpre Hthrow).
Defined.

(** The abort of [detect], when the network fails during one query: the
    first repository has no manifest and is scanned, the second has a
    [requirements.txt], the query for its first package is answered and the
    one for its second package throws. [detect] throws the same value; the
    third repository is not scanned and no count is returned. *)
Lemma detect_aborts_when_a_call_throws_witness :
  flakyFetch (ghsaEcosystem "pip") "requests" "t0ken" 13
  = (inl (Effect.mkThrown (Some "fetch failed")), 14)
  /\ Detection.detect noDeps demoParsePip noDeps noDeps flakyFetch demoNow
       (["down/b"] ++ "up/a" :: ["up/c"])%list HIGH demoGithub 0
     = (inl (Effect.mkThrown (Some "fetch failed")), 14)
  /\ forall result w',
       Detection.detect noDeps demoParsePip noDeps noDeps flakyFetch demoNow
         (["down/b"] ++ "up/a" :: ["up/c"])%list HIGH demoGithub 0
       <> (inr result, w').
Proof.
  split; [reflexivity |].
  refine (proj1 (detect_aborts_when_a_call_throws
                   noDeps demoParsePip noDeps noDeps flakyFetch demoNow
                   demoGithub ["down/b"] "up/a" ["up/c"] HIGH 0
                   (Detection.mkAcc [] []) 6 _)
                [Detection.mkManifest "requirements.txt" "pip" "flask==1.0"]
                12 [] (Detection.mkManifest "requirements.txt" "pip"
                                            "flask==1.0") []
                (Detection.mkAcc [] []) 12
                [("flask", "1.0")] "requests" "2.0" []
                (Detection.mkAcc [] []) 13
                (Effect.mkThrown (Some "fetch failed")) 14
                _ _ _ _ _ _ _ _);
    vm_compute; reflexivity.
Defined.

End EffectScenarios.

Section RoundTripScenario.
Import Types Spec Examples.

(** The round trip on a queue of two entries, with the concrete JSON
    reading of [Demo]. *)
Lemma parseQueue_serialize_roundtrip_witness :
  wellKeyed demoQueue
  /\ Forall (survivesJson Demo.JSON_parse Demo.JSON_stringify)
            (Js.values demoQueue)
  /\ (State.parseQueue Demo.JSON_parse
        (State.serialize Demo.JSON_stringify demoQueue)
      = demoQueue
      /\ (forall lines,
            Permutation lines
              (List.map Demo.JSON_stringify (Js.values demoQueue)) ->
            sameMapping
              (State.parseQueue Demo.JSON_parse (Js.join Js.LFs lines))
              demoQueue)).
Proof.
  assert (H1 : wellKeyed demoQueue).
  { split.
    - constructor.
      + simpl. intros [H | []]. discriminate H.
      + constructor; [intros [] | constructor].
    - repeat constructor. }
  assert (H2 : Forall (survivesJson Demo.JSON_parse Demo.JSON_stringify)
                      (Js.values demoQueue)).
  { unfold survivesJson.
    repeat (apply Forall_cons;
            [split; [vm_compute; reflexivity |];
             split; [vm_compute; reflexivity |];
             split; [vm_compute; reflexivity |];
             vm_compute; discriminate |]).
    apply Forall_nil. }
  split; [exact H1 |]. split; [exact H2 |].
  exact (parseQueue_serialize_roundtrip
           Demo.JSON_parse Demo.JSON_stringify demoQueue H1 H2).
Defined.

End RoundTripScenario.

Section StateScenarios.
Import Types Spec Examples.
Local Open Scope string_scope.

Local Abbreviation parseQueue := (State.parseQueue Demo.JSON_parse).
Local Abbreviation enqueue :=
  (State.enqueue Demo.JSON_parse Demo.JSON_stringify).
Local Abbreviation update :=
  (State.update Demo.JSON_parse Demo.JSON_stringify).

(** First-write-wins on a file with a malformed line: the rescan of a
    queued vulnerability, rated differently, changes nothing; the new
    finding is appended once. *)
Example enqueue_scenario :
  let result := enqueue [rescanned; newFinding; newFinding] compactStore in
  snd result = State.mkEnqueueResult 1 2
  /\ Js.values (parseQueue (Js.nullish (fst result) EmptyString))
     = [openedLongAgo; pendingLongAgo; newFinding].
Proof. split; vm_compute; reflexivity. Qed.

(** An update that gives no pull request number or URL keeps those the entry
    had; an update for a key that is not in the store is counted and changes
    nothing. *)
Example update_scenario :
  let result :=
    update [closedByHand; notInStore] compactStore "2024-06-01T00:00:00.000Z" in
  snd result = State.mkUpdateResult 1 1
  /\ Js.values (parseQueue (Js.nullish (fst result) EmptyString))
     = [ {| id := "CVE-2024-10"; ghsaId := Some "GHSA-aaaa-bbbb-cccc";
            repo := "a/b"; ecosystem := "npm"; affectedPackage := "lodash";
            affectedVersion := "1.0.0"; patchedVersion := "2.0.0";
            severity := HIGH; cvssScore := Some (75 # 10);
            summary := "Prototype pollution";
            nvdUrl := "https://nvd.nist.gov/vuln/detail/CVE-2024-10";
            detectedAt := "2024-04-01T00:00:00.000Z"; status := S_skipped;
            prNumber := Some 12;
            prUrl := Some "https://github.com/a/b/pull/12";
            processedAt := Some "2024-06-01T00:00:00.000Z";
            skipReason := Some "won't fix" |};
         pendingLongAgo ].
Proof. split; vm_compute; reflexivity. Qed.

(** The triage scenarios of the specification under the default policy: a
    CRITICAL entry with a patch gets a pull request; without a known patch
    it is skipped for that reason. *)
Example triage_scenarios :
  List.map (fun p => (Decision.action p, Decision.reason p))
           (Decision.triage
              [pendingEntry "CVE-2024-1" "a/b" CRITICAL None "2.0.0"
                            "2024-01-01T00:00:00.000Z"]
              Decision.DEFAULT_POLICY)
  = [(Decision.open_pr, Decision.criticalReason)]
  /\ List.map (fun p => (Decision.action p, Decision.reason p))
              (Decision.triage
                 [pendingEntry "CVE-2024-1" "a/b" CRITICAL None "unknown"
                               "2024-01-01T00:00:00.000Z"]
                 Decision.DEFAULT_POLICY)
     = [(Decision.skip, "No patched version available yet")].
Proof. split; vm_compute; reflexivity. Qed.

End StateScenarios.

Section DetectionScenario.
Import Types Spec Examples.

(** The code host and the advisory database of the scenarios, when the
    query for [flask] is answered with a non-OK response, report every
    failure as a value. *)
Example demo_failuresAreValues :
  failuresAreValues demoGithub (demoFetch false) demoNow.
Proof.
  unfold failuresAreValues, neverThrows. repeat split.
  - intros owner repo path w. simpl.
    destruct (String.eqb owner "down");
      [| destruct (String.eqb path "requirements.txt")];
      eexists; eexists; reflexivity.
  - intros eco pkg tok w. unfold demoFetch.
    destruct (String.eqb pkg "flask"); eexists; eexists; reflexivity.
  - intros eco pkg tok w res w' H Hok w0. unfold demoFetch in H.
    destruct (String.eqb pkg "flask"); injection H as <- _.
    + discriminate Hok.
    + eexists; eexists; reflexivity.
  - intro w. eexists; eexists; reflexivity.
Qed.

End DetectionScenario.

(* ====================================================================== *)
(** * Properties of the code beyond the claims                             *)
(* ====================================================================== *)

(** ** Severity model *)

Section SeverityOrder.
Import Types Spec Notions.

(** X1. [meetsThreshold] is a linear order on the six severities, with
    CRITICAL meeting every threshold and every severity meeting UNKNOWN. *)
Theorem meetsThreshold_linear_order :
  (forall s, meetsThreshold s s = true)
  /\ (forall s t u,
         meetsThreshold s t = true -> meetsThreshold t u = true ->
         meetsThreshold s u = true)
  /\ (forall s t,
         meetsThreshold s t = true -> meetsThreshold t s = true -> s = t)
  /\ (forall s t, meetsThreshold s t = true \/ meetsThreshold t s = true)
  /\ (forall t, meetsThreshold CRITICAL t = true)
  /\ (forall s, meetsThreshold s UNKNOWN = true).
Proof.
  unfold meetsThreshold.
  repeat match goal with |- _ /\ _ => split end.
  - intro s. apply Z.leb_refl.
  - intros s t u H1 H2. apply Z.leb_le in H1, H2. apply Z.leb_le.
    apply Z.le_trans with (indexOf SEVERITY_ORDER t); assumption.
  - intros s t H1 H2. apply Z.leb_le in H1, H2.
    apply rank_inj. unfold rank. lia.
  - intros s t.
    destruct (Z.le_ge_cases (indexOf SEVERITY_ORDER s)
                            (indexOf SEVERITY_ORDER t)) as [H | H];
      [left | right]; apply Z.leb_le, H.
  - intro t. destruct t; reflexivity.
  - intro s. destruct s; reflexivity.
Qed.

Lemma upperChar_idempotent :
  forall c, Js.upperChar (Js.upperChar c) = Js.upperChar c.
Proof.
  intros [[] [] [] [] [] [] [] []]; vm_compute; reflexivity.
Qed.

Lemma toUpperCase_idempotent :
  forall s, Js.toUpperCase (Js.toUpperCase s) = Js.toUpperCase s.
Proof.
  unfold Js.toUpperCase. induction s as [| c s IH]; simpl.
  - reflexivity.
  - rewrite upperChar_idempotent, IH. reflexivity.
Qed.

Lemma lower_then_upper :
  forall c, Js.upperChar (Js.lowerChar c) = Js.upperChar c.
Proof.
  intros [[] [] [] [] [] [] [] []]; vm_compute; reflexivity.
Qed.

Lemma toUpperCase_toLowerCase :
  forall s, Js.toUpperCase (Js.toLowerCase s) = Js.toUpperCase s.
Proof.
  unfold Js.toUpperCase, Js.toLowerCase. induction s as [| c s IH]; simpl.
  - reflexivity.
  - rewrite lower_then_upper, IH. reflexivity.
Qed.

(** X2. [normalizeSeverity] reads the name of a severity back to it, in
    upper and in lower case. On a text of ASCII characters, where
    [toUpperCase] changes the letters a to z only, it sees its argument
    through [toUpperCase] only, and it answers UNKNOWN exactly for the
    texts that are none of CRITICAL, HIGH, MEDIUM, LOW and NONE in upper
    case. A text with a character outside ASCII is outside this statement:
    [toUpperCase] maps some of these characters to ASCII letters. *)
Theorem normalizeSeverity_reads_names :
  (forall s, normalizeSeverity (Severity_to_string s) = s)
  /\ (forall s,
         normalizeSeverity (Js.toLowerCase (Severity_to_string s)) = s)
  /\ (forall text,
         isAscii text = true ->
         normalizeSeverity (Js.toUpperCase text) = normalizeSeverity text)
  /\ (forall text,
         isAscii text = true ->
         (normalizeSeverity text = UNKNOWN
          <-> ~ In (Js.toUpperCase text) recognised))
  /\ (forall text s,
         isAscii text = true ->
         s <> UNKNOWN ->
         (normalizeSeverity text = s
          <-> Js.toUpperCase text = Severity_to_string s)).
Proof.
  assert (Hchar : forall text s,
             normalizeSeverity text = s ->
             (s <> UNKNOWN /\ Js.toUpperCase text = Severity_to_string s)
             \/ (s = UNKNOWN /\ ~ In (Js.toUpperCase text) recognised)).
  { intros text s H. unfold normalizeSeverity in H. simpl in H.
    unfold recognised. simpl. revert H.
    repeat match goal with
           | |- context [String.eqb ?a ?b] => destruct (String.eqb_spec a b)
           end; intro H; subst s;
      try (left; split; [discriminate | assumption]).
    right. split; [reflexivity |]. intuition congruence. }
  repeat match goal with |- _ /\ _ => split end.
  - intro s. destruct s; reflexivity.
  - intro s. destruct s; reflexivity.
  - intros text _. unfold normalizeSeverity.
    rewrite toUpperCase_idempotent. reflexivity.
  - intros text _. split.
    + intro H. destruct (Hchar text UNKNOWN H) as [[Hne _] | [_ Hn]];
        [contradiction | exact Hn].
    + intro Hn. destruct (normalizeSeverity text) eqn:E; try reflexivity;
        destruct (Hchar text _ E) as [[_ Hu] | [Hd _]]; try discriminate;
        exfalso; apply Hn; rewrite Hu; unfold recognised; simpl; tauto.
  - intros text s _ Hs. split.
    + intro H. destruct (Hchar text s H) as [[_ Hu] | [Hd _]];
        [exact Hu | contradiction].
    + intro Hu. unfold normalizeSeverity. rewrite Hu.
      destruct s; reflexivity.
Qed.

(** The text [High], of ASCII letters, is read as HIGH. *)
Lemma normalizeSeverity_reads_names_witness :
  (isAscii "High" = true
   /\ normalizeSeverity (Js.toUpperCase "High") = normalizeSeverity "High"
   /\ (normalizeSeverity "High" = HIGH
       <-> Js.toUpperCase "High" = "HIGH"))%string.
Proof.
  split; [reflexivity |]. split.
  - exact (proj1 (proj2 (proj2 normalizeSeverity_reads_names)) "High"%string
                 eq_refl).
  - exact (proj2 (proj2 (proj2 (proj2 normalizeSeverity_reads_names)))
                 "High"%string HIGH eq_refl ltac:(discriminate)).
Defined.

End SeverityOrder.

(** ** Decision layer *)

Section TriageLaws.
Import Types Spec Notions Decision.

Lemma StronglySorted_impl :
  forall {A : Type} (R S : A -> A -> Prop) (l : list A),
    (forall a b, R a b -> S a b) -> StronglySorted R l -> StronglySorted S l.
Proof.
  intros A R S l HRS H; induction H as [| x l _ IH Hall].
  - constructor.
  - constructor; [exact IH |].
    apply Forall_impl with (P := R x); [apply HRS | exact Hall].
Qed.

Lemma triageLoop_entries :
  forall policy sorted c,
    List.map entry (triageLoop policy sorted [] c) = sorted.
Proof.
  intros policy sorted; induction sorted as [| e rest IH]; intro c.
  - reflexivity.
  - simpl.
    repeat match goal with
           | |- context [if ?b then _ else _] => destruct b
           end;
      rewrite triageLoop_acc; simpl; rewrite IH; reflexivity.
Qed.

(** X3. [triage] makes exactly one plan for each pending entry of its input
    and none for the others; it carries the entries unchanged; and the
    plans are in order of urgency: most severe first, the higher score
    first among equals. *)
Theorem triage_plans_each_pending_once :
  forall (entries : list CveQueueEntry) (policy : TriagePolicy),
    let plans := triage entries policy in
    Permutation (List.map entry plans) (filter isPending entries)
    /\ List.length plans = List.length (filter isPending entries)
    /\ StronglySorted atLeastAsUrgent (List.map entry plans)
    /\ (forall p, In p plans ->
                  In (entry p) entries /\ status (entry p) = S_pending).
Proof.
  intros entries policy plans.
  assert (Hmap : List.map entry plans
                 = Js.sort compareEntries (filter isPending entries))
    by apply triageLoop_entries.
  assert (Hperm : Permutation (List.map entry plans)
                              (filter isPending entries))
    by (rewrite Hmap; apply sort_perm).
  split; [exact Hperm |]. split; [| split].
  - rewrite <- (length_map entry plans). apply Permutation_length, Hperm.
  - rewrite Hmap.
    apply (StronglySorted_impl (notAfter compareEntries)).
    + intros a b. apply notAfter_atLeastAsUrgent.
    + apply sort_sorted;
        [apply compareEntries_total | apply compareEntries_trans].
  - intros p Hp. apply (in_map entry) in Hp.
    apply (Permutation_in _ Hperm) in Hp. apply filter_In in Hp.
    destruct Hp as [Hin Hs]. split; [exact Hin |].
    unfold isPending in Hs. destruct (status (entry p)); try discriminate.
    reflexivity.
Qed.

Lemma triageLoop_bound :
  forall policy sorted c,
    c + Z.of_nat (List.length (filter actingb (triageLoop policy sorted [] c)))
    <= Z.max c (maxPrsPerRun policy).
Proof.
  intros policy sorted; induction sorted as [| e rest IH]; intro c.
  - simpl. lia.
  - simpl.
    destruct (Z.geb_spec c (maxPrsPerRun policy)) as [Hfull | Hroom];
      destruct (meetsThreshold (severity e) (autoPrThreshold policy));
      simpl;
      repeat match goal with
             | |- context [if ?b then _ else _] => destruct b
             end;
      rewrite triageLoop_acc; simpl;
      try (specialize (IH c); lia);
      specialize (IH (c + 1)); lia.
Qed.

(** X4. A cap that is an integer is never exceeded: whatever the entries,
    and whatever the policy with an integer for [maxPrsPerRun], [triage]
    makes at most [maxPrsPerRun] acting plans, and none when the cap is zero
    or negative. The cap of a [TriagePolicy] is an integer here; a cap that
    is a fraction or [NaN] is outside this statement. *)
Theorem triage_respects_cap :
  forall (entries : list CveQueueEntry) (policy : TriagePolicy),
    Z.of_nat (List.length (filter actingb (triage entries policy)))
    <= Z.max 0 (maxPrsPerRun policy).
Proof.
  intros entries policy. unfold triage.
  pose proof (triageLoop_bound policy
                (Js.sort compareEntries (filter isPending entries)) 0).
  lia.
Qed.

Lemma patch_check_true :
  forall policy e,
    requirePatchedVersion policy
    && (negb (Js.truthy (patchedVersion e))
        || String.eqb (patchedVersion e) "unknown") = true ->
    requirePatchedVersion policy = true /\ ~ hasKnownPatch e.
Proof.
  intros policy e H. apply andb_true_iff in H. destruct H as [Hr Hp].
  split; [exact Hr |]. intros [H1 H2].
  apply orb_true_iff in Hp. destruct Hp as [Hp | Hp].
  - unfold Js.truthy in Hp. rewrite negb_involutive in Hp.
    apply String.eqb_eq in Hp. contradiction.
  - apply String.eqb_eq in Hp. contradiction.
Qed.

Lemma patch_check_false :
  forall policy e,
    requirePatchedVersion policy
    && (negb (Js.truthy (patchedVersion e))
        || String.eqb (patchedVersion e) "unknown") = false ->
    patchOk policy e.
Proof.
  intros policy e H. unfold patchOk, hasKnownPatch.
  destruct (requirePatchedVersion policy); [| left; reflexivity].
  right. simpl in H. apply orb_false_iff in H. destruct H as [H1 H2].
  unfold Js.truthy in H1. rewrite negb_involutive in H1.
  split; apply String.eqb_neq; assumption.
Qed.

Lemma Severity_eqb_eq : forall a b, Severity_eqb a b = true <-> a = b.
Proof. destruct a, b; simpl; split; intro H; try reflexivity; discriminate. Qed.

Lemma triageLoop_justified :
  forall policy sorted c,
    Forall (justified policy) (triageLoop policy sorted [] c).
Proof.
  intros policy sorted; induction sorted as [| e rest IH]; intro c.
  - constructor.
  - simpl.
    destruct (meetsThreshold (severity e) (autoPrThreshold policy)) eqn:Hm.
    + destruct (c >=? maxPrsPerRun policy); simpl.
      * rewrite triageLoop_acc. constructor; [| apply IH].
        unfold justified; simpl. left. split; [reflexivity | exact Hm].
      * destruct (requirePatchedVersion policy && _) eqn:Hp.
        -- rewrite triageLoop_acc. constructor; [| apply IH].
           unfold justified; simpl. right; left.
           split; [reflexivity | apply patch_check_true, Hp].
        -- apply patch_check_false in Hp.
           destruct (Severity_eqb (severity e) CRITICAL) eqn:Hc;
             rewrite triageLoop_acc; (constructor; [| apply IH]);
             unfold justified; simpl; rewrite Hm.
           ++ split; [apply Severity_eqb_eq, Hc | split; [reflexivity | exact Hp]].
           ++ split; [| split; [reflexivity | exact Hp]].
              intro E. apply Severity_eqb_eq in E. congruence.
    + rewrite andb_false_r.
      destruct (requirePatchedVersion policy && _) eqn:Hp.
      * rewrite triageLoop_acc. constructor; [| apply IH].
        unfold justified; simpl. right; left.
        split; [reflexivity | apply patch_check_true, Hp].
      * apply patch_check_false in Hp. simpl.
        rewrite triageLoop_acc. constructor; [| apply IH].
        unfold justified; simpl. rewrite Hm. right; right.
        split; [reflexivity | split; [reflexivity | exact Hp]].
Qed.

(** X5. Every plan is justified by the policy. A plan acts only on an
    entry that meets the auto-PR threshold and, when the policy requires
    one, has a known patched version; it is [open_pr] exactly for a
    CRITICAL entry. A skip has one of three reasons: the cap, for an entry
    that meets the threshold; no patch, under a policy that requires one,
    for an entry without known patch; below threshold. So an entry below
    the threshold is never acted upon and never capped. *)
Theorem triage_plans_justified :
  forall (entries : list CveQueueEntry) (policy : TriagePolicy),
    Forall (justified policy) (triage entries policy).
Proof. intros entries policy. apply triageLoop_justified. Qed.

Lemma triageLoop_ignores_draftThreshold :
  forall policy d sorted plans c,
    triageLoop (withDraftThreshold policy d) sorted plans c
    = triageLoop policy sorted plans c.
Proof.
  intros policy d sorted; induction sorted as [| e rest IH]; intros plans c.
  - reflexivity.
  - cbn [triageLoop]. unfold capReason, belowReason.
    cbn [withDraftThreshold autoPrThreshold maxPrsPerRun requirePatchedVersion].
    rewrite !IH. reflexivity.
Qed.

(** X6. The draft threshold of the policy plays no part: two policies that
    differ in [draftThreshold] only give the same plans, reasons
    included. *)
Theorem triage_ignores_draftThreshold :
  forall (entries : list CveQueueEntry) (policy : TriagePolicy)
         (d : Severity),
    triage entries (withDraftThreshold policy d) = triage entries policy.
Proof.
  intros entries policy d. unfold triage.
  apply triageLoop_ignores_draftThreshold.
Qed.

Lemma insertSorted_ties :
  forall z x l,
    filter (tie z) (Js.insertSorted compareEntries x l)
    = filter (tie z) (x :: l).
Proof.
  intros z x l; induction l as [| y l IH].
  - reflexivity.
  - cbn [Js.insertSorted].
    destruct (Qle_bool (compareEntries x y) 0) eqn:Exy; [reflexivity |].
    cbn [filter] in *. rewrite IH.
    destruct (tie z x) eqn:Ezx; [| reflexivity].
    destruct (tie z y) eqn:Ezy; [| reflexivity].
    exfalso. unfold tie in Ezx, Ezy.
    apply andb_true_iff in Ezx, Ezy.
    destruct Ezx as [_ Hxz]. destruct Ezy as [Hzy _].
    pose proof (compareEntries_trans x z y Hxz Hzy) as H.
    unfold notAfter in H. congruence.
Qed.

(** X7. Ties keep the order of the input: pending entries of the same
    severity and score are planned in the order in which [triage] received
    them. *)
Theorem triage_keeps_order_of_ties :
  forall (entries : list CveQueueEntry) (policy : TriagePolicy)
         (z : CveQueueEntry),
    filter (tie z) (List.map entry (triage entries policy))
    = filter (tie z) (filter isPending entries).
Proof.
  intros entries policy z. unfold triage. rewrite triageLoop_entries.
  induction (filter isPending entries) as [| x l IH].
  - reflexivity.
  - cbn [Js.sort fold_right]. fold (Js.sort compareEntries l).
    rewrite insertSorted_ties. cbn [filter]. rewrite IH. reflexivity.
Qed.

End TriageLaws.

(** ** State layer: reading the queue file *)

Section ReadingLaws.
Import Types Spec Notions.
Import State(Queue, entryKey, queueKey).
Variable JSON_parse : string -> option CveQueueEntry.

Local Abbreviation parseLine := (State.parseLine JSON_parse).
Local Abbreviation parseQueue := (State.parseQueue JSON_parse).

Lemma parseLine_readLine :
  forall q line,
    parseLine q line = fold_left setEntry (readLine JSON_parse line) q.
Proof.
  intros q line. unfold State.parseLine, readLine.
  destruct (negb (Js.truthy (Js.trim line))); [reflexivity |].
  destruct (JSON_parse (Js.trim line)); reflexivity.
Qed.

Lemma parseLines_readable :
  forall lines q,
    fold_left parseLine lines q
    = fold_left setEntry (flat_map (readLine JSON_parse) lines) q.
Proof.
  induction lines as [| line lines IH]; intro q; simpl.
  - reflexivity.
  - rewrite fold_left_app, <- parseLine_readLine. apply IH.
Qed.

Lemma parseQueue_readable :
  forall raw,
    parseQueue raw = fold_left setEntry (readable JSON_parse raw) Js.empty.
Proof. intro raw. apply parseLines_readable. Qed.

Lemma In_setEntries :
  forall es (q : Queue) k e,
    In (k, e) (fold_left setEntry es q) -> In (k, e) q \/ In e es.
Proof.
  induction es as [| x es IH]; intros q k e H; simpl in *.
  - left; exact H.
  - destruct (IH _ _ _ H) as [Hq | Hes]; [| right; right; exact Hes].
    unfold setEntry in Hq. apply In_set in Hq.
    destruct Hq as [[_ ->] | Hq]; [right; left; reflexivity | left; exact Hq].
Qed.

(** X8. Reading is last-write-wins. The mapping [parseQueue] reads from a
    text holds, under each key, the entry of the last line that carries
    that key; blank lines and lines that do not parse count for nothing,
    and every entry of the mapping comes from a line of the text. *)
Theorem parseQueue_last_line_wins :
  forall (raw : string) (k : string),
    Js.get k (parseQueue raw) = lastWith k (readable JSON_parse raw)
    /\ (forall e, In e (Js.values (parseQueue raw)) ->
                  In e (readable JSON_parse raw)).
Proof.
  intros raw k. rewrite parseQueue_readable. split.
  - rewrite setEntries_lookup. unfold lastWith.
    destruct (find (keyIs k) (rev (readable JSON_parse raw))); reflexivity.
  - intros e He. apply in_map_iff in He. destruct He as ([k' e'] & E & Hin).
    simpl in E. subst e'.
    apply In_setEntries in Hin. destruct Hin as [[] | Hin]. exact Hin.
Qed.

Lemma split_nonempty : forall s, Js.split Js.LF s <> [].
Proof.
  induction s as [| c s IH]; simpl; [discriminate |].
  destruct (Js.isSep Js.LF c); [discriminate |].
  destruct (Js.split Js.LF s); [contradiction | discriminate].
Qed.

Lemma split_app :
  forall a b,
    Js.split Js.LF (a ++ Js.LFs ++ b)%string
    = Js.split Js.LF a ++ Js.split Js.LF b.
Proof.
  induction a as [| c a IH]; intro b.
  - reflexivity.
  - cbn [append Js.split].
    destruct (Js.isSep Js.LF c).
    + rewrite IH. reflexivity.
    + rewrite IH. pose proof (split_nonempty a) as Hne.
      destruct (Js.split Js.LF a); [contradiction | reflexivity].
Qed.

(** X9. [append] of the store capability, then a read: the mapping is the
    one read before, overridden by the appended lines; an appended line
    wins over every earlier line with its key, and over earlier appended
    lines. *)
Theorem append_then_read :
  forall (lines : list string) (state : State.Store) (k : string),
    Js.get k (parseQueue (Js.nullish (Env.append lines state) EmptyString))
    = match lastWith k (readable JSON_parse (Js.join Js.LFs lines)) with
      | Some e => Some e
      | None => Js.get k (parseQueue (Js.nullish state EmptyString))
      end.
Proof.
  intros lines state k. unfold Env.append. cbn [Js.nullish].
  assert (Hnew : forall raw,
             Js.get k (fold_left setEntry
                         (readable JSON_parse (Js.join Js.LFs lines))
                         (parseQueue raw))
             = match lastWith k (readable JSON_parse (Js.join Js.LFs lines))
               with
               | Some e => Some e
               | None => Js.get k (parseQueue raw)
               end).
  { intro raw. apply setEntries_lookup. }
  destruct state as [existing |].
  - destruct (Js.truthy existing) eqn:Et.
    + rewrite <- Hnew. f_equal. unfold State.parseQueue.
      rewrite split_app, fold_left_app.
      apply parseLines_readable.
    + unfold Js.truthy in Et. apply negb_false_iff, String.eqb_eq in Et.
      subst existing. rewrite <- Hnew. f_equal. apply parseQueue_readable.
  - rewrite <- Hnew. f_equal. apply parseQueue_readable.
Qed.

End ReadingLaws.

(** ** State layer: [list] *)

Section ListLaws.
Import Types Spec Notions.
Variable JSON_parse : string -> option CveQueueEntry.

Local Abbreviation parseQueue := (State.parseQueue JSON_parse).

Lemma list_unfold :
  forall state opts,
    State.list JSON_parse state opts
    = State.mkListResult
        (Z.of_nat
           (List.length
              (Js.sort Decision.compareEntries
                 (filter (State.listFilter opts)
                    (Js.values (parseQueue (Js.nullish state EmptyString)))))))
        (State.slice0 (Js.nullish (State.o_limit opts) 50)
           (Js.sort Decision.compareEntries
              (filter (State.listFilter opts)
                 (Js.values (parseQueue (Js.nullish state EmptyString)))))).
Proof.
  intros state opts. unfold State.list.
  destruct state as [raw |].
  - destruct (negb (Js.truthy raw)) eqn:E; [| reflexivity].
    unfold Js.truthy in E. rewrite negb_involutive in E.
    apply String.eqb_eq in E. subst raw. simpl.
    unfold State.slice0. destruct (0 <=? _); rewrite firstn_nil; reflexivity.
  - simpl. unfold State.slice0. destruct (0 <=? _); rewrite ?firstn_nil; reflexivity.
Qed.

Lemma slice0_prefix :
  forall {A : Type} limit (l : list A),
    exists n, State.slice0 limit l = firstn n l
              /\ Z.of_nat (List.length (firstn n l))
                 = sliceLength limit (Z.of_nat (List.length l)).
Proof.
  intros A limit l. unfold State.slice0, sliceLength.
  destruct (Z.leb_spec 0 limit) as [H | H].
  - exists (Z.to_nat limit). split; [reflexivity |].
    rewrite length_firstn. lia.
  - exists (Z.to_nat (Z.of_nat (List.length l) + limit)).
    split; [reflexivity |]. rewrite length_firstn. lia.
Qed.

Lemma StronglySorted_firstn :
  forall {A : Type} (R : A -> A -> Prop) n (l : list A),
    StronglySorted R l -> StronglySorted R (firstn n l).
Proof.
  intros A R n; induction n as [| n IH]; intros l H.
  - constructor.
  - destruct l as [| x l]; [constructor |].
    apply StronglySorted_inv in H. destruct H as [Hs Hall]. simpl.
    constructor; [apply IH, Hs |].
    apply Forall_forall. intros y Hy. apply firstn_In in Hy.
    rewrite Forall_forall in Hall. apply Hall, Hy.
Qed.

(** X10. What [list] returns. [total] counts the entries of the store that
    pass the filters, before truncation. The entries returned are the most
    urgent of them: a prefix of the matches in order of urgency, of the
    length [slice(0, limit)] gives (the limit is 50 when none is given; a
    negative limit drops that many from the end). Every entry returned is
    in the store and passes the filters. A missing or empty file gives
    nothing. *)
Theorem list_returns_most_urgent_matches :
  forall (state : State.Store) (opts : State.ListOpts),
    let r := State.list JSON_parse state opts in
    let matches :=
      filter (State.listFilter opts)
             (Js.values (parseQueue (Js.nullish state EmptyString))) in
    State.total r = Z.of_nat (List.length matches)
    /\ (exists rest,
           Js.sort Decision.compareEntries matches = State.entries r ++ rest)
    /\ Z.of_nat (List.length (State.entries r))
       = sliceLength (Js.nullish (State.o_limit opts) 50) (State.total r)
    /\ StronglySorted atLeastAsUrgent (State.entries r)
    /\ Forall (fun e => In e matches) (State.entries r).
Proof.
  intros state opts r matches. unfold r. rewrite list_unfold. fold matches.
  cbn [State.total State.entries].
  destruct (slice0_prefix (Js.nullish (State.o_limit opts) 50)
              (Js.sort Decision.compareEntries matches))
    as (n & Hslice & Hlen).
  rewrite Hslice.
  assert (Hperm : Permutation (Js.sort Decision.compareEntries matches) matches)
    by apply sort_perm.
  split; [| split; [| split; [| split]]].
  - f_equal. apply Permutation_length, Hperm.
  - exists (skipn n (Js.sort Decision.compareEntries matches)).
    symmetry. apply firstn_skipn.
  - exact Hlen.
  - apply StronglySorted_firstn.
    apply (StronglySorted_impl (notAfter Decision.compareEntries)).
    + intros a b. apply notAfter_atLeastAsUrgent.
    + apply sort_sorted;
        [apply compareEntries_total | apply compareEntries_trans].
  - apply Forall_forall. intros e He. apply firstn_In in He.
    apply (Permutation_in _ Hperm He).
Qed.

End ListLaws.

(** ** State layer: [enqueue], call after call *)

Section EnqueueLaws.
Import Types Spec Notions.
Import State(Queue, entryKey, queueKey).
Variable JSON_parse : string -> option CveQueueEntry.
Variable JSON_stringify : CveQueueEntry -> string.

Local Abbreviation parseQueue := (State.parseQueue JSON_parse).
Local Abbreviation serialize := (State.serialize JSON_stringify).
Local Abbreviation enqueue := (State.enqueue JSON_parse JSON_stringify).
Local Abbreviation survives := (survivesJson JSON_parse JSON_stringify).

Lemma read_back :
  forall m : Queue,
    wellKeyed m -> Forall survives (Js.values m) ->
    parseQueue (serialize m) = m.
Proof.
  intros m Hwk Hall. unfold State.serialize.
  rewrite (parseQueue_lines JSON_parse JSON_stringify) by exact Hall.
  apply (setEntries_rebuild m []). exact Hwk.
Qed.

Lemma enqueueLoop_shift :
  forall batch (q : Queue) a d,
    State.enqueueLoop batch q a d
    = (loopQueue (State.enqueueLoop batch q 0 0),
       a + loopFirst (State.enqueueLoop batch q 0 0),
       d + loopSecond (State.enqueueLoop batch q 0 0)).
Proof.
  induction batch as [| e batch IH]; intros q a d.
  - simpl. unfold loopQueue, loopFirst, loopSecond. simpl.
    rewrite !Z.add_0_r. reflexivity.
  - cbn [State.enqueueLoop].
    destruct (Js.has (entryKey e) q).
    + pose proof (IH q a (d + 1)) as H1. pose proof (IH q 0 (0 + 1)) as H2.
      destruct (State.enqueueLoop batch q 0 0) as [[q0 a0] d0].
      rewrite H1, H2. unfold loopQueue, loopFirst, loopSecond. cbn [fst snd].
      apply f_equal2; [apply f_equal2; [reflexivity | lia] | lia].
    + pose proof (IH (Js.set (entryKey e) e q) (a + 1) d) as H1.
      pose proof (IH (Js.set (entryKey e) e q) (0 + 1) 0) as H2.
      destruct (State.enqueueLoop batch (Js.set (entryKey e) e q) 0 0)
        as [[q0 a0] d0].
      rewrite H1, H2. unfold loopQueue, loopFirst, loopSecond. cbn [fst snd].
      apply f_equal2; [apply f_equal2; [reflexivity | lia] | lia].
Qed.

Lemma enqueueLoop_app :
  forall b1 b2 (q : Queue) a d,
    State.enqueueLoop (b1 ++ b2) q a d
    = State.enqueueLoop b2
        (loopQueue (State.enqueueLoop b1 q a d))
        (loopFirst (State.enqueueLoop b1 q a d))
        (loopSecond (State.enqueueLoop b1 q a d)).
Proof.
  induction b1 as [| e b1 IH]; intros b2 q a d.
  - reflexivity.
  - cbn [app State.enqueueLoop].
    destruct (Js.has (entryKey e) q); apply IH.
Qed.

Lemma enqueueLoop_all_present :
  forall batch (q : Queue) a d,
    Forall (fun e => Js.has (entryKey e) q = true) batch ->
    State.enqueueLoop batch q a d
    = (q, a, d + Z.of_nat (List.length batch)).
Proof.
  induction batch as [| e batch IH]; intros q a d Hall.
  - simpl. rewrite Z.add_0_r. reflexivity.
  - inversion Hall as [| ? ? He Hrest]; subst.
    cbn [State.enqueueLoop]. rewrite He, IH by exact Hrest.
    cbn [List.length]. f_equal. lia.
Qed.

Lemma enqueueLoop_values :
  forall batch (q : Queue) a d e,
    wellKeyed q ->
    In e (Js.values (loopQueue (State.enqueueLoop batch q a d))) ->
    In e (Js.values q) \/ In e batch.
Proof.
  intros batch q a d e Hwk Hin.
  pose proof (enqueueLoop_wellKeyed batch q a d Hwk) as Hwk'.
  assert (Hget : Js.get (entryKey e)
                   (loopQueue (State.enqueueLoop batch q a d)) = Some e).
  { apply get_wellKeyed_iff; [exact Hwk' |]. split; [exact Hin | reflexivity]. }
  rewrite enqueueLoop_lookup in Hget.
  destruct (Js.get (entryKey e) q) as [e0 |] eqn:Hq.
  - injection Hget as ->. left.
    apply get_Some_In in Hq. apply (in_map snd) in Hq. exact Hq.
  - right. apply find_some in Hget. apply Hget.
Qed.

Lemma enqueueLoop_covers :
  forall batch (q : Queue) a d e,
    In e batch ->
    Js.has (entryKey e) (loopQueue (State.enqueueLoop batch q a d)) = true.
Proof.
  intros batch q a d e Hin. unfold Js.has.
  rewrite enqueueLoop_lookup.
  destruct (Js.get (entryKey e) q); [reflexivity |].
  destruct (find (keyIs (entryKey e)) batch) eqn:Hf; [reflexivity |].
  exfalso. apply (find_none _ _ Hf e) in Hin.
  unfold keyIs in Hin. rewrite String.eqb_refl in Hin. discriminate.
Qed.

(** X11. [enqueue] call after call. When the entries of the store and of
    the first batch are JSON data, two calls in a row leave the store that
    one call with the two batches, one after the other, leaves, and their
    counts add up. A batch enqueued a second time changes nothing: none of
    its entries is added, all are counted as duplicates, and the store is
    rewritten as it was. *)
Theorem enqueue_call_after_call :
  forall (b1 b2 : list CveQueueEntry) (state : State.Store),
    Forall survives
           (Js.values (parseQueue (Js.nullish state EmptyString))) ->
    Forall survives b1 ->
    let first := enqueue b1 state in
    let second := enqueue b2 (fst first) in
    let both := enqueue (b1 ++ b2) state in
    fst second = fst both
    /\ State.added (snd both)
       = State.added (snd first) + State.added (snd second)
    /\ State.duplicates (snd both)
       = State.duplicates (snd first) + State.duplicates (snd second)
    /\ enqueue b1 (fst first)
       = (fst first,
          State.mkEnqueueResult 0 (Z.of_nat (List.length b1))).
Proof.
  intros b1 b2 state Hstore Hb1 first second both.
  set (q := parseQueue (Js.nullish state EmptyString)) in *.
  set (q1 := loopQueue (State.enqueueLoop b1 q 0 0)).
  assert (Hwk : wellKeyed q) by apply parseQueue_wellKeyed.
  assert (Hwk1 : wellKeyed q1) by (apply enqueueLoop_wellKeyed, Hwk).
  assert (Hback : parseQueue (serialize q1) = q1).
  { apply read_back; [exact Hwk1 |].
    apply Forall_forall. intros e He.
    apply enqueueLoop_values in He; [| exact Hwk].
    destruct He as [He | He];
      [rewrite Forall_forall in Hstore; apply Hstore, He
      | rewrite Forall_forall in Hb1; apply Hb1, He]. }
  assert (Hfirst : first
                   = (Some (serialize q1),
                      State.mkEnqueueResult
                        (loopFirst (State.enqueueLoop b1 q 0 0))
                        (loopSecond (State.enqueueLoop b1 q 0 0))))
    by apply enqueue_unfold.
  assert (Hsecond : forall b,
             enqueue b (fst first)
             = (Some (serialize (loopQueue (State.enqueueLoop b q1 0 0))),
                State.mkEnqueueResult
                  (loopFirst (State.enqueueLoop b q1 0 0))
                  (loopSecond (State.enqueueLoop b q1 0 0)))).
  { intro b. rewrite enqueue_unfold, Hfirst. cbn [fst Js.nullish].
    rewrite Hback. reflexivity. }
  assert (Hboth : State.enqueueLoop (b1 ++ b2) q 0 0
                  = (loopQueue (State.enqueueLoop b2 q1 0 0),
                     loopFirst (State.enqueueLoop b1 q 0 0)
                     + loopFirst (State.enqueueLoop b2 q1 0 0),
                     loopSecond (State.enqueueLoop b1 q 0 0)
                     + loopSecond (State.enqueueLoop b2 q1 0 0))).
  { rewrite enqueueLoop_app. fold q1. apply enqueueLoop_shift. }
  assert (Hlast : both
                  = (Some (serialize
                             (loopQueue (State.enqueueLoop b2 q1 0 0))),
                     State.mkEnqueueResult
                       (loopFirst (State.enqueueLoop b1 q 0 0)
                        + loopFirst (State.enqueueLoop b2 q1 0 0))
                       (loopSecond (State.enqueueLoop b1 q 0 0)
                        + loopSecond (State.enqueueLoop b2 q1 0 0)))).
  { unfold both. rewrite enqueue_unfold. fold q. rewrite Hboth.
    reflexivity. }
  split; [| split; [| split]].
  - unfold second. rewrite (Hsecond b2), Hlast. reflexivity.
  - unfold second. rewrite (Hsecond b2), Hlast, Hfirst. reflexivity.
  - unfold second. rewrite (Hsecond b2), Hlast, Hfirst. reflexivity.
  - rewrite (Hsecond b1), enqueueLoop_all_present.
    + rewrite Hfirst. reflexivity.
    + apply Forall_forall. intros e He. apply enqueueLoop_covers, He.
Qed.

End EnqueueLaws.

Section EnqueueLawsScenario.
Import Types Spec Notions Examples.

(** A rescan and a second scan on the store of the scenarios. *)
Lemma enqueue_call_after_call_witness :
  Forall (survivesJson Demo.JSON_parse Demo.JSON_stringify)
         (Js.values (State.parseQueue Demo.JSON_parse
                       (Js.nullish compactStore EmptyString)))
  /\ Forall (survivesJson Demo.JSON_parse Demo.JSON_stringify) firstBatch
  /\ (let first :=
        State.enqueue Demo.JSON_parse Demo.JSON_stringify firstBatch
                      compactStore in
      let second :=
        State.enqueue Demo.JSON_parse Demo.JSON_stringify secondBatch
                      (fst first) in
      let both :=
        State.enqueue Demo.JSON_parse Demo.JSON_stringify
                      (firstBatch ++ secondBatch) compactStore in
      fst second = fst both
      /\ State.added (snd both)
         = State.added (snd first) + State.added (snd second)
      /\ State.duplicates (snd both)
         = State.duplicates (snd first) + State.duplicates (snd second)
      /\ State.enqueue Demo.JSON_parse Demo.JSON_stringify firstBatch
                       (fst first)
         = (fst first,
            State.mkEnqueueResult 0 (Z.of_nat (List.length firstBatch)))).
Proof.
  assert (H1 : Forall (survivesJson Demo.JSON_parse Demo.JSON_stringify)
                 (Js.values (State.parseQueue Demo.JSON_parse
                               (Js.nullish compactStore EmptyString)))).
  { replace (Js.values (State.parseQueue Demo.JSON_parse
                          (Js.nullish compactStore EmptyString)))
      with [openedLongAgo; pendingLongAgo] by (vm_compute; reflexivity).
    unfold survivesJson.
    repeat (apply Forall_cons;
            [split; [vm_compute; reflexivity |];
             split; [vm_compute; reflexivity |];
             split; [vm_compute; reflexivity |];
             vm_compute; discriminate |]).
    apply Forall_nil. }
  assert (H2 : Forall (survivesJson Demo.JSON_parse Demo.JSON_stringify)
                      firstBatch).
  { unfold survivesJson, firstBatch.
    repeat (apply Forall_cons;
            [split; [vm_compute; reflexivity |];
             split; [vm_compute; reflexivity |];
             split; [vm_compute; reflexivity |];
             vm_compute; discriminate |]).
    apply Forall_nil. }
  split; [exact H1 |]. split; [exact H2 |].
  exact (enqueue_call_after_call Demo.JSON_parse Demo.JSON_stringify
           firstBatch secondBatch compactStore H1 H2).
Defined.

End EnqueueLawsScenario.

(** ** Records of counts *)

Section Tallies.
Import Types Spec Notions.

Lemma countOf_setCount_eq :
  forall s n c, State.countOf s (State.setCount s n c) = Some n.
Proof.
  intros s n c; induction c as [| [s' n'] c IH]; simpl.
  - replace (Status_eqb s s) with true
      by (symmetry; apply Status_eqb_eq; reflexivity).
    reflexivity.
  - destruct (Status_eqb s s') eqn:E; simpl; rewrite E; [reflexivity | exact IH].
Qed.

Lemma countOf_setCount_neq :
  forall s s' n c,
    s <> s' -> State.countOf s' (State.setCount s n c) = State.countOf s' c.
Proof.
  intros s s' n c Hne; induction c as [| [s0 n0] c IH]; simpl.
  - destruct (Status_eqb s' s) eqn:E; [| reflexivity].
    apply Status_eqb_eq in E. congruence.
  - destruct (Status_eqb s s0) eqn:E; simpl.
    + apply Status_eqb_eq in E. subst s0.
      destruct (Status_eqb s' s) eqn:E'; [| reflexivity].
      apply Status_eqb_eq in E'. congruence.
    + rewrite IH. reflexivity.
Qed.

Lemma sumCounts_setCount :
  forall s n c,
    sumCounts (State.setCount s n c)
    = sumCounts c - Js.nullish (State.countOf s c) 0 + n.
Proof.
  intros s n c; induction c as [| [s' n'] c IH]; unfold sumCounts in *; simpl.
  - lia.
  - destruct (Status_eqb s s') eqn:E; simpl in *; lia.
Qed.

Lemma countOf_tallyOf :
  forall ss c s,
    State.countOf s (tallyOf ss c)
    = if occurrences s ss =? 0 then State.countOf s c
      else Some (Js.nullish (State.countOf s c) 0 + occurrences s ss).
Proof.
  induction ss as [| x ss IH]; intros c s.
  - reflexivity.
  - unfold tallyOf in *. cbn [fold_left]. rewrite IH.
    unfold occurrences. cbn [filter].
    destruct (Status_eqb s x) eqn:E.
    + apply Status_eqb_eq in E. subst x. unfold bump.
      rewrite countOf_setCount_eq. cbn [List.length Js.nullish].
      destruct (Z.eqb_spec (Z.of_nat (List.length (filter (Status_eqb s) ss))) 0)
        as [H0 | H0];
        destruct (Z.eqb_spec
                    (Z.of_nat (S (List.length (filter (Status_eqb s) ss)))) 0)
        as [H1 | H1]; try lia; f_equal; lia.
    + unfold bump. rewrite countOf_setCount_neq; [reflexivity |].
      intro Heq. subst x.
      assert (Status_eqb s s = true) by (apply Status_eqb_eq; reflexivity).
      congruence.
Qed.

Lemma sumCounts_tallyOf :
  forall ss c,
    sumCounts (tallyOf ss c) = sumCounts c + Z.of_nat (List.length ss).
Proof.
  induction ss as [| x ss IH]; intro c.
  - simpl. lia.
  - unfold tallyOf in *. cbn [fold_left List.length]. rewrite IH.
    unfold bump. rewrite sumCounts_setCount. lia.
Qed.

Lemma filter_split_length :
  forall {A : Type} (f : A -> bool) (l : list A),
    (List.length (filter f l)
     + List.length (filter (fun x => negb (f x)) l))%nat
    = List.length l.
Proof.
  intros A f l; induction l as [| x l IH]; simpl; [reflexivity |].
  destruct (f x); simpl; lia.
Qed.

Lemma filter_same_length :
  forall {A : Type} (f : A -> bool) (l : list A),
    List.length (filter f l) = List.length l -> filter f l = l.
Proof.
  intros A f l; induction l as [| x l IH]; simpl; intro H; [reflexivity |].
  destruct (f x); simpl in H.
  - f_equal. apply IH. lia.
  - pose proof (filter_length_le f l). lia.
Qed.

Lemma filter_filter_implied :
  forall {A : Type} (f g : A -> bool) (l : list A),
    (forall x, g x = true -> f x = true) ->
    filter g (filter f l) = filter g l.
Proof.
  intros A f g l H; induction l as [| x l IH]; simpl; [reflexivity |].
  destruct (f x) eqn:Ef; simpl.
  - rewrite IH. reflexivity.
  - rewrite IH. destruct (g x) eqn:Eg; [| reflexivity].
    apply H in Eg. congruence.
Qed.

End Tallies.

(** ** State layer: what [compact] reports, and compaction again *)

Section CompactLaws.
Import Types Spec Notions.
Import State(Queue, entryKey, queueKey).
Variable JSON_parse : string -> option CveQueueEntry.
Variable JSON_stringify : CveQueueEntry -> string.
Variable Date_getTime : string -> option Z.

Local Abbreviation parseQueue := (State.parseQueue JSON_parse).
Local Abbreviation serialize := (State.serialize JSON_stringify).
Local Abbreviation compactLoop := (State.compactLoop Date_getTime).
Local Abbreviation compact :=
  (State.compact JSON_parse JSON_stringify Date_getTime).
Local Abbreviation survives := (survivesJson JSON_parse JSON_stringify).
Local Abbreviation keeps := (kept Date_getTime).

Lemma compactLoop_tally :
  forall cutoff (todo queue : Queue) counts,
    snd (compactLoop todo cutoff queue counts)
    = tallyOf (goneStatuses Date_getTime cutoff todo) counts.
Proof.
  intros cutoff todo; induction todo as [| [k e] todo IH];
    intros queue counts.
  - reflexivity.
  - cbn [State.compactLoop]. unfold goneStatuses, gone, kept in *.
    cbn [filter snd].
    destruct (Status_eqb (status e) S_pending) eqn:Ep; cbn [orb negb].
    + apply IH.
    + destruct (State.expired Date_getTime cutoff e) eqn:Ex; cbn [negb].
      * rewrite IH. reflexivity.
      * apply IH.
Qed.

Lemma compact_unfold :
  forall state retentionDays nowMs,
    let q := parseQueue (Js.nullish state EmptyString) in
    let cutoff := cutoffOf retentionDays nowMs in
    let q' := filter (keeps cutoff) q in
    compact state retentionDays nowMs
    = ((if Js.size q - Js.size q' >? 0 then Some (serialize q') else state),
       State.mkCompactResult (Js.size q) (Js.size q')
         (Js.size q - Js.size q')
         (tallyOf (goneStatuses Date_getTime cutoff q) [])).
Proof.
  intros state retentionDays nowMs q cutoff q'.
  unfold State.compact.
  destruct state as [raw |]; [| reflexivity].
  destruct (negb (Js.truthy raw)) eqn:Eraw.
  - unfold Js.truthy in Eraw. rewrite negb_involutive in Eraw.
    apply String.eqb_eq in Eraw. subst raw. reflexivity.
  - simpl Js.nullish in q. fold q. unfold cutoffOf in cutoff. fold cutoff.
    pose proof (compactLoop_filter Date_getTime cutoff q [] []
                  (proj1 (parseQueue_wellKeyed JSON_parse _))) as Hq.
    pose proof (compactLoop_tally cutoff q q []) as Hc.
    simpl app in Hq.
    destruct (State.compactLoop Date_getTime q cutoff q []) as [q1 counts1].
    simpl in Hq, Hc. subst q1 counts1. reflexivity.
Qed.

Lemma removed_is_gone :
  forall cutoff (q : Queue),
    Js.size q - Js.size (filter (keeps cutoff) q)
    = Z.of_nat (List.length (gone Date_getTime cutoff q)).
Proof.
  intros cutoff q. rewrite !size_length. unfold gone.
  pose proof (filter_split_length (keeps cutoff) q). lia.
Qed.

(** X12. What [compact] reports. [byStatus] has one member for each status
    that at least one removed entry had, holding the number of removed
    entries of that status, and no member for any other status; it never
    has a member for [pending]. Its counts add up to [removed], which is
    the number of entries taken away, and [before] is [after] plus
    [removed]. *)
Theorem compact_reports_removed_by_status :
  forall (state : State.Store) (retentionDays : option Z) (nowMs : Z),
    let q := parseQueue (Js.nullish state EmptyString) in
    let cutoff := cutoffOf retentionDays nowMs in
    let r := snd (compact state retentionDays nowMs) in
    (forall s,
        State.countOf s (State.byStatus r)
        = reported (occurrences s (goneStatuses Date_getTime cutoff q)))
    /\ State.countOf S_pending (State.byStatus r) = None
    /\ sumCounts (State.byStatus r) = State.removed r
    /\ State.removed r
       = Z.of_nat (List.length (gone Date_getTime cutoff q))
    /\ State.before r = State.after r + State.removed r.
Proof.
  intros state retentionDays nowMs q cutoff r.
  unfold r. rewrite compact_unfold. fold q. fold cutoff.
  cbn [snd State.byStatus State.removed State.before State.after].
  assert (Hcount : forall s,
             State.countOf s
               (tallyOf (goneStatuses Date_getTime cutoff q) [])
             = reported (occurrences s (goneStatuses Date_getTime cutoff q))).
  { intro s. rewrite countOf_tallyOf. unfold reported. cbn [State.countOf].
    destruct (_ =? 0); [reflexivity |]. reflexivity. }
  split; [exact Hcount |]. split; [| split; [| split]].
  - rewrite Hcount. unfold reported, occurrences, goneStatuses, gone.
    rewrite filter_none; [reflexivity |].
    apply Forall_forall. intros s Hs. apply in_map_iff in Hs.
    destruct Hs as ([k e] & <- & Hin). apply filter_In in Hin.
    destruct Hin as [_ Hk]. unfold kept in Hk. cbn [snd] in *.
    destruct (status e); simpl in *; try reflexivity; discriminate.
  - rewrite sumCounts_tallyOf, removed_is_gone.
    unfold goneStatuses. rewrite length_map. reflexivity.
  - apply removed_is_gone.
  - lia.
Qed.

Lemma keeps_later :
  forall c1 c2 kv, c1 <= c2 -> keeps c2 kv = true -> keeps c1 kv = true.
Proof.
  intros c1 c2 [k e] Hle. unfold kept, State.expired. cbn [snd].
  destruct (Status_eqb (status e) S_pending); [reflexivity |]. cbn [orb].
  destruct (Js.truthy _); [| reflexivity]. cbn [andb].
  destruct (Date_getTime _) as [t |]; [| reflexivity].
  rewrite !negb_true_iff, !Z.ltb_ge. lia.
Qed.

Lemma wellKeyed_filter :
  forall (f : string * CveQueueEntry -> bool) (q : Queue),
    wellKeyed q -> wellKeyed (filter f q).
Proof.
  intros f q [Hnd Hall]. split.
  - apply keys_filter_NoDup, Hnd.
  - apply Forall_forall. intros kv Hin. apply filter_In in Hin.
    rewrite Forall_forall in Hall. apply Hall, Hin.
Qed.

(** X13. Compaction again. When the entries of the store are JSON data,
    compacting and then compacting again at a later time (with the same
    retention) leaves the store that one compaction at the later time
    leaves, removes in the two runs together what that one compaction
    removes, and ends with the same number of entries. Compacting again
    at the same time removes nothing and leaves the store as it is. *)
Theorem compact_again_later :
  forall (state : State.Store) (retentionDays : option Z) (now1 now2 : Z),
    Forall survives
           (Js.values (parseQueue (Js.nullish state EmptyString))) ->
    now1 <= now2 ->
    let first := compact state retentionDays now1 in
    let second := compact (fst first) retentionDays now2 in
    let once := compact state retentionDays now2 in
    fst second = fst once
    /\ State.removed (snd once)
       = State.removed (snd first) + State.removed (snd second)
    /\ State.after (snd second) = State.after (snd once)
    /\ compact (fst first) retentionDays now1
       = (fst first,
          State.mkCompactResult (State.after (snd first))
            (State.after (snd first)) 0 []).
Proof.
  intros state retentionDays now1 now2 Hstore Hle first second once.
  set (q := parseQueue (Js.nullish state EmptyString)) in *.
  set (c1 := cutoffOf retentionDays now1).
  set (c2 := cutoffOf retentionDays now2).
  set (q1 := filter (keeps c1) q).
  set (q2 := filter (keeps c2) q).
  assert (Hc : c1 <= c2) by (unfold c1, c2, cutoffOf; lia).
  assert (Hwk : wellKeyed q) by apply parseQueue_wellKeyed.
  assert (Hfirst : first
                   = ((if Js.size q - Js.size q1 >? 0
                       then Some (serialize q1) else state),
                      State.mkCompactResult (Js.size q) (Js.size q1)
                        (Js.size q - Js.size q1)
                        (tallyOf (goneStatuses Date_getTime c1 q) [])))
    by apply compact_unfold.
  assert (Hsize : forall c (m : Queue),
             0 <= Js.size m - Js.size (filter (keeps c) m)).
  { intros c m. rewrite removed_is_gone. lia. }
  assert (Hsame : forall c (m : Queue),
             Js.size m - Js.size (filter (keeps c) m) = 0 ->
             filter (keeps c) m = m).
  { intros c m H. apply filter_same_length. rewrite !size_length in H. lia. }
  assert (Hread : parseQueue (Js.nullish (fst first) EmptyString) = q1).
  { rewrite Hfirst. cbn [fst].
    destruct (Z.gtb_spec (Js.size q - Js.size q1) 0) as [Hpos | Hzero].
    - cbn [Js.nullish]. apply (read_back JSON_parse JSON_stringify).
      + apply wellKeyed_filter, Hwk.
      + apply Forall_forall. intros e He. unfold q1 in He.
        apply in_map_iff in He. destruct He as (kv & <- & Hin).
        apply filter_In in Hin. rewrite Forall_forall in Hstore.
        apply Hstore. apply in_map, Hin.
    - fold q. symmetry. apply Hsame. specialize (Hsize c1 q).
      fold q1 in Hsize. fold q1. lia. }
  assert (Hagain : forall now c,
             c = cutoffOf retentionDays now ->
             compact (fst first) retentionDays now
             = ((if Js.size q1 - Js.size (filter (keeps c) q1) >? 0
                 then Some (serialize (filter (keeps c) q1))
                 else fst first),
                State.mkCompactResult (Js.size q1)
                  (Js.size (filter (keeps c) q1))
                  (Js.size q1 - Js.size (filter (keeps c) q1))
                  (tallyOf (goneStatuses Date_getTime c q1) []))).
  { intros now c ->. rewrite compact_unfold, Hread. reflexivity. }
  assert (H12 : filter (keeps c2) q1 = q2).
  { unfold q1, q2. apply filter_filter_implied.
    intros kv. apply keeps_later, Hc. }
  assert (H11 : filter (keeps c1) q1 = q1).
  { unfold q1. apply filter_filter_implied. intros kv H. exact H. }
  assert (Honce : once
                  = ((if Js.size q - Js.size q2 >? 0
                      then Some (serialize q2) else state),
                     State.mkCompactResult (Js.size q) (Js.size q2)
                       (Js.size q - Js.size q2)
                       (tallyOf (goneStatuses Date_getTime c2 q) [])))
    by apply compact_unfold.
  pose proof (Hsize c1 q) as Hn1. fold q1 in Hn1.
  pose proof (Hsize c2 q1) as Hn2. rewrite H12 in Hn2.
  split; [| split; [| split]].
  - unfold second. rewrite (Hagain now2 c2 eq_refl), H12, Honce. cbn [fst].
    destruct (Z.gtb_spec (Js.size q1 - Js.size q2) 0) as [Hpos | Hzero].
    + destruct (Z.gtb_spec (Js.size q - Js.size q2) 0); [reflexivity | lia].
    + assert (Heq : q2 = q1).
      { rewrite <- H12. apply Hsame. rewrite H12. lia. }
      rewrite Hfirst, Heq. reflexivity.
  - unfold second. rewrite (Hagain now2 c2 eq_refl), H12, Honce, Hfirst.
    cbn [snd State.removed]. lia.
  - unfold second. rewrite (Hagain now2 c2 eq_refl), H12, Honce.
    reflexivity.
  - rewrite (Hagain now1 c1 eq_refl), H11.
    rewrite Z.sub_diag. cbn [Z.gtb Z.compare].
    assert (Hafter : State.after (snd first) = Js.size q1)
      by (rewrite Hfirst; reflexivity).
    rewrite Hafter. unfold goneStatuses, gone.
    rewrite filter_none; [reflexivity |].
    apply Forall_forall. intros kv Hin. unfold q1 in Hin.
    apply filter_In in Hin. destruct Hin as [_ Hk]. rewrite Hk. reflexivity.
Qed.

End CompactLaws.

Section CompactLawsScenario.
Import Types Spec Notions Examples.

(** The store of the scenarios compacted on the first of June, and again a
    hundred days later. *)
Lemma compact_again_later_witness :
  Forall (survivesJson Demo.JSON_parse Demo.JSON_stringify)
         (Js.values (State.parseQueue Demo.JSON_parse
                       (Js.nullish compactStore EmptyString)))
  /\ juneFirst <= juneFirst + 8640000000
  /\ (let first :=
        State.compact Demo.JSON_parse Demo.JSON_stringify Demo.Date_getTime
                      compactStore (Some 30) juneFirst in
      let second :=
        State.compact Demo.JSON_parse Demo.JSON_stringify Demo.Date_getTime
                      (fst first) (Some 30) (juneFirst + 8640000000) in
      let once :=
        State.compact Demo.JSON_parse Demo.JSON_stringify Demo.Date_getTime
                      compactStore (Some 30) (juneFirst + 8640000000) in
      fst second = fst once
      /\ State.removed (snd once)
         = State.removed (snd first) + State.removed (snd second)
      /\ State.after (snd second) = State.after (snd once)
      /\ State.compact Demo.JSON_parse Demo.JSON_stringify Demo.Date_getTime
                       (fst first) (Some 30) juneFirst
         = (fst first,
            State.mkCompactResult (State.after (snd first))
              (State.after (snd first)) 0 [])).
Proof.
  assert (H1 : Forall (survivesJson Demo.JSON_parse Demo.JSON_stringify)
                 (Js.values (State.parseQueue Demo.JSON_parse
                               (Js.nullish compactStore EmptyString)))).
  { replace (Js.values (State.parseQueue Demo.JSON_parse
                          (Js.nullish compactStore EmptyString)))
      with [openedLongAgo; pendingLongAgo] by (vm_compute; reflexivity).
    unfold survivesJson.
    repeat (apply Forall_cons;
            [split; [vm_compute; reflexivity |];
             split; [vm_compute; reflexivity |];
             split; [vm_compute; reflexivity |];
             vm_compute; discriminate |]).
    apply Forall_nil. }
  assert (H2 : juneFirst <= juneFirst + 8640000000) by (vm_compute; discriminate).
  split; [exact H1 |]. split; [exact H2 |].
  exact (compact_again_later Demo.JSON_parse Demo.JSON_stringify
           Demo.Date_getTime compactStore (Some 30) juneFirst
           (juneFirst + 8640000000) H1 H2).
Defined.

End CompactLawsScenario.

(** ** State layer: [stats] *)

Section StatsLaws.
Import Types Spec Notions.
Import State(Queue, entryKey, queueKey).
Variable JSON_parse : string -> option CveQueueEntry.
Variable Date_getTime : string -> option Z.

Local Abbreviation parseQueue := (State.parseQueue JSON_parse).
Local Abbreviation stats := (Stats.stats JSON_parse Date_getTime).
Local Abbreviation byDetection := (Stats.byDetection Date_getTime).

Lemma stats_unfold :
  forall state,
    let es := Js.values (parseQueue (Js.nullish state EmptyString)) in
    let pend := filter Decision.isPending es in
    let sorted := Js.sort byDetection pend in
    stats state
    = if Js.truthy (Js.nullish state EmptyString)
      then Stats.mkStats (Z.of_nat (List.length es))
             (tallyOf (List.map status es) [])
             (List.map (fun s => (s, withSeverity s pend)) SEVERITY_ORDER)
             (option_map shownAsOldest (hd_error sorted))
             (firstn 10
                (Js.sort Stats.byCount
                   (JsObject.entries
                      (fold_left Stats.countRepo sorted Js.empty))))
      else Stats.emptyStats.
Proof.
  intros state es pend sorted. unfold Stats.stats.
  destruct state as [raw |]; [| reflexivity].
  cbn [Js.nullish] in *. destruct (Js.truthy raw); [| reflexivity].
  cbn [negb]. fold es. fold pend. fold sorted.
  f_equal. unfold tallyOf. clear.
  generalize (@nil (Status * Z)).
  induction es as [| e es IH]; intro c; [reflexivity |].
  cbn [fold_left List.map]. apply IH.
Qed.

Lemma withSeverity_sum :
  forall l,
    sumCounts (List.map (fun s => (s, withSeverity s l)) SEVERITY_ORDER)
    = Z.of_nat (List.length l).
Proof.
  intro l. unfold sumCounts, SEVERITY_ORDER, withSeverity.
  cbn [List.map snd fold_right].
  induction l as [| e l IH]; [reflexivity |].
  cbn [filter]. destruct (severity e); cbn [Severity_eqb List.length]; lia.
Qed.

(** X14. The counts of [stats]. [total] is the number of entries of the
    store. [byStatus] has one member for each status some entry has, with
    the number of entries of that status, and its counts add up to
    [total]. [pendingBySeverity] gives the number of pending entries of the
    severity for each row it has; when the file is there and not empty it
    has a row for each of the six severities, in the order of
    SEVERITY_ORDER, and the rows add up to the number of pending entries.
    A missing or empty file gives the empty statistics, with no row at
    all. *)
Theorem stats_counts :
  forall (state : State.Store),
    let q := parseQueue (Js.nullish state EmptyString) in
    let r := stats state in
    Stats.total r = Js.size q
    /\ (forall s,
           State.countOf s (Stats.byStatus r)
           = reported (occurrences s (List.map status (Js.values q))))
    /\ sumCounts (Stats.byStatus r) = Stats.total r
    /\ (forall s n,
           In (s, n) (Stats.pendingBySeverity r) ->
           n = withSeverity s (pendingOf q))
    /\ (Js.truthy (Js.nullish state EmptyString) = true ->
        List.map fst (Stats.pendingBySeverity r) = SEVERITY_ORDER
        /\ sumCounts (Stats.pendingBySeverity r)
           = Z.of_nat (List.length (pendingOf q)))
    /\ (Js.truthy (Js.nullish state EmptyString) = false ->
        r = Stats.emptyStats).
Proof.
  intros state q r. unfold r. rewrite stats_unfold. fold q.
  destruct (Js.truthy (Js.nullish state EmptyString)) eqn:Et.
  - cbn [Stats.total Stats.byStatus Stats.pendingBySeverity].
    split; [| split; [| split; [| split; [| split]]]].
    + rewrite size_length. unfold Js.values. rewrite length_map. reflexivity.
    + intro s. rewrite countOf_tallyOf. unfold reported. cbn [State.countOf].
      destruct (_ =? 0); reflexivity.
    + rewrite sumCounts_tallyOf, length_map. reflexivity.
    + intros s n Hin. apply in_map_iff in Hin.
      destruct Hin as (s' & E & _). injection E as <- <-. reflexivity.
    + intros _. split.
      * rewrite map_map. cbn [fst]. apply map_id.
      * apply withSeverity_sum.
    + discriminate.
  - assert (Hq : q = []).
    { unfold q. unfold Js.truthy in Et. rewrite negb_false_iff in Et.
      apply String.eqb_eq in Et. rewrite Et. reflexivity. }
    rewrite Hq. cbn.
    split; [reflexivity |]. split; [intro s; reflexivity |].
    split; [reflexivity |]. split; [intros s n [] |].
    split; [discriminate | reflexivity].
Qed.

Lemma get_countRepo :
  forall es (m : Js.Map Z) r,
    Js.get r (fold_left Stats.countRepo es m)
    = if inRepo r es =? 0 then Js.get r m
      else Some (Js.nullish (Js.get r m) 0 + inRepo r es).
Proof.
  induction es as [| e es IH]; intros m r.
  - reflexivity.
  - cbn [fold_left]. rewrite IH. unfold inRepo. cbn [filter].
    unfold Stats.countRepo.
    destruct (String.eqb_spec (repo e) r) as [E | E].
    + subst r. rewrite get_set_eq. cbn [List.length Js.nullish].
      destruct (Z.eqb_spec
                  (Z.of_nat
                     (List.length
                        (filter (fun e0 => String.eqb (repo e0) (repo e)) es)))
                  0) as [H0 | H0];
        destruct (Z.eqb_spec
                    (Z.of_nat
                       (S (List.length
                             (filter (fun e0 => String.eqb (repo e0) (repo e))
                                     es)))) 0) as [H1 | H1];
        try lia; f_equal; lia.
    + rewrite get_set_neq by exact E. reflexivity.
Qed.

Lemma countRepo_NoDup :
  forall es (m : Js.Map Z),
    NoDup (Js.keys m) -> NoDup (Js.keys (fold_left Stats.countRepo es m)).
Proof.
  induction es as [| e es IH]; intros m H; [exact H |].
  cbn [fold_left]. apply IH. apply set_NoDup, H.
Qed.

Lemma filter_partition_perm :
  forall {A : Type} (f : A -> bool) (l : list A),
    Permutation (filter f l ++ filter (fun x => negb (f x)) l) l.
Proof.
  intros A f l; induction l as [| x l IH]; simpl; [constructor |].
  destruct (f x); simpl.
  - apply perm_skip, IH.
  - apply Permutation_sym, Permutation_cons_app, Permutation_sym, IH.
Qed.

Lemma indexed_values :
  forall {V : Type} (o : Js.Map V),
    List.map snd (JsObject.indexed o)
    = filter (fun kv => match JsObject.arrayIndex (fst kv) with
                        | Some _ => true
                        | None => false
                        end) o.
Proof.
  intros V o; induction o as [| [k v] o IH]; [reflexivity |].
  cbn [JsObject.indexed filter fst].
  destruct (JsObject.arrayIndex k); cbn [List.map snd]; rewrite IH; reflexivity.
Qed.

Lemma entries_perm :
  forall {V : Type} (o : Js.Map V), Permutation (JsObject.entries o) o.
Proof.
  intros V o. unfold JsObject.entries, JsObject.named.
  apply perm_trans
    with (filter (fun kv => match JsObject.arrayIndex (fst kv) with
                            | Some _ => true
                            | None => false
                            end) o
          ++ filter (fun kv => negb match JsObject.arrayIndex (fst kv) with
                                    | Some _ => true
                                    | None => false
                                    end) o).
  - apply Permutation_app.
    + rewrite <- indexed_values. apply Permutation_map, sort_perm.
    + replace (filter (fun kv => negb match JsObject.arrayIndex (fst kv) with
                                      | Some _ => true
                                      | None => false
                                      end) o)
        with (filter (fun kv : string * V =>
                        match JsObject.arrayIndex (fst kv) with
                        | Some _ => false
                        | None => true
                        end) o); [apply Permutation_refl |].
      apply filter_ext. intros [k v]. cbn [fst].
      destruct (JsObject.arrayIndex k); reflexivity.
  - apply filter_partition_perm.
Qed.

Lemma filter_length_perm :
  forall {A : Type} (f : A -> bool) (l l' : list A),
    Permutation l l' ->
    List.length (filter f l) = List.length (filter f l').
Proof.
  intros A f l l' H; induction H; simpl.
  - reflexivity.
  - destruct (f x); simpl; congruence.
  - destruct (f x), (f y); reflexivity.
  - congruence.
Qed.

Lemma byCount_notAfter :
  forall a b, notAfter Stats.byCount a b <-> snd b <= snd a.
Proof.
  intros a b. unfold notAfter, Stats.byCount. rewrite Qle_bool_iff.
  unfold Qle, inject_Z; simpl. lia.
Qed.

Lemma NoDup_firstn :
  forall {A : Type} n (l : list A), NoDup l -> NoDup (firstn n l).
Proof.
  intros A n l H. rewrite <- (firstn_skipn n l) in H.
  apply NoDup_app_remove_r in H. exact H.
Qed.

(** X15. The repositories of [stats]. [topRepos] lists at most ten
    repositories, each once, each with the number of its pending entries
    (which is not zero), in descending order of that number. A repository
    with pending entries is listed unless ten are listed that each have at
    least as many. (Repository names are taken not to be names of members
    of [Object.prototype], as in [countRepo].) *)
Theorem stats_top_repos :
  forall (state : State.Store),
    let pend := pendingOf (parseQueue (Js.nullish state EmptyString)) in
    let top := Stats.topRepos (stats state) in
    (List.length top <= 10)%nat
    /\ NoDup (List.map fst top)
    /\ (forall r n, In (r, n) top -> n = inRepo r pend /\ 0 < n)
    /\ StronglySorted (fun a b => snd b <= snd a) top
    /\ (forall r,
           0 < inRepo r pend ->
           In (r, inRepo r pend) top
           \/ (List.length top = 10%nat
               /\ forall a, In a top -> inRepo r pend <= snd a)).
Proof.
  intros state pend top. unfold top. rewrite stats_unfold.
  destruct (Js.truthy (Js.nullish state EmptyString)) eqn:Et.
  - fold (pendingOf (parseQueue (Js.nullish state EmptyString))). fold pend.
    cbn [Stats.topRepos].
    set (sorted := Js.sort byDetection pend).
    set (byRepo := fold_left Stats.countRepo sorted Js.empty).
    set (ranked := Js.sort Stats.byCount (JsObject.entries byRepo)).
    assert (Hperm : Permutation ranked byRepo).
    { apply perm_trans with (JsObject.entries byRepo);
        [apply sort_perm | apply entries_perm]. }
    assert (Hnd : NoDup (Js.keys byRepo))
      by (apply countRepo_NoDup; constructor).
    assert (Hcount : forall r, inRepo r sorted = inRepo r pend).
    { intro r. unfold inRepo. f_equal.
      apply filter_length_perm, sort_perm. }
    assert (Hget : forall r, Js.get r byRepo = reported (inRepo r pend)).
    { intro r. unfold byRepo. rewrite get_countRepo, Hcount.
      unfold reported. cbn. destruct (_ =? 0); reflexivity. }
    assert (Hin : forall r n,
               In (r, n) ranked <-> reported (inRepo r pend) = Some n).
    { intros r n. rewrite <- Hget. split.
      - intro H. apply In_get; [exact Hnd |].
        apply (Permutation_in _ Hperm H).
      - intro H. apply get_Some_In in H.
        apply (Permutation_in _ (Permutation_sym Hperm) H). }
    assert (Hsorted : StronglySorted (fun a b => snd b <= snd a) ranked).
    { apply (StronglySorted_impl (notAfter Stats.byCount)).
      - intros a b. apply byCount_notAfter.
      - apply sort_sorted.
        + intros a b. rewrite !byCount_notAfter. lia.
        + intros a b c. rewrite !byCount_notAfter. lia. }
    split; [| split; [| split; [| split]]].
    + rewrite length_firstn. lia.
    + rewrite <- firstn_map. apply NoDup_firstn.
      apply (Permutation_NoDup (l := Js.keys byRepo)); [| exact Hnd].
      apply Permutation_sym. unfold Js.keys. apply Permutation_map, Hperm.
    + intros r n H. apply firstn_In in H. apply Hin in H.
      unfold reported in H.
      destruct (Z.eqb_spec (inRepo r pend) 0) as [E | E]; [discriminate |].
      injection H as <-. split; [reflexivity |]. unfold inRepo in *. lia.
    + apply StronglySorted_firstn, Hsorted.
    + intros r Hpos.
      assert (Hr : In (r, inRepo r pend) ranked).
      { apply Hin. unfold reported.
        destruct (Z.eqb_spec (inRepo r pend) 0); [lia | reflexivity]. }
      rewrite <- (firstn_skipn 10 ranked) in Hr, Hsorted.
      apply in_app_or in Hr. destruct Hr as [Hr | Hr]; [left; exact Hr |].
      right. split.
      * rewrite length_firstn.
        assert (Hlen : (10 < List.length ranked)%nat).
        { destruct (Nat.le_gt_cases (List.length ranked) 10) as [Hle | Hgt];
            [| exact Hgt].
          rewrite skipn_all2 in Hr by exact Hle. destruct Hr. }
        lia.
      * intros a Ha.
        apply (StronglySorted_app_cross _ _ _ Hsorted a _ Ha Hr).
  - cbn. split; [lia |]. split; [constructor |].
    split; [intros r n [] |]. split; [constructor |].
    intros r Hpos. exfalso.
    assert (Hpend : pend = []).
    { unfold pend. unfold Js.truthy in Et. rewrite negb_false_iff in Et.
      apply String.eqb_eq in Et. rewrite Et. reflexivity. }
    rewrite Hpend in Hpos. cbn in Hpos. lia.
Qed.

Lemma byDetection_notAfter :
  forall a b ta tb,
    Date_getTime (detectedAt a) = Some ta ->
    Date_getTime (detectedAt b) = Some tb ->
    (Qle_bool (byDetection a b) 0 = true <-> ta <= tb).
Proof.
  intros a b ta tb Ha Hb. unfold Stats.byDetection. rewrite Ha, Hb.
  rewrite Qle_bool_iff. unfold Qle, inject_Z; simpl. lia.
Qed.

Lemma hd_insertSorted :
  forall x (l : list CveQueueEntry),
    hd_error (Js.insertSorted byDetection x l)
    = match hd_error l with
      | None => Some x
      | Some y => if Qle_bool (byDetection x y) 0 then Some x else Some y
      end.
Proof.
  intros x [| y l]; [reflexivity |]. cbn [Js.insertSorted hd_error].
  destruct (Qle_bool (byDetection x y) 0); reflexivity.
Qed.

Lemma hd_sort_earliest :
  forall l,
    Forall (fun e => Date_getTime (detectedAt e) <> None) l ->
    forall e, hd_error (Js.sort byDetection l) = Some e ->
              earliest Date_getTime e l.
Proof.
  induction l as [| x l IH]; intros Hall e He; [discriminate |].
  inversion Hall as [| ? ? Hx Hl]; subst.
  destruct (Date_getTime (detectedAt x)) as [tx |] eqn:Ex; [| congruence].
  cbn [Js.sort fold_right] in He. fold (Js.sort byDetection l) in He.
  rewrite hd_insertSorted in He.
  destruct (hd_error (Js.sort byDetection l)) as [y |] eqn:Ey.
  - destruct (IH Hl y eq_refl) as (ty & Hty & Hmin).
    destruct (Qle_bool (byDetection x y) 0) eqn:Exy; injection He as <-.
    + apply (byDetection_notAfter x y tx ty Ex Hty) in Exy.
      exists tx. split; [exact Ex |].
      intros e' [<- | Hin].
      * exists tx. split; [exact Ex | lia].
      * destruct (Hmin e' Hin) as (t' & Ht' & Hle).
        exists t'. split; [exact Ht' | lia].
    + assert (Hlt : ~ tx <= ty).
      { intro H. apply (byDetection_notAfter x y tx ty Ex Hty) in H.
        congruence. }
      exists ty. split; [exact Hty |].
      intros e' [<- | Hin].
      * exists tx. split; [exact Ex | lia].
      * apply Hmin, Hin.
  - injection He as <-.
    assert (Hnil : l = []).
    { destruct l as [| z l']; [reflexivity |].
      pose proof (sort_perm byDetection (z :: l')) as Hp.
      destruct (Js.sort byDetection (z :: l')); [| discriminate].
      apply Permutation_nil in Hp. discriminate. }
    subst l. exists tx. split; [exact Ex |].
    intros e' [<- | []]. exists tx. split; [exact Ex | lia].
Qed.

(** X16. The oldest pending entry of [stats]. [oldestPending] is null
    exactly when the store has no pending entry. Otherwise it shows the
    id, repository, severity and detection time of one of the pending
    entries, and, when the detection times of the pending entries are all
    valid dates, of one that no pending entry precedes. *)
Theorem stats_oldest_pending :
  forall (state : State.Store),
    let pend := pendingOf (parseQueue (Js.nullish state EmptyString)) in
    let r := stats state in
    (Stats.oldestPending r = None <-> pend = [])
    /\ (forall o,
           Stats.oldestPending r = Some o ->
           exists e,
             In e pend /\ o = shownAsOldest e
             /\ (Forall (fun e' => Date_getTime (detectedAt e') <> None) pend ->
                 earliest Date_getTime e pend)).
Proof.
  intros state pend r. unfold r. rewrite stats_unfold.
  destruct (Js.truthy (Js.nullish state EmptyString)) eqn:Et.
  - fold (pendingOf (parseQueue (Js.nullish state EmptyString))). fold pend.
    cbn [Stats.oldestPending].
    pose proof (sort_perm byDetection pend) as Hperm.
    destruct (Js.sort byDetection pend) as [| e rest] eqn:Es.
    + apply Permutation_nil in Hperm.
      split; [split; [intros _; exact Hperm | reflexivity] |].
      intros o H. discriminate.
    + split.
      * split; [discriminate |]. intro Hnil. rewrite Hnil in Hperm.
        apply Permutation_sym, Permutation_nil in Hperm. discriminate.
      * intros o Ho. cbn in Ho. injection Ho as <-.
        exists e. split; [| split; [reflexivity |]].
        -- apply (Permutation_in _ Hperm). left; reflexivity.
        -- intro Hvalid. apply (hd_sort_earliest pend Hvalid).
           rewrite Es. reflexivity.
  - assert (Hpend : pend = []).
    { unfold pend. unfold Js.truthy in Et. rewrite negb_false_iff in Et.
      apply String.eqb_eq in Et. rewrite Et. reflexivity. }
    cbn. split; [split; [intros _; exact Hpend | reflexivity] |].
    intros o H. discriminate.
Qed.

End StatsLaws.

(** ** Action layer: what [execute] reports and what it leaves alone *)

Section ActionLaws.
Import Types Effect GitHub Spec Notions.
Import Decision(TriagePlan, entry, action, reason, open_pr, open_draft, skip).
Context {World : Type}.
Variable updateNpmManifest : string -> string -> string -> Thrown + string.
Variable scoreToString : Q -> string.
Variable Date_toISOString : string -> option string.
Variable nowISOString : M World string.

Local Abbreviation tryBlock :=
  (Run.tryBlock updateNpmManifest scoreToString Date_toISOString nowISOString).
Local Abbreviation execute :=
  (Action.execute updateNpmManifest scoreToString Date_toISOString
                  nowISOString).
Local Abbreviation runOne :=
  (Run.runOne updateNpmManifest scoreToString Date_toISOString nowISOString).
Local Abbreviation runAll :=
  (Run.runAll updateNpmManifest scoreToString Date_toISOString nowISOString).
Local Abbreviation stageFiles := (Action.stageFiles updateNpmManifest).
Local Abbreviation buildPrBody :=
  (Action.buildPrBody scoreToString Date_toISOString nowISOString).

Ltac bind_inv H :=
  let a := fresh "a" in
  let w := fresh "w" in
  let Hm := fresh "Hm" in
  apply bind_returns in H; destruct H as (a & w & Hm & H).

(** X17. What [execute] reports, and when it leaves the code host alone.
    When [execute] returns, every result reports its plan: a skip as
    [skipped] with the reason of the plan; an acting plan, in a dry run, as
    a pull request that has no number, and otherwise either as a pull
    request with the number and the URL that [createPullRequest] returned
    for it, called on the repository of the plan with the title, the draft
    flag and the labels of the plan, or as an error with the message of the value that
    its branch/commit/pull-request sequence threw. A dry run, and a run of
    skip plans only, return and leave the world as it is, whatever the
    capability given; the results of a dry run depend on the plans alone.
    [execute] throws in one case only: not in a dry run, at an acting plan
    whose sequence threw [undefined] or [null], after the plans before it
    gave their results; it then throws the [TypeError] of the catch
    block. *)
Theorem execute_reports_each_plan :
  forall (github : GitHubAdapter World) (dryRun : bool)
         (plans : list TriagePlan) (w : World),
    match execute plans github dryRun w with
    | (inr results, w') =>
        Forall2 (reportsPlan github (tryBlock github) dryRun) plans results
        /\ (dryRun = true -> w' = w /\ results = List.map quietResult plans)
        /\ (Forall (fun p => action p = skip) plans ->
            w' = w /\ results = List.map Action.skippedResult plans)
    | (inl err, w') =>
        dryRun = false
        /\ ~ Forall (fun p => action p = skip) plans
        /\ exists pre plan post rpre w1 isNull,
             plans = pre ++ plan :: post
             /\ action plan <> skip
             /\ execute pre github false w = (inr rpre, w1)
             /\ tryBlock github plan w1 = (inl (thrownNullish isNull), w')
             /\ err = typeError isNull
    end.
Proof.
  intros github dryRun plans w. rewrite execute_runAll.
  destruct (runAll github dryRun plans w) as [[err | results] w'] eqn:E.
  - destruct (runAll_throws _ _ _ _ github dryRun plans w err w' E)
      as (Hd & pre & plan & post & rpre & w1 & b
          & Hsplit & Hact & Hpre & Ht & He).
    split; [exact Hd |]. split.
    + intro Hskip. rewrite Forall_forall in Hskip. apply Hact, Hskip.
      rewrite Hsplit. apply in_or_app. right. left. reflexivity.
    + exists pre, plan, post, rpre, w1, b.
      rewrite execute_runAll.
      repeat match goal with |- _ /\ _ => split end; assumption.
  - destruct (runAll_returns _ _ _ _ github dryRun plans w results w' E)
      as (Hrep & _ & Hworld).
    split; [exact Hrep |]. split.
    + intro Hdry. split; [apply Hworld; left; exact Hdry |].
      subst dryRun. clear Hworld E.
      induction Hrep as [| p r ps rs Hp _ IH]; [reflexivity |].
      cbn [List.map]. rewrite <- IH. f_equal.
      unfold reportsPlan in Hp. unfold quietResult.
      destruct (action p); exact Hp.
    + intro Hskip. split; [apply Hworld; right; exact Hskip |].
      clear Hworld E.
      induction Hrep as [| p r ps rs Hp _ IH]; [reflexivity |].
      inversion Hskip as [| ? ? Hps Hrest]; subst.
      cbn [List.map]. rewrite <- (IH Hrest). f_equal.
      unfold reportsPlan in Hp. rewrite Hps in Hp. exact Hp.
Qed.

Lemma buildPrBody_invalid :
  forall e w,
    Date_toISOString (detectedAt e) = None ->
    buildPrBody e w = (inl Action.invalidTime, w).
Proof.
  intros e w H. unfold Action.buildPrBody, bind, lift. rewrite H. reflexivity.
Qed.

Lemma bind_cong :
  forall {A B : Type} (m : M World A) (k k' : A -> M World B) w,
    (forall a w1, m w = (inr a, w1) -> k a w1 = k' a w1) ->
    bind m k w = bind m k' w.
Proof.
  intros A B m k k' w H. unfold bind.
  destruct (m w) as [[err | a] w1]; [reflexivity |]. apply H. reflexivity.
Qed.

Lemma bind_must_throw :
  forall {A B : Type} (m : M World A) (k : A -> M World B) w,
    (forall a w1, m w = (inr a, w1) -> exists err w', k a w1 = (inl err, w')) ->
    exists err w', bind m k w = (inl err, w').
Proof.
  intros A B m k w H. unfold bind.
  destruct (m w) as [[err | a] w1]; [exists err, w1; reflexivity |].
  apply H. reflexivity.
Qed.

Lemma tryBlock_invalid :
  forall github plan w,
    Date_toISOString (detectedAt (entry plan)) = None ->
    exists err w', tryBlock github plan w = (inl err, w').
Proof.
  intros github plan w Hdate. unfold Run.tryBlock, Action.tryBlock.
  destruct (splitRepo (repo (entry plan))) as [owner rp].
  apply bind_must_throw. intros base w1 _.
  apply bind_must_throw. intros u w2 _.
  apply bind_must_throw. intros files w3 _.
  apply bind_must_throw. intros u4 w4 _.
  exists Action.invalidTime, w4.
  apply bind_throws, buildPrBody_invalid, Hdate.
Qed.

Lemma tryBlock_invalid_any :
  forall github cpr plan w,
    Date_toISOString (detectedAt (entry plan)) = None ->
    tryBlock (withCreatePullRequest github cpr) plan w
    = tryBlock github plan w.
Proof.
  intros github cpr plan w Hdate. unfold Run.tryBlock, Action.tryBlock.
  destruct (splitRepo (repo (entry plan))) as [owner rp].
  unfold withCreatePullRequest, Action.stageFiles.
  cbn [getDefaultBranch createBranch commitFiles getFileContent
       createPullRequest].
  apply bind_cong. intros base w1 _.
  apply bind_cong. intros u w2 _.
  apply bind_cong. intros files w3 _.
  apply bind_cong. intros u4 w4 _.
  rewrite !(bind_throws _ _ _ _ _ (buildPrBody_invalid _ w4 Hdate)).
  reflexivity.
Qed.

(** X18. A detection time that is not a date. When [detectedAt] of the
    entry of a plan does not read as a date, the branch/commit/pull-request
    sequence of the plan always throws, in the same way and leaving the
    same world whatever [createPullRequest] is: no pull request is opened.
    In a run that is not a dry run, [execute] on the plan alone, if it is
    not a skip, reports it as an error with the message of what was thrown;
    unless what was thrown, by a call before the body of the pull request
    is built, is [undefined] or [null]: then [execute] throws the
    [TypeError] of its catch block. *)
Theorem undated_entry_opens_no_pr :
  forall (github : GitHubAdapter World) (plan : TriagePlan) (w : World),
    Date_toISOString (detectedAt (entry plan)) = None ->
    exists err w',
      tryBlock github plan w = (inl err, w')
      /\ (forall cpr,
             tryBlock (withCreatePullRequest github cpr) plan w
             = (inl err, w'))
      /\ (action plan <> skip ->
          execute [plan] github false w
          = match readMessage err with
            | inr message => (inr [Action.errorResult plan message], w')
            | inl raised => (inl raised, w')
            end).
Proof.
  intros github plan w Hdate.
  destruct (tryBlock_invalid github plan w Hdate) as (err & w' & H1).
  exists err, w'. split; [exact H1 |]. split.
  { intro cpr. rewrite tryBlock_invalid_any by exact Hdate. exact H1. }
  intro Hact. rewrite execute_runAll. cbn [Run.runAll]. unfold bind at 1.
  rewrite (runOne_caught _ _ _ _ github plan w err w' Hact H1).
  destruct (readMessage err); reflexivity.
Qed.

End ActionLaws.

Section ActionLawsScenario.
Import Types Spec Notions Examples.

(** An entry detected [last Tuesday], on the code host of the scenarios:
    the sequence throws the [RangeError] of [toISOString], after the branch
    and the commit were made, and the plan is reported as an error. *)
Lemma undated_entry_opens_no_pr_witness :
  demoToISOString (detectedAt (Decision.entry undatedPlan)) = None
  /\ Run.tryBlock demoNpmUpdate Demo.showScore demoToISOString demoNow
                  demoGithub undatedPlan 0
     = (inl Action.invalidTime, 3)
  /\ exists err w',
       Run.tryBlock demoNpmUpdate Demo.showScore demoToISOString demoNow
                    demoGithub undatedPlan 0
       = (inl err, w')
       /\ (forall cpr,
              Run.tryBlock demoNpmUpdate Demo.showScore demoToISOString
                           demoNow (withCreatePullRequest demoGithub cpr)
                           undatedPlan 0
              = (inl err, w'))
       /\ (Decision.action undatedPlan <> Decision.skip ->
           Action.execute demoNpmUpdate Demo.showScore demoToISOString
                          demoNow [undatedPlan] demoGithub false 0
           = match Effect.readMessage err with
             | inr message =>
                 (inr [Action.errorResult undatedPlan message], w')
             | inl raised => (inl raised, w')
             end).
Proof.
  assert (H : demoToISOString (detectedAt (Decision.entry undatedPlan)) = None)
    by (vm_compute; reflexivity).
  split; [exact H |]. split; [vm_compute; reflexivity |].
  exact (undated_entry_opens_no_pr demoNpmUpdate Demo.showScore
           demoToISOString demoNow demoGithub undatedPlan 0 H).
Defined.

End ActionLawsScenario.

(** ** Action layer: the manifest patch *)

Section ManifestLaws.
Import Types Effect GitHub Spec Notions.
Context {World : Type}.
Variable updateNpmManifest : string -> string -> string -> Thrown + string.

Local Abbreviation stageFiles := (Action.stageFiles updateNpmManifest).
Local Abbreviation updateManifest := (Action.updateManifest updateNpmManifest).

(** X19. The manifest patch staged for the commit. When the patched
    version of the entry is ["unknown"] nothing is staged and the manifest
    is not even read. Whatever is staged is at most one file: the manifest
    of the ecosystem of the entry, which is npm or pip, as [updateManifest]
    rewrites the content read from the repository, and only when that
    rewrite is not empty and differs from the content read. *)
Theorem stageFiles_stages_the_manifest_at_most :
  forall (github : GitHubAdapter World) (owner : string) (rp : option string)
         (e : CveQueueEntry) (w : World),
    (patchedVersion e = "unknown"%string ->
     stageFiles github owner rp e w = (inr [], w))
    /\ (forall files w',
           stageFiles github owner rp e w = (inr files, w') ->
           (List.length files <= 1)%nat
           /\ forall f, In f files ->
                files = [f]
                /\ lookup (ecosystem e) Action.ECOSYSTEM_MANIFEST
                   = Some (path f)
                /\ (ecosystem e = "npm"%string \/ ecosystem e = "pip"%string)
                /\ patchedVersion e <> "unknown"%string
                /\ content f <> EmptyString
                /\ exists cur,
                     getFileContent github owner rp (path f) w
                     = (inr (Some cur), w')
                     /\ updateManifest cur (ecosystem e) (affectedPackage e)
                                       (patchedVersion e)
                        = inr (Some (content f))
                     /\ content f <> cur).
Proof.
  intros github owner rp e w. split.
  - intro Hp. unfold Action.stageFiles. rewrite Hp.
    destruct (lookup (ecosystem e) Action.ECOSYSTEM_MANIFEST);
      [| reflexivity].
    rewrite andb_false_r. reflexivity.
  - intros files w' H. unfold Action.stageFiles in H.
    destruct (lookup (ecosystem e) Action.ECOSYSTEM_MANIFEST)
      as [manifestPath |] eqn:Hl;
      [| injection H as <- _; split; [simpl; lia | intros f []]].
    destruct (Js.truthy manifestPath
              && negb (String.eqb (patchedVersion e) "unknown")) eqn:Hc;
      [| injection H as <- _; split; [simpl; lia | intros f []]].
    apply andb_true_iff in Hc. destruct Hc as [_ Hpv].
    apply negb_true_iff, String.eqb_neq in Hpv.
    apply bind_returns in H. destruct H as (cur & w1 & Hread & H).
    destruct cur as [cur |];
      [| injection H as <- _; split; [simpl; lia | intros f []]].
    destruct (Js.truthy cur);
      [| injection H as <- _; split; [simpl; lia | intros f []]].
    apply bind_returns in H. destruct H as (upd & w2 & Hupd & H).
    unfold lift in Hupd. injection Hupd as Hupd <-.
    destruct upd as [upd |];
      [| injection H as <- _; split; [simpl; lia | intros f []]].
    destruct (Js.truthy upd && negb (String.eqb upd cur)) eqn:Hu;
      injection H as <- <-; [| split; [simpl; lia | intros f []]].
    apply andb_true_iff in Hu. destruct Hu as [Hne Hdiff].
    apply negb_true_iff, String.eqb_neq in Hdiff.
    unfold Js.truthy in Hne. apply negb_true_iff, String.eqb_neq in Hne.
    split; [simpl; lia |].
    intros f [<- | []]. cbn [path content].
    split; [reflexivity |]. split; [reflexivity |]. split.
    + unfold Action.updateManifest in Hupd.
      destruct (String.eqb_spec (ecosystem e) "npm") as [E | _];
        [left; exact E |].
      destruct (String.eqb_spec (ecosystem e) "pip") as [E | _];
        [right; exact E | discriminate].
    + split; [exact Hpv |]. split; [exact Hne |].
      exists cur. split; [exact Hread |]. split; [exact Hupd | exact Hdiff].
Qed.

End ManifestLaws.

Section PipLaws.
Import Types Spec Notions.

Lemma hasChar_app :
  forall c a b, hasChar c (a ++ b)%string = hasChar c a || hasChar c b.
Proof.
  intros c a b; induction a as [| x a IH]; simpl; [reflexivity |].
  rewrite IH. apply orb_assoc.
Qed.

Lemma split_no_LF :
  forall s, Forall (fun l => hasChar Js.LF l = false) (Js.split Js.LF s).
Proof.
  induction s as [| c s IH]; cbn [Js.split].
  - constructor; [reflexivity | constructor].
  - unfold Js.isSep. destruct (Ascii.eqb c Js.LF) eqn:E.
    + constructor; [reflexivity | exact IH].
    + destruct (Js.split Js.LF s) as [| l ls]; [constructor; [| constructor] |].
      * simpl. rewrite E. reflexivity.
      * inversion IH as [| ? ? Hl Hls]; subst.
        constructor; [| exact Hls]. simpl. rewrite E, Hl. reflexivity.
Qed.

Lemma join_split : forall s, Js.join Js.LFs (Js.split Js.LF s) = s.
Proof.
  induction s as [| c s IH]; cbn [Js.split]; [reflexivity |].
  unfold Js.isSep. destruct (Ascii.eqb_spec c Js.LF) as [-> | Hne].
  - pose proof (split_nonempty s) as Hn.
    destruct (Js.split Js.LF s) as [| l ls] eqn:Es; [contradiction |].
    change (Js.join Js.LFs (EmptyString :: l :: ls))
      with (EmptyString ++ Js.LFs ++ Js.join Js.LFs (l :: ls))%string.
    rewrite IH. reflexivity.
  - pose proof (split_nonempty s) as Hn.
    destruct (Js.split Js.LF s) as [| l ls] eqn:Es; [contradiction |].
    destruct ls as [| l' ls'].
    + simpl in IH. simpl. rewrite IH. reflexivity.
    + change (Js.join Js.LFs (String c l :: l' :: ls'))
        with (String c (l ++ Js.LFs ++ Js.join Js.LFs (l' :: ls')))%string.
      change (Js.join Js.LFs (l :: l' :: ls'))
        with (l ++ Js.LFs ++ Js.join Js.LFs (l' :: ls'))%string in IH.
      rewrite IH. reflexivity.
Qed.

Lemma stripPrefix_app :
  forall p s, Action.stripPrefix p (p ++ s)%string = Some s.
Proof.
  induction p as [| c p IH]; intro s; [reflexivity |].
  cbn [append Action.stripPrefix]. rewrite Ascii.eqb_refl. apply IH.
Qed.

Lemma pinned_matches :
  forall pkg version, Action.pipLineMatches pkg (pinned pkg version) = true.
Proof.
  intros pkg version. unfold Action.pipLineMatches, pinned.
  rewrite stripPrefix_app. reflexivity.
Qed.

(** X20. [updatePipManifest] on a requirements file of ASCII characters,
    where the white space of the line pattern is TAB, LF, VT, FF, CR and
    the space. A file in which no line names the package with a version
    comparison is returned as it is. When neither the package name nor the
    version holds a line feed, the result has the lines of the file, each
    line that names the package with a comparison replaced by
    [pkg>=version] and every other line as it was, so the number of lines
    is kept; and the rewrite is idempotent: applied to its own result it
    changes nothing. A file with a character outside ASCII is outside this
    statement. *)
Theorem updatePipManifest_rewrites_in_place :
  forall (content pkg version : string),
    isAscii content = true ->
    let out := Action.updatePipManifest content pkg version in
    (Forall (fun line => Action.pipLineMatches pkg line = false)
            (Js.split Js.LF content) ->
     out = content)
    /\ (hasChar Js.LF pkg = false -> hasChar Js.LF version = false ->
        Js.split Js.LF out
        = List.map (fun line => if Action.pipLineMatches pkg line
                                then pinned pkg version else line)
                   (Js.split Js.LF content)
        /\ List.length (Js.split Js.LF out)
           = List.length (Js.split Js.LF content)
        /\ Action.updatePipManifest out pkg version = out).
Proof.
  intros content pkg version _ out.
  set (f := fun line => if Action.pipLineMatches pkg line
                        then pinned pkg version else line).
  assert (Hout : out = Js.join Js.LFs (List.map f (Js.split Js.LF content)))
    by reflexivity.
  split.
  - intro Hnone. rewrite Hout.
    replace (List.map f (Js.split Js.LF content))
      with (Js.split Js.LF content); [apply join_split |].
    clear Hout. induction Hnone as [| l ls Hl _ IH]; [reflexivity |].
    cbn [List.map]. rewrite <- IH. unfold f at 1. rewrite Hl. reflexivity.
  - intros Hpkg Hver.
    assert (Hsplit : Js.split Js.LF out
                     = List.map f (Js.split Js.LF content)).
    { rewrite Hout. apply split_join.
      - pose proof (split_nonempty content) as Hn.
        destruct (Js.split Js.LF content); [contradiction | discriminate].
      - pose proof (split_no_LF content) as Hall. clear Hout.
        induction Hall as [| l ls Hl _ IH]; [constructor |].
        cbn [List.map]. constructor; [| exact IH].
        unfold f. destruct (Action.pipLineMatches pkg l); [| exact Hl].
        unfold pinned. rewrite !hasChar_app, Hpkg, Hver. reflexivity. }
    split; [exact Hsplit |].
    split; [rewrite Hsplit; apply length_map |].
    change (Action.updatePipManifest out pkg version)
      with (Js.join Js.LFs (List.map f (Js.split Js.LF out))).
    rewrite Hsplit, map_map, Hout. f_equal.
    apply map_ext. intro l. unfold f.
    destruct (Action.pipLineMatches pkg l) eqn:E.
    + rewrite pinned_matches. reflexivity.
    + rewrite E. reflexivity.
Qed.

End PipLaws.

Section ManifestScenario.
Import Types Spec Notions Examples.
Local Open Scope string_scope.

(** The [flask] finding on the code host of the scenarios: one file. *)
Lemma stageFiles_stages_the_manifest_at_most_witness :
  Action.stageFiles demoNpmUpdate demoGithub "up" (Some "y") flaskFinding 0
  = (inr [GitHub.mkFile "requirements.txt" "flask>=2.0"], 1)
  /\ (List.length [GitHub.mkFile "requirements.txt" "flask>=2.0"] <= 1)%nat
  /\ forall f, In f [GitHub.mkFile "requirements.txt" "flask>=2.0"] ->
       [GitHub.mkFile "requirements.txt" "flask>=2.0"] = [f]
       /\ GitHub.lookup (ecosystem flaskFinding) Action.ECOSYSTEM_MANIFEST
          = Some (GitHub.path f)
       /\ (ecosystem flaskFinding = "npm"%string
           \/ ecosystem flaskFinding = "pip"%string)
       /\ patchedVersion flaskFinding <> "unknown"%string
       /\ GitHub.content f <> EmptyString
       /\ exists cur,
            GitHub.getFileContent demoGithub "up" (Some "y"%string)
                                  (GitHub.path f) 0
            = (inr (Some cur), 1)
            /\ Action.updateManifest demoNpmUpdate cur
                 (ecosystem flaskFinding) (affectedPackage flaskFinding)
                 (patchedVersion flaskFinding)
               = inr (Some (GitHub.content f))
            /\ GitHub.content f <> cur.
Proof.
  assert (H : Action.stageFiles demoNpmUpdate demoGithub "up" (Some "y")
                flaskFinding 0
              = (inr [GitHub.mkFile "requirements.txt" "flask>=2.0"], 1))
    by (vm_compute; reflexivity).
  split; [exact H |].
  exact (proj2 (stageFiles_stages_the_manifest_at_most demoNpmUpdate
                  demoGithub "up" (Some "y"%string) flaskFinding 0) _ _ H).
Defined.

(** A requirements file with [flask], [requests] and [flask-login]: only
    the line of [flask] is rewritten. *)
Lemma updatePipManifest_rewrites_in_place_witness :
  isAscii requirements = true
  /\ hasChar Js.LF "flask" = false
  /\ hasChar Js.LF "2.0" = false
  /\ Action.updatePipManifest requirements "flask" "2.0"
     = Js.join Js.LFs ["flask>=2.0"; "requests >= 2.0"; "flask-login==0.6"]
  /\ Action.updatePipManifest
       (Action.updatePipManifest requirements "flask" "2.0") "flask" "2.0"
     = Action.updatePipManifest requirements "flask" "2.0".
Proof.
  assert (H0 : isAscii requirements = true) by (vm_compute; reflexivity).
  assert (H1 : hasChar Js.LF "flask" = false) by reflexivity.
  assert (H2 : hasChar Js.LF "2.0" = false) by reflexivity.
  split; [exact H0 |]. split; [exact H1 |]. split; [exact H2 |].
  split; [vm_compute; reflexivity |].
  exact (proj2 (proj2 (proj2 (updatePipManifest_rewrites_in_place
                                requirements "flask" "2.0" H0) H1 H2))).
Defined.

End ManifestScenario.

(** ** Detection layer: the findings of a scan *)

Section DetectionLaws.
Import Types Effect GitHub Spec Notions.
Context {World : Type}.
Variable parseNpm parsePip parseGo parseCargo : string -> list (string * string).
Variable fetchGraphql :
  string -> string -> string -> M World (@Detection.Response World).
Variable nowISOString : M World string.
Variable github : GitHubAdapter World.

Local Abbreviation onAdvisory := (Detection.onAdvisory nowISOString).
Local Abbreviation onPackage :=
  (Detection.onPackage fetchGraphql nowISOString github).
Local Abbreviation onManifest :=
  (Detection.onManifest parseNpm parsePip parseGo parseCargo fetchGraphql
                        nowISOString github).
Local Abbreviation onRepo :=
  (Detection.onRepo parseNpm parsePip parseGo parseCargo fetchGraphql
                    nowISOString github).
Local Abbreviation detect :=
  (fun repos threshold =>
     Detection.detect parseNpm parsePip parseGo parseCargo fetchGraphql
                      nowISOString repos threshold github).

Lemma forEach_preserves :
  forall {A S : Type} (I : S -> Prop) (body : S -> A -> M World S)
         (xs : list A),
    (forall acc x w acc' w',
        In x xs -> I acc -> body acc x w = (inr acc', w') -> I acc') ->
    forall acc w acc' w',
      I acc -> forEach xs body acc w = (inr acc', w') -> I acc'.
Proof.
  intros A S I body xs; induction xs as [| x xs IH];
    intros Hbody acc w acc' w' Hacc H.
  - unfold forEach, ret in H. injection H as <- _. exact Hacc.
  - cbn [forEach] in H. apply bind_returns in H.
    destruct H as (acc1 & w1 & Hx & H).
    apply (IH (fun a y w0 a' w0' Hy => Hbody a y w0 a' w0' (or_intror Hy))
              acc1 w1 acc' w');
      [| exact H].
    apply (Hbody acc x w acc1 w1); [left; reflexivity | exact Hacc | exact Hx].
Qed.

Lemma NoDup_snoc :
  forall {A : Type} (l : list A) x, NoDup l -> ~ In x l -> NoDup (l ++ [x]).
Proof.
  intros A l x Hnd Hx. induction Hnd as [| y l Hy Hnd IH]; simpl.
  - constructor; [intros [] | constructor].
  - constructor.
    + intro Hin. apply in_app_or in Hin. destruct Hin as [Hin | [E | []]].
      * contradiction.
      * subst y. apply Hx. left; reflexivity.
    + apply IH. intro Hin. apply Hx. right; exact Hin.
Qed.

Lemma onAdvisory_invariant :
  forall threshold repos repoFull manifest pkgName pkgVersion acc adv w acc' w',
    In repoFull repos ->
    In (Detection.m_ecosystem manifest) parsedEcosystems ->
    pkgName <> EmptyString ->
    scanInvariant threshold repos acc ->
    onAdvisory (indexOf SEVERITY_ORDER threshold) repoFull manifest pkgName
               pkgVersion acc adv w = (inr acc', w') ->
    scanInvariant threshold repos acc'.
Proof.
  intros threshold repos repoFull manifest pkgName pkgVersion acc adv w acc' w'
         Hrepo Heco Hpkg (Hseen & Hnd & Hall) H.
  unfold Detection.onAdvisory in H.
  destruct (indexOf SEVERITY_ORDER (normalizeSeverity (Detection.a_severity adv))
            >? indexOf SEVERITY_ORDER threshold) eqn:Hsev.
  - unfold ret in H. injection H as <- _. repeat split; assumption.
  - destruct (existsb _ (Detection.seen acc)) eqn:Hdup.
    + unfold ret in H. injection H as <- _. repeat split; assumption.
    + apply bind_returns in H. destruct H as (now & w1 & _ & H).
      unfold ret in H. injection H as <- _.
      unfold scanInvariant. cbn [Detection.seen Detection.allFindings].
      split; [| split].
      * rewrite map_app, Hseen. reflexivity.
      * apply NoDup_snoc; [exact Hnd |].
        intro Hin.
        assert (Hex : existsb
                        (String.eqb
                           (Detection.advisoryId adv ++ "::" ++ repoFull))
                        (Detection.seen acc) = true).
        { apply existsb_exists. eexists. split; [exact Hin |].
          apply String.eqb_refl. }
        rewrite Hex in Hdup. discriminate.
      * apply Forall_app. split; [exact Hall |].
        constructor; [| constructor].
        unfold freshFinding. cbn.
        repeat match goal with |- _ /\ _ => split end;
          try reflexivity; try assumption.
        -- unfold meetsThreshold. apply Z.leb_le.
           rewrite Z.gtb_ltb, Z.ltb_ge in Hsev. exact Hsev.
        -- discriminate.
Qed.

Lemma onPackage_invariant :
  forall threshold repos repoFull manifest acc dep w acc' w',
    In repoFull repos ->
    In (Detection.m_ecosystem manifest) parsedEcosystems ->
    scanInvariant threshold repos acc ->
    onPackage (indexOf SEVERITY_ORDER threshold) repoFull manifest acc dep w
    = (inr acc', w') ->
    scanInvariant threshold repos acc'.
Proof.
  intros threshold repos repoFull manifest acc [pkgName pkgVersion] w acc' w'
         Hrepo Heco Hacc H.
  unfold Detection.onPackage in H.
  destruct (negb (Js.truthy pkgName) || Js.startsWith "//" pkgName) eqn:Hskip.
  - unfold ret in H. injection H as <- _. exact Hacc.
  - apply orb_false_iff in Hskip. destruct Hskip as [Hname _].
    apply negb_false_iff in Hname. unfold Js.truthy in Hname.
    apply negb_true_iff, String.eqb_neq in Hname.
    apply bind_returns in H. destruct H as (advisories & w1 & _ & H).
    refine (forEach_preserves (scanInvariant threshold repos) _ _ _
              _ _ _ _ Hacc H).
    intros a adv w0 a' w0' _ Ha Hstep.
    apply (onAdvisory_invariant threshold repos repoFull manifest pkgName
             pkgVersion a adv w0 a' w0'); assumption.
Qed.

Lemma parseManifest_parsed :
  forall manifest,
    Detection.parseManifest parseNpm parsePip parseGo parseCargo manifest
    <> [] ->
    In (Detection.m_ecosystem manifest) parsedEcosystems.
Proof.
  intros manifest H. unfold Detection.parseManifest in H.
  unfold parsedEcosystems.
  destruct (String.eqb_spec (Detection.m_ecosystem manifest) "npm")
    as [-> | _]; [left; reflexivity |].
  destruct (String.eqb_spec (Detection.m_ecosystem manifest) "pip")
    as [-> | _]; [right; left; reflexivity |].
  destruct (String.eqb_spec (Detection.m_ecosystem manifest) "go")
    as [-> | _]; [right; right; left; reflexivity |].
  destruct (String.eqb_spec (Detection.m_ecosystem manifest) "cargo")
    as [-> | _]; [right; right; right; left; reflexivity |].
  contradiction.
Qed.

Lemma onRepo_invariant :
  forall threshold repos acc repoFull w acc' w',
    In repoFull repos ->
    scanInvariant threshold repos acc ->
    onRepo (indexOf SEVERITY_ORDER threshold) acc repoFull w = (inr acc', w') ->
    scanInvariant threshold repos acc'.
Proof.
  intros threshold repos acc repoFull w acc' w' Hrepo Hacc H.
  unfold Detection.onRepo in H.
  destruct (splitRepo repoFull) as [owner rp].
  apply bind_returns in H. destruct H as (manifests & w1 & _ & H).
  destruct (Z.of_nat (List.length manifests) =? 0).
  - unfold ret in H. injection H as <- _. exact Hacc.
  - refine (forEach_preserves (scanInvariant threshold repos) _ _ _
              _ _ _ _ Hacc H).
    intros a manifest w0 a' w0' _ Ha Hstep.
    unfold Detection.onManifest in Hstep.
    destruct (Detection.parseManifest parseNpm parsePip parseGo parseCargo
                manifest) as [| dep deps] eqn:Hdeps.
    + unfold forEach, ret in Hstep. injection Hstep as <- _. exact Ha.
    + assert (Heco : In (Detection.m_ecosystem manifest) parsedEcosystems).
      { apply parseManifest_parsed. rewrite Hdeps. discriminate. }
      refine (forEach_preserves (scanInvariant threshold repos) _ _ _
                _ _ _ _ Ha Hstep).
      intros b d w2 b' w2' _ Hb Hd.
      apply (onPackage_invariant threshold repos repoFull manifest b d w2 b' w2');
        assumption.
Qed.

Lemma detect_invariant :
  forall repos threshold w result w',
    detect repos threshold w = (inr result, w') ->
    Forall (freshFinding threshold repos) (Detection.findings result)
    /\ NoDup (List.map State.entryKey (Detection.findings result))
    /\ Detection.bySeverity result
       = List.map (fun s => (s, withSeverity s (Detection.findings result)))
                  SEVERITY_ORDER.
Proof.
  intros repos threshold w result w' H. unfold Detection.detect in H.
  apply bind_returns in H. destruct H as (acc & w1 & Hloop & H).
  unfold ret in H. injection H as <- _.
  cbn [Detection.findings Detection.bySeverity].
  assert (Hinv : scanInvariant threshold repos acc).
  { refine (forEach_preserves (scanInvariant threshold repos) _ _ _
              _ _ _ _ _ Hloop).
    - intros a repoFull w0 a' w0' Hin Ha Hstep.
      apply (onRepo_invariant threshold repos a repoFull w0 a' w0');
        assumption.
    - split; [reflexivity |]. split; constructor. }
  destruct Hinv as (Hseen & Hnd & Hall).
  split; [exact Hall |]. split; [rewrite <- Hseen; exact Hnd | reflexivity].
Qed.

(** X21. The findings of a scan. Whenever [detect] returns a result, every
    finding is pending and untouched (no pull request, no processing time,
    no skip reason), lies in one of the repositories given, is within the
    severity threshold, comes from an advisory of the database for a named
    package, and is of an ecosystem whose manifest is parsed: npm, pip, go
    or cargo, never maven or composer. No two findings have the same
    [id::repo] key. [bySeverity] has a row for each of the six severities,
    in their order, holding the number of findings of that severity; the
    rows add up to the number of findings, and a row beyond the threshold
    is zero. *)
Theorem detect_findings_are_fresh_and_distinct :
  forall (repos : list string) (threshold : Severity) (w : World)
         (result : Detection.DetectionResult) (w' : World),
    detect repos threshold w = (inr result, w') ->
    Forall (freshFinding threshold repos) (Detection.findings result)
    /\ NoDup (List.map State.entryKey (Detection.findings result))
    /\ List.map fst (Detection.bySeverity result) = SEVERITY_ORDER
    /\ sumCounts (Detection.bySeverity result)
       = Z.of_nat (List.length (Detection.findings result))
    /\ (forall s n,
           In (s, n) (Detection.bySeverity result) ->
           n = withSeverity s (Detection.findings result)
           /\ (meetsThreshold s threshold = false -> n = 0)).
Proof.
  intros repos threshold w result w' H.
  destruct (detect_invariant repos threshold w result w' H)
    as (Hall & Hnd & Hrows).
  split; [exact Hall |]. split; [exact Hnd |]. rewrite Hrows.
  split; [reflexivity |]. split; [apply withSeverity_sum |].
  intros s n Hin. apply in_map_iff in Hin. destruct Hin as (s' & E & _).
  injection E as <- <-. split; [reflexivity |].
  intro Hs. unfold withSeverity.
  rewrite filter_none; [reflexivity |].
  apply Forall_forall. intros f Hf. rewrite Forall_forall in Hall.
  destruct (Hall f Hf) as (_ & _ & _ & _ & _ & _ & Hm & _).
  destruct (Severity_eqb (severity f) s') eqn:E; [| reflexivity].
  apply Severity_eqb_eq in E. subst s'. congruence.
Qed.

End DetectionLaws.

Lemma detect_findings_distinct :
  forall {World : Type}
         (parseNpm parsePip parseGo parseCargo : string -> list (string * string))
         (fetchGraphql :
            string -> string -> string
            -> Effect.M World (@Detection.Response World))
         (nowISOString : Effect.M World string)
         repos threshold (github : GitHub.GitHubAdapter World) w result w',
    Detection.detect parseNpm parsePip parseGo parseCargo fetchGraphql
                     nowISOString repos threshold github w = (inr result, w') ->
    NoDup (List.map State.entryKey (Detection.findings result)).
Proof.
  intros World parseNpm parsePip parseGo parseCargo fetchGraphql nowISOString
         repos threshold github w result w' H.
  apply (detect_invariant parseNpm parsePip parseGo parseCargo fetchGraphql
           nowISOString github repos threshold w result w' H).
Qed.

Section DetectionLawsScenario.
Import Types Spec Notions Examples.
Local Open Scope string_scope.

(** The scan of the scenarios: three repositories, one of them out of
    reach, and a database that knows one advisory. *)
Lemma detect_findings_are_fresh_and_distinct_witness :
  exists result w',
    Detection.detect noDeps demoParsePip noDeps noDeps (demoFetch false)
                     demoNow ["up/a"; "down/b"; "up/c"] HIGH demoGithub 0
    = (inr result, w')
    /\ List.length (Detection.findings result) = 2%nat
    /\ Forall (freshFinding HIGH ["up/a"; "down/b"; "up/c"])
              (Detection.findings result)
    /\ NoDup (List.map State.entryKey (Detection.findings result)).
Proof.
  destruct (Detection.detect noDeps demoParsePip noDeps noDeps
              (demoFetch false) demoNow ["up/a"; "down/b"; "up/c"] HIGH
              demoGithub 0) as [[err | result] w'] eqn:E.
  - exfalso. vm_compute in E. discriminate E.
  - exists result, w'. split; [reflexivity |]. split.
    + vm_compute in E. injection E as <- _. reflexivity.
    + pose proof (detect_findings_are_fresh_and_distinct
                    noDeps demoParsePip noDeps noDeps (demoFetch false)
                    demoNow demoGithub ["up/a"; "down/b"; "up/c"] HIGH 0
                    result w' E) as H.
      split; [exact (proj1 H) | exact (proj1 (proj2 H))].
Defined.

End DetectionLawsScenario.

(** ** The commands: [scan] and [triage] (app.ts, bin/cli.js, mcp/server.js) *)

Section PipelineLaws.
Import Types Effect GitHub Spec Notions.
Import State(Queue, entryKey, queueKey).
Import Decision(TriagePlan, entry, action, reason, open_pr, open_draft, skip).
Context {World : Type}.
Variable JSON_parse : string -> option CveQueueEntry.
Variable JSON_stringify : CveQueueEntry -> string.
Variable updateNpmManifest : string -> string -> string -> Thrown + string.
Variable scoreToString : Q -> string.
Variable Date_toISOString : string -> option string.
Variable nowISOString : M World string.
Variable parseNpm parsePip parseGo parseCargo : string -> list (string * string).
Variable fetchGraphql :
  string -> string -> string -> M World (@Detection.Response World).

Local Abbreviation parseQueue := (State.parseQueue JSON_parse).
Local Abbreviation serialize := (State.serialize JSON_stringify).
Local Abbreviation pending := (State.pending JSON_parse).
Local Abbreviation execute :=
  (Action.execute updateNpmManifest scoreToString Date_toISOString
                  nowISOString).
Local Abbreviation runAll :=
  (Run.runAll updateNpmManifest scoreToString Date_toISOString nowISOString).
Local Abbreviation triageRun :=
  (Pipeline.triageRun JSON_parse JSON_stringify updateNpmManifest
                      scoreToString Date_toISOString nowISOString).
Local Abbreviation scanRun :=
  (Pipeline.scanRun JSON_parse JSON_stringify nowISOString
                    parseNpm parsePip parseGo parseCargo fetchGraphql).
Local Abbreviation detect :=
  (Detection.detect parseNpm parsePip parseGo parseCargo fetchGraphql
                    nowISOString).

Lemma enqueueLoop_distinct_counts :
  forall batch (q : Queue) a d,
    NoDup (List.map entryKey batch) ->
    loopFirst (State.enqueueLoop batch q a d) = a + unknown q batch
    /\ loopSecond (State.enqueueLoop batch q a d) = d + known q batch.
Proof.
  induction batch as [| e batch IH]; intros q a d Hnd.
  - unfold loopFirst, loopSecond, unknown, known. simpl. split; lia.
  - inversion Hnd as [| ? ? Hnotin Hnd']; subst.
    cbn [State.enqueueLoop]. unfold unknown, known. cbn [filter].
    destruct (Js.has (entryKey e) q) eqn:Hhas; cbn [negb].
    + destruct (IH q a (d + 1) Hnd') as [H1 H2]. rewrite H1, H2.
      unfold unknown, known. cbn [List.length]. split; lia.
    + destruct (IH (Js.set (entryKey e) e q) (a + 1) d Hnd') as [H1 H2].
      rewrite H1, H2. unfold unknown, known.
      assert (Hext : forall x, In x batch ->
                 Js.has (entryKey x) (Js.set (entryKey e) e q)
                 = Js.has (entryKey x) q).
      { intros x Hx. rewrite has_set.
        destruct (String.eqb_spec (entryKey e) (entryKey x)) as [E | _];
          [| reflexivity].
        exfalso. apply Hnotin. rewrite E. apply in_map, Hx. }
      rewrite (filter_ext_in _ (fun x => Js.has (entryKey x) q) batch Hext).
      rewrite (filter_ext_in
                 (fun x => negb (Js.has (entryKey x) (Js.set (entryKey e) e q)))
                 (fun x => negb (Js.has (entryKey x) q)) batch)
        by (intros x Hx; rewrite (Hext x Hx); reflexivity).
      cbn [List.length]. split; lia.
Qed.

(** X22. A scan and the store. Let [detect] return a result. In a dry
    run, and when there is no finding, the [scan] command returns that
    result with the world [detect] left: the store is neither read nor
    written. Otherwise the store is read and then written. If the read
    throws, the command throws the same and nothing is written. If the
    read returns, the text written is that of [enqueue] on the findings
    and the text read; if the write throws, the command throws the same,
    and the findings are reported to no one; if the write returns, the
    command returns the result of [detect] with the two counts: the
    findings whose [id::repo] key the store did not have, as added, and
    those whose key it had, as duplicates. No finding is a duplicate of
    another finding of the same scan, so the counts add up to the number
    of findings. *)
Theorem scan_enqueues_what_is_new :
  forall (repos : list string) (threshold : Severity)
         (github : GitHubAdapter World) (sa : Pipeline.StateAdapter World)
         (w : World) (found : Detection.DetectionResult) (w1 : World),
    detect repos threshold github w = (inr found, w1) ->
    scanRun repos threshold true github sa w = (inr (found, None), w1)
    /\ (Detection.findings found = [] ->
        scanRun repos threshold false github sa w = (inr (found, None), w1))
    /\ (Detection.findings found <> [] ->
        (forall err w2,
            Pipeline.read sa w1 = (inl err, w2) ->
            scanRun repos threshold false github sa w = (inl err, w2))
        /\ (forall state w2,
               Pipeline.read sa w1 = (inr state, w2) ->
               exists content,
                 fst (State.enqueue JSON_parse JSON_stringify
                        (Detection.findings found) state)
                 = Some content
                 /\ scanRun repos threshold false github sa w
                    = match Pipeline.write sa content w2 with
                      | (inl err, w3) => (inl err, w3)
                      | (inr _, w3) =>
                          (inr (found,
                                Some (State.mkEnqueueResult
                                        (unknown
                                           (parseQueue
                                              (Js.nullish state EmptyString))
                                           (Detection.findings found))
                                        (known
                                           (parseQueue
                                              (Js.nullish state EmptyString))
                                           (Detection.findings found)))),
                           w3)
                      end
                 /\ unknown (parseQueue (Js.nullish state EmptyString))
                            (Detection.findings found)
                    + known (parseQueue (Js.nullish state EmptyString))
                            (Detection.findings found)
                    = Z.of_nat (List.length (Detection.findings found)))).
Proof.
  intros repos threshold github sa w found w1 Hdetect.
  set (fs := Detection.findings found).
  assert (Hnd : NoDup (List.map entryKey fs)).
  { apply (detect_findings_distinct _ _ _ _ _ _ repos threshold github w
             found w1 Hdetect). }
  split; [| split].
  - unfold Pipeline.scanRun. rewrite (bind_continues _ _ _ _ _ Hdetect).
    reflexivity.
  - intro Hnil. unfold Pipeline.scanRun.
    rewrite (bind_continues _ _ _ _ _ Hdetect).
    fold fs. rewrite Hnil. reflexivity.
  - intro Hne.
    assert (Hpos : (0 <? Z.of_nat (List.length fs)) = true).
    { apply Z.ltb_lt. destruct fs; [contradiction | simpl; lia]. }
    assert (Hrun : scanRun repos threshold false github sa w
                   = bind (Pipeline.enqueueOn JSON_parse JSON_stringify sa fs)
                          (fun counts => ret (found, Some counts)) w1).
    { unfold Pipeline.scanRun. rewrite (bind_continues _ _ _ _ _ Hdetect).
      fold fs. rewrite Hpos. reflexivity. }
    split.
    + intros err w2 Hread. rewrite Hrun.
      apply bind_throws. unfold Pipeline.enqueueOn. apply bind_throws.
      exact Hread.
    + intros state w2 Hread.
      set (q := parseQueue (Js.nullish state EmptyString)).
      destruct (enqueueLoop_distinct_counts fs q 0 0 Hnd) as [H1 H2].
      exists (serialize (loopQueue (State.enqueueLoop fs q 0 0))).
      split; [rewrite (enqueue_unfold JSON_parse JSON_stringify); reflexivity |].
      split.
      * rewrite Hrun. unfold Pipeline.enqueueOn.
        unfold bind at 1 2. rewrite Hread.
        rewrite (enqueue_unfold JSON_parse JSON_stringify). fold q.
        cbn [fst snd Pipeline.writeBack]. unfold bind, ret.
        destruct (Pipeline.write sa _ w2) as [[err | u] w3]; [reflexivity |].
        rewrite H1, H2. reflexivity.
      * unfold unknown, known.
        pose proof (filter_split_length
                      (fun e => Js.has (entryKey e) q) fs) as Hlen.
        lia.
Qed.

End PipelineLaws.

Section TriageRunLaws.
Import Types Effect GitHub Spec Notions.
Import State(Queue, entryKey, queueKey).
Import Decision(TriagePlan, entry, action, reason, open_pr, open_draft, skip).
Context {World : Type}.
Variable JSON_parse : string -> option CveQueueEntry.
Variable JSON_stringify : CveQueueEntry -> string.
Variable updateNpmManifest : string -> string -> string -> Thrown + string.
Variable scoreToString : Q -> string.
Variable Date_toISOString : string -> option string.
Variable nowISOString : M World string.

Local Abbreviation parseQueue := (State.parseQueue JSON_parse).
Local Abbreviation serialize := (State.serialize JSON_stringify).
Local Abbreviation pending := (State.pending JSON_parse).
Local Abbreviation execute :=
  (Action.execute updateNpmManifest scoreToString Date_toISOString
                  nowISOString).
Local Abbreviation runAll :=
  (Run.runAll updateNpmManifest scoreToString Date_toISOString nowISOString).
Local Abbreviation triageRun :=
  (Pipeline.triageRun JSON_parse JSON_stringify updateNpmManifest
                      scoreToString Date_toISOString nowISOString).

Lemma NoDup_map_filter :
  forall {A B : Type} (g : A -> B) (f : A -> bool) (l : list A),
    NoDup (List.map g l) -> NoDup (List.map g (filter f l)).
Proof.
  intros A B g f l; induction l as [| x l IH]; simpl; intro H.
  - constructor.
  - inversion H as [| ? ? Hnotin Hnd]; subst.
    destruct (f x); simpl; [| apply IH, Hnd].
    constructor; [| apply IH, Hnd].
    intro Hin. apply Hnotin. apply in_map_iff in Hin.
    destruct Hin as (y & Hy & Hin). apply filter_In in Hin.
    apply in_map_iff. exists y. split; [exact Hy | apply Hin].
Qed.

Lemma NoDup_map_sort :
  forall {A B : Type} (g : A -> B) (cmp : A -> A -> Q) (l : list A),
    NoDup (List.map g l) -> NoDup (List.map g (Js.sort cmp l)).
Proof.
  intros A B g cmp l H.
  apply (Permutation_NoDup (l := List.map g l)); [| exact H].
  apply Permutation_map, Permutation_sym, sort_perm.
Qed.

(** The entries [pending] lists: entries of the store, pending, with
    pairwise distinct keys. *)
Lemma pending_listed :
  forall state,
    let q := parseQueue (Js.nullish state EmptyString) in
    NoDup (List.map entryKey (pending state))
    /\ Forall (fun e => In e (Js.values q) /\ status e = S_pending)
              (pending state).
Proof.
  intros state q.
  rewrite (pending_characterised JSON_parse state). fold q.
  assert (Hwk : wellKeyed q) by apply parseQueue_wellKeyed.
  split.
  - rewrite <- firstn_map. apply NoDup_firstn.
    apply NoDup_map_sort, NoDup_map_filter.
    rewrite <- wellKeyed_keys by exact Hwk. apply Hwk.
  - apply Forall_forall. intros e He. apply firstn_In in He.
    apply (Permutation_in _ (sort_perm _ _)) in He.
    apply filter_In in He. destruct He as [Hin Hf].
    split; [exact Hin |].
    apply andb_true_iff in Hf. destruct Hf as [Hs _].
    apply Status_eqb_eq in Hs. exact Hs.
Qed.

(** The plans of a run: one per listed entry, with distinct keys. *)
Lemma plans_listed :
  forall state policy,
    let q := parseQueue (Js.nullish state EmptyString) in
    let plans := Decision.triage (pending state) policy in
    NoDup (List.map (fun p => entryKey (entry p)) plans)
    /\ Forall (fun p => In (entry p) (pending state)) plans
    /\ List.length plans = List.length (pending state)
    /\ (forall e, In e (pending state) ->
                  exists p, In p plans /\ entry p = e).
Proof.
  intros state policy q plans.
  destruct (pending_listed state) as [Hnd Hall].
  assert (Hpend : filter Decision.isPending (pending state) = pending state).
  { apply filter_all. apply Forall_forall. intros e He.
    rewrite Forall_forall in Hall. destruct (Hall e He) as [_ Hs].
    unfold Decision.isPending. rewrite Hs. reflexivity. }
  assert (Hmap : List.map entry plans
                 = Js.sort Decision.compareEntries (pending state)).
  { unfold plans, Decision.triage. rewrite triageLoop_entries, Hpend.
    reflexivity. }
  split; [| split; [| split]].
  - rewrite <- (map_map entry entryKey), Hmap.
    apply NoDup_map_sort, Hnd.
  - apply Forall_forall. intros p Hp. apply (in_map entry) in Hp.
    rewrite Hmap in Hp. apply (Permutation_in _ (sort_perm _ _)) in Hp.
    exact Hp.
  - rewrite <- (length_map entry plans), Hmap.
    apply Permutation_length, sort_perm.
  - intros e He.
    apply (Permutation_in _ (Permutation_sym (sort_perm Decision.compareEntries
                                                 (pending state)))) in He.
    rewrite <- Hmap in He. apply in_map_iff in He.
    destruct He as (p & Hp & Hin). exists p. split; assumption.
Qed.

Lemma reportsPlan_skipped :
  forall (github : GitHubAdapter World) sequence dryRun p r,
    reportsPlan github sequence dryRun p r ->
    r_action r = R_skipped -> action p = skip.
Proof.
  intros github sequence dryRun p r H Hs. unfold reportsPlan in H.
  destruct (action p); try reflexivity; exfalso;
    (destruct dryRun;
     [subst r; discriminate Hs
     | destruct H as [(prBody & branch & base & pr & w0 & w1 & _ & ->)
                     | (message & w0 & w1 & _ & ->)];
       discriminate Hs]).
Qed.

Lemma runAll_dry :
  forall github plans w,
    runAll github true plans w = (inr (List.map quietResult plans), w).
Proof.
  intros github plans w; induction plans as [| p plans IH]; [reflexivity |].
  cbn [Run.runAll List.map].
  assert (H1 : Run.runOne updateNpmManifest scoreToString Date_toISOString
                          nowISOString github true p w
               = (inr (quietResult p), w)).
  { unfold Run.runOne, quietResult. destruct (action p); reflexivity. }
  rewrite (bind_continues _ _ w _ w H1).
  rewrite (bind_continues _ _ w _ w IH). reflexivity.
Qed.

Lemma pendingOn_read :
  forall (sa : Pipeline.StateAdapter World) w state w1,
    Pipeline.read sa w = (inr state, w1) ->
    Pipeline.pendingOn JSON_parse sa w = (inr (pending state), w1).
Proof.
  intros sa w state w1 H. unfold Pipeline.pendingOn.
  rewrite (bind_continues _ _ w state w1 H). reflexivity.
Qed.

Lemma updateOn_read :
  forall (sa : Pipeline.StateAdapter World) updates now w state w1,
    Pipeline.read sa w = (inr state, w1) ->
    Pipeline.updateOn JSON_parse JSON_stringify sa updates now w
    = match Pipeline.write sa
              (serialize
                 (loopQueue
                    (State.updateLoop updates
                       (parseQueue (Js.nullish state EmptyString)) now 0 0)))
              w1 with
      | (inl err, w2) => (inl err, w2)
      | (inr _, w2) =>
          (inr (snd (State.update JSON_parse JSON_stringify updates state
                                  now)),
           w2)
      end.
Proof.
  intros sa updates now w state w1 H. unfold Pipeline.updateOn.
  rewrite (bind_continues _ _ w state w1 H).
  rewrite (update_unfold JSON_parse JSON_stringify).
  cbn [fst snd Pipeline.writeBack]. unfold bind, ret.
  destruct (Pipeline.write sa _ w1) as [[err | u] w2]; reflexivity.
Qed.

Lemma updatesFor_single :
  forall (us : list State.Update) u,
    NoDup (List.map updateKey us) -> In u us ->
    updatesFor (updateKey u) us = [u].
Proof.
  induction us as [| x us IH]; intros u Hnd Hin; [destruct Hin |].
  inversion Hnd as [| ? ? Hnotin Hnd']; subst.
  unfold updatesFor. cbn [filter]. fold (updatesFor (updateKey u) us).
  destruct Hin as [-> | Hin].
  - rewrite String.eqb_refl. f_equal.
    unfold updatesFor. apply filter_none. apply Forall_forall.
    intros y Hy. apply String.eqb_neq. intro E. apply Hnotin.
    rewrite <- E. apply in_map, Hy.
  - destruct (String.eqb_spec (updateKey x) (updateKey u)) as [E | _].
    + exfalso. apply Hnotin. rewrite E. apply in_map, Hin.
    + apply IH; assumption.
Qed.

Lemma updatesFor_none :
  forall (us : list State.Update) k,
    ~ In k (List.map updateKey us) -> updatesFor k us = [].
Proof.
  intros us k H. unfold updatesFor. apply filter_none. apply Forall_forall.
  intros u Hu. apply String.eqb_neq. intro E. apply H. rewrite <- E.
  apply in_map, Hu.
Qed.

Lemma Forall2_In_l :
  forall {A B : Type} (R : A -> B -> Prop) l l' b,
    Forall2 R l l' -> In b l' -> exists a, In a l /\ R a b.
Proof.
  intros A B R l l' b H; induction H as [| x y l l' Hxy _ IH]; intro Hin.
  - destruct Hin.
  - destruct Hin as [-> | Hin].
    + exists x. split; [left; reflexivity | exact Hxy].
    + destruct (IH Hin) as (a & Ha & Hr). exists a. split; [right |]; assumption.
Qed.

Lemma Forall2_In_r :
  forall {A B : Type} (R : A -> B -> Prop) l l' a,
    Forall2 R l l' -> In a l -> exists b, In b l' /\ R a b.
Proof.
  intros A B R l l' a H; induction H as [| x y l l' Hxy _ IH]; intro Hin.
  - destruct Hin.
  - destruct Hin as [-> | Hin].
    + exists y. split; [left; reflexivity | exact Hxy].
    + destruct (IH Hin) as (b & Hb & Hr). exists b. split; [right |]; assumption.
Qed.

Lemma Forall2_strengthen :
  forall {A B : Type} (R S : A -> B -> Prop) l l',
    Forall2 R l l' ->
    (forall a b, In a l -> In b l' -> R a b -> S a b) ->
    Forall2 S l l'.
Proof.
  intros A B R S l l' H; induction H as [| x y l l' Hxy _ IH]; intro Himp.
  - constructor.
  - constructor.
    + apply Himp; [left; reflexivity | left; reflexivity | exact Hxy].
    + apply IH. intros a b Ha Hb. apply Himp; right; assumption.
Qed.

Lemma update_keys_of_results :
  forall plans results,
    Forall2 answers plans results ->
    List.map updateKey (List.map Pipeline.toUpdate results)
    = List.map (fun p => entryKey (entry p)) plans.
Proof.
  intros plans results H; induction H as [| p r ps rs Hpr _ IH].
  - reflexivity.
  - cbn [List.map]. rewrite IH. f_equal.
    destruct Hpr as [Hid Hrepo].
    unfold updateKey, Pipeline.toUpdate, entryKey. cbn.
    rewrite Hid, Hrepo. reflexivity.
Qed.

Lemma countAction_sum :
  forall rs,
    Z.of_nat (List.length rs)
    = Pipeline.countAction R_pr_opened rs + Pipeline.countAction R_skipped rs
      + Pipeline.countAction R_error rs.
Proof.
  intro rs. unfold Pipeline.countAction.
  induction rs as [| r rs IH]; [reflexivity |].
  cbn [filter]. destruct (r_action r); cbn [Pipeline.ResultAction_eqb List.length];
    lia.
Qed.

(** X23. What a [triage] run leaves in the store (app.ts and bin/cli.js,
    not a dry run), for a queue file whose lines are blank, malformed or
    complete entries. Let the store be read, let [execute] return the
    results of the plans, and let the store read the same text when
    [update] reads it again. The run then makes one plan and one result
    for each entry [pending] lists, and writes the text of a mapping with
    the keys of the one read; it returns the summary of the results if the
    write returns, and throws what the write throws otherwise. In the
    mapping written the entry of every plan is the same finding with the
    status of its result and the time of the run: no listed entry is left
    pending. In particular the entry of a skip plan, a plan skipped
    because the cap of the run was reached included, is stored as
    [skipped] with the reason of the plan. Every entry that [pending] did
    not list is as it was. *)
Theorem triage_run_settles_every_listed_entry :
  forall (policy : TriagePolicy) (github : GitHubAdapter World)
         (sa : Pipeline.StateAdapter World) (now : string) (w : World)
         (state : State.Store) (w1 : World) (results : list PrResult)
         (w2 w3 : World),
    let q := parseQueue (Js.nullish state EmptyString) in
    let plans := Decision.triage (pending state) policy in
    Pipeline.read sa w = (inr state, w1) ->
    execute plans github false w1 = (inr results, w2) ->
    Pipeline.read sa w2 = (inr state, w3) ->
    exists (q' : Queue),
      triageRun false policy false github sa now w
      = match Pipeline.write sa (serialize q') w3 with
        | (inl err, w4) => (inl err, w4)
        | (inr _, w4) => (inr (Pipeline.summarise false results), w4)
        end
      /\ Js.keys q' = Js.keys q
      /\ Forall2 (fun p r =>
                    reportsPlan github
                      (Run.tryBlock updateNpmManifest scoreToString
                                    Date_toISOString nowISOString github)
                      false p r
                    /\ exists e',
                         Js.get (entryKey (entry p)) q' = Some e'
                         /\ settledBy now p r e')
                 plans results
      /\ (forall e,
             In e (pending state) ->
             exists e',
               Js.get (entryKey e) q' = Some e'
               /\ sameFinding e e' /\ status e' <> S_pending
               /\ processedAt e' = Some now)
      /\ (forall k e,
             Js.get k q = Some e -> ~ In e (pending state) ->
             Js.get k q' = Some e).
Proof.
  intros policy github sa now w state w1 results w2 w3 q plans
         Hread Hexec Hread2.
  set (updates := List.map Pipeline.toUpdate results).
  set (q' := loopQueue (State.updateLoop updates q now 0 0)).
  exists q'.
  assert (Hwk : wellKeyed q) by apply parseQueue_wellKeyed.
  pose proof Hexec as Hrun. rewrite execute_runAll in Hrun.
  destruct (runAll_returns _ _ _ _ github false plans w1 results w2 Hrun)
    as (Hrep & Hans & _).
  destruct (plans_listed state policy) as (Hnd & Hin & _ & Hplanned).
  fold plans in Hnd, Hin, Hplanned.
  destruct (pending_listed state) as [_ Hlisted]. fold q in Hlisted.
  assert (Hkeys : List.map updateKey updates
                  = List.map (fun p => entryKey (entry p)) plans)
    by apply (update_keys_of_results plans results Hans).
  assert (Hlookup : forall k,
             Js.get k q'
             = option_map (applyAll now (updatesFor k updates)) (Js.get k q))
    by (intro k; apply updateLoop_lookup).
  assert (Hsettled : forall p r,
             In p plans -> In r results -> answers p r ->
             (action p = skip -> r = Action.skippedResult p) ->
             exists e',
               Js.get (entryKey (entry p)) q' = Some e'
               /\ settledBy now p r e').
  { intros p r Hp Hr [Hid Hrepo] Hskipped.
    assert (Hkey : updateKey (Pipeline.toUpdate r) = entryKey (entry p)).
    { unfold updateKey, Pipeline.toUpdate, entryKey. cbn.
      rewrite Hid, Hrepo. reflexivity. }
    assert (Hget : Js.get (entryKey (entry p)) q = Some (entry p)).
    { apply get_wellKeyed_iff; [exact Hwk |]. split; [| reflexivity].
      rewrite Forall_forall in Hin, Hlisted.
      apply (Hlisted (entry p) (Hin p Hp)). }
    exists (State.applyUpdate (entry p) (Pipeline.toUpdate r) now).
    split.
    + rewrite Hlookup, Hget, <- Hkey.
      rewrite updatesFor_single;
        [reflexivity | rewrite Hkeys; exact Hnd | apply in_map, Hr].
    + unfold settledBy.
      split; [apply (applyAll_sameFinding now [Pipeline.toUpdate r]) |].
      split; [reflexivity |].
      split; [cbn; unfold Pipeline.statusOf;
              destruct (r_action r); discriminate |].
      split; [reflexivity |].
      intro Hskip. rewrite (Hskipped Hskip). split; reflexivity. }
  assert (Hboth : Forall2 (fun p r =>
                             reportsPlan github
                               (Run.tryBlock updateNpmManifest scoreToString
                                  Date_toISOString nowISOString github)
                               false p r
                             /\ answers p r)
                          plans results).
  { clear - Hrep Hans. induction Hrep as [| p r ps rs Hp _ IH].
    - constructor.
    - inversion Hans; subst. constructor; [split; assumption |].
      apply IH. assumption. }
  assert (Hskipped : forall p r,
             reportsPlan github
               (Run.tryBlock updateNpmManifest scoreToString
                  Date_toISOString nowISOString github) false p r ->
             action p = skip -> r = Action.skippedResult p).
  { intros p r Hpr Hskip. unfold reportsPlan in Hpr.
    rewrite Hskip in Hpr. exact Hpr. }
  split; [| split; [| split; [| split]]].
  - unfold Pipeline.triageRun.
    rewrite (bind_continues _ _ w _ w1 (pendingOn_read sa w state w1 Hread)).
    cbv zeta. fold plans.
    unfold Pipeline.execute.
    rewrite (bind_continues _ _ w1 results w2 Hexec).
    cbn [negb]. fold updates.
    unfold bind at 1 2.
    rewrite (updateOn_read sa updates now w2 state w3 Hread2).
    fold q. fold q'. unfold ret.
    destruct (Pipeline.write sa (serialize q') w3) as [[err | u] w4];
      reflexivity.
  - apply updateLoop_keys.
  - apply (Forall2_strengthen _ _ _ _ Hboth).
    intros p r Hp Hr [Hpr Han]. split; [exact Hpr |].
    apply Hsettled; [assumption | assumption | assumption |].
    apply Hskipped, Hpr.
  - intros e He. destruct (Hplanned e He) as (p & Hp & <-).
    destruct (Forall2_In_r _ _ _ _ Hboth Hp) as (r & Hr & Hpr & Han).
    destruct (Hsettled p r Hp Hr Han (Hskipped p r Hpr)) as (e' & Hget & Hs).
    destruct Hs as (Hsame & _ & Hnp & Hat & _).
    exists e'. repeat match goal with |- _ /\ _ => split end; assumption.
  - intros k e Hget Hnot. rewrite Hlookup, Hget.
    rewrite updatesFor_none; [reflexivity |].
    rewrite Hkeys. intro Hk. apply in_map_iff in Hk.
    destruct Hk as (p & Hpk & Hp). apply Hnot.
    rewrite Forall_forall in Hin, Hlisted.
    pose proof (Hin p Hp) as Hpl.
    destruct (Hlisted _ Hpl) as [Hpq _].
    assert (Hget' : Js.get k q = Some (entry p)).
    { apply get_wellKeyed_iff; [exact Hwk |]. split; assumption. }
    rewrite Hget in Hget'. injection Hget' as ->. exact Hpl.
Qed.

(** X24. The summary of a [triage] run, and a dry run, for a queue file
    whose lines are blank, malformed or complete entries. A run whose read
    of the store throws, or whose [execute] throws, throws the same. A dry
    run whose read returns does return: it calls neither the code host nor
    the store again, reports no error, and its results depend on the plans
    alone, a plan that would act being counted in [prs_opened]. Whenever a
    run returns, the store was read, [processed] is the number of entries
    [pending] listed, it is the sum of [prs_opened], [skipped] and
    [errors], and every result reports its plan. *)
Theorem triage_run_summary :
  forall (serverFilter : bool) (policy : TriagePolicy) (dryRun : bool)
         (github : GitHubAdapter World) (sa : Pipeline.StateAdapter World)
         (now : string) (w : World),
    (forall err w1,
        Pipeline.read sa w = (inl err, w1) ->
        triageRun serverFilter policy dryRun github sa now w = (inl err, w1))
    /\ (forall state w1,
           Pipeline.read sa w = (inr state, w1) ->
           (dryRun = true ->
            triageRun serverFilter policy dryRun github sa now w
            = (inr (Pipeline.summarise true
                      (List.map quietResult
                                (Decision.triage (pending state) policy))),
               w1)
            /\ Pipeline.errors
                 (Pipeline.summarise true
                    (List.map quietResult
                              (Decision.triage (pending state) policy)))
               = 0)
           /\ (forall err w2,
                  execute (Decision.triage (pending state) policy) github
                          dryRun w1
                  = (inl err, w2) ->
                  triageRun serverFilter policy dryRun github sa now w
                  = (inl err, w2)))
    /\ (forall summary w',
           triageRun serverFilter policy dryRun github sa now w
           = (inr summary, w') ->
           exists state w1,
             Pipeline.read sa w = (inr state, w1)
             /\ Pipeline.dry_run summary = dryRun
             /\ Pipeline.processed summary
                = Z.of_nat (List.length (pending state))
             /\ Pipeline.processed summary
                = Pipeline.prs_opened summary + Pipeline.skipped summary
                  + Pipeline.errors summary
             /\ Forall2 (reportsPlan github
                           (Run.tryBlock updateNpmManifest scoreToString
                              Date_toISOString nowISOString github)
                           dryRun)
                        (Decision.triage (pending state) policy)
                        (Pipeline.results summary)).
Proof.
  intros serverFilter policy dryRun github sa now w.
  split; [| split].
  - intros err w1 Hread. unfold Pipeline.triageRun. apply bind_throws.
    unfold Pipeline.pendingOn. apply bind_throws. exact Hread.
  - intros state w1 Hread.
    assert (Hstart : forall (B : Type) (k : list CveQueueEntry -> M World B),
               bind (Pipeline.pendingOn JSON_parse sa) k w
               = k (pending state) w1).
    { intros B k. apply bind_continues, pendingOn_read, Hread. }
    split.
    + intros ->. unfold Pipeline.triageRun. rewrite Hstart. cbv zeta.
      unfold Pipeline.execute.
      pose proof (runAll_dry github (Decision.triage (pending state) policy)
                    w1) as Hdry.
      rewrite <- execute_runAll in Hdry.
      rewrite (bind_continues _ _ w1 _ w1 Hdry). cbn [negb].
      split; [reflexivity |].
      cbn [Pipeline.errors Pipeline.summarise]. unfold Pipeline.countAction.
      rewrite filter_none; [reflexivity |].
      apply Forall_forall. intros r Hr. apply in_map_iff in Hr.
      destruct Hr as (p & <- & _). unfold quietResult.
      destruct (action p); reflexivity.
    + intros err w2 Hexec. unfold Pipeline.triageRun. rewrite Hstart.
      cbv zeta. unfold Pipeline.execute. apply bind_throws. exact Hexec.
  - intros summary w' H. unfold Pipeline.triageRun in H.
    apply bind_returns in H. destruct H as (pendingEntries & w1 & Hp & H).
    unfold Pipeline.pendingOn in Hp.
    apply bind_returns in Hp. destruct Hp as (state & w0 & Hread & Hp).
    unfold ret in Hp. injection Hp as <- <-.
    cbv zeta in H. unfold Pipeline.execute in H.
    apply bind_returns in H. destruct H as (rs & w2 & Hexec & H).
    apply bind_returns in H. destruct H as (u & w3 & _ & H).
    unfold ret in H. injection H as <- _.
    exists state, w0. split; [exact Hread |].
    rewrite execute_runAll in Hexec.
    destruct (runAll_returns _ _ _ _ github dryRun _ w0 rs w2 Hexec)
      as (Hrep & _ & _).
    destruct (plans_listed state policy) as (_ & _ & Hlen & _).
    cbv zeta in Hlen.
    cbn [Pipeline.dry_run Pipeline.processed Pipeline.prs_opened
         Pipeline.skipped Pipeline.errors Pipeline.results
         Pipeline.summarise].
    split; [reflexivity |]. split.
    + rewrite <- Hlen. f_equal. symmetry. apply (Forall2_length Hrep).
    + split; [apply countAction_sum | exact Hrep].
Qed.

Lemma keptByServer_distinct :
  forall (github : GitHubAdapter World) sequence dryRun plans results,
    Forall2 (reportsPlan github sequence dryRun) plans results ->
    Forall2 answers plans results ->
    NoDup (List.map (fun p => id (entry p)) plans) ->
    filter (Pipeline.keptByServer plans) results = results.
Proof.
  intros github sequence dryRun plans results Hrep Hans Hnd.
  assert (Hboth : Forall2 (fun p r =>
                             reportsPlan github sequence dryRun p r
                             /\ answers p r)
                          plans results).
  { clear Hnd. induction Hrep as [| p r ps rs Hp _ IH].
    - constructor.
    - inversion Hans; subst. constructor; [split; assumption |].
      apply IH. assumption. }
  apply filter_all.
  apply Forall_forall. intros r Hr.
  destruct (Forall2_In_l _ _ _ _ Hboth Hr) as (p & Hp & Hpr & Hid & _).
  unfold Pipeline.keptByServer.
  destruct (Pipeline.ResultAction_eqb (r_action r) R_skipped) eqn:Ea;
    [| reflexivity].
  cbn [negb orb].
  assert (Hfind : find (fun p0 => String.eqb (id (entry p0)) (cveId r)) plans
                  = Some p).
  { rewrite Hid. clear Hrep Hans Hboth Hr Hpr Hid Ea.
    induction plans as [| x plans IH]; [destruct Hp |].
    inversion Hnd as [| ? ? Hnotin Hnd']; subst. cbn [find].
    destruct Hp as [-> | Hp].
    - rewrite String.eqb_refl. reflexivity.
    - destruct (String.eqb_spec (id (entry x)) (id (entry p))) as [E | _].
      + exfalso. apply Hnotin. rewrite E.
        apply (in_map (fun p0 => id (entry p0))), Hp.
      + apply IH; assumption. }
  rewrite Hfind.
  assert (Hs : r_action r = R_skipped).
  { destruct (r_action r); try discriminate Ea. reflexivity. }
  rewrite (reportsPlan_skipped github sequence dryRun p r Hpr Hs).
  reflexivity.
Qed.

(** X25. The filter of the MCP server. Before updating the store,
    mcp/server.js drops a [skipped] result unless the first plan that has
    the CVE id of the result is a skip. When the store is read and the
    entries [pending] lists have pairwise distinct CVE ids, the filter
    drops nothing, and the [triage] of the server is the [triage] of
    app.ts and bin/cli.js: the same calls, the same text written, the same
    summary or the same value thrown. *)
Theorem server_triage_is_app_triage_on_distinct_ids :
  forall (policy : TriagePolicy) (dryRun : bool)
         (github : GitHubAdapter World) (sa : Pipeline.StateAdapter World)
         (now : string) (w : World) (state : State.Store) (w1 : World),
    Pipeline.read sa w = (inr state, w1) ->
    NoDup (List.map id (pending state)) ->
    triageRun true policy dryRun github sa now w
    = triageRun false policy dryRun github sa now w.
Proof.
  intros policy dryRun github sa now w state w1 Hread Hnd.
  set (plans := Decision.triage (pending state) policy).
  assert (Hids : NoDup (List.map (fun p => id (entry p)) plans)).
  { destruct (pending_listed state) as [_ Hall].
    assert (Hpend : filter Decision.isPending (pending state) = pending state).
    { apply filter_all. apply Forall_forall. intros e He.
      rewrite Forall_forall in Hall. destruct (Hall e He) as [_ Hs].
      unfold Decision.isPending. rewrite Hs. reflexivity. }
    rewrite <- (map_map entry id).
    unfold plans, Decision.triage. rewrite triageLoop_entries, Hpend.
    apply NoDup_map_sort, Hnd. }
  unfold Pipeline.triageRun.
  rewrite !(bind_continues _ _ w _ w1 (pendingOn_read sa w state w1 Hread)).
  cbv zeta. fold plans. unfold Pipeline.execute.
  destruct (execute plans github dryRun w1) as [[err | results] w2] eqn:E.
  - rewrite !(bind_throws _ _ w1 err w2 E). reflexivity.
  - rewrite !(bind_continues _ _ w1 results w2 E).
    rewrite execute_runAll in E.
    destruct (runAll_returns _ _ _ _ github dryRun plans w1 results w2 E)
      as (Hrep & Hans & _).
    rewrite (keptByServer_distinct github _ dryRun plans results Hrep Hans
               Hids).
    reflexivity.
Qed.

End TriageRunLaws.

(** ** Intelligence layer: [enrichBatch] *)

Section IntelligenceLaws.
Import Types Effect Spec Notions.
Context {World : Type}.
Variable fetchNvd :
  string -> option string -> M World (@Intelligence.Response World).
Variable pause : Z -> World -> World.
Variable toUpperCase : string -> string.

Local Abbreviation enrich := (Intelligence.enrich fetchNvd).
Local Abbreviation batchStep :=
  (Intelligence.batchStep fetchNvd pause toUpperCase).
Local Abbreviation enrichBatch :=
  (Intelligence.enrichBatch fetchNvd pause toUpperCase).
Local Abbreviation compareEnrichments := Intelligence.compareEnrichments.






End IntelligenceLaws.

Section PipelineScenario.
Import Types Spec Notions Examples StoreExamples.
Local Open Scope string_scope.

Local Abbreviation scan :=
  (Pipeline.scanRun Demo.JSON_parse Demo.JSON_stringify diskNow
                    noDeps demoParsePip noDeps noDeps diskFetch
                    ["up/a"; "down/b"; "up/c"] HIGH).
Local Abbreviation run :=
  (Pipeline.triageRun Demo.JSON_parse Demo.JSON_stringify demoNpmUpdate
                      Demo.showScore demoToISOString diskNow).
Local Abbreviation plansOf :=
  (fun state =>
     Decision.triage (State.pending Demo.JSON_parse state)
                     Decision.DEFAULT_POLICY).

(** The scan of the scenarios finds [CVE-2024-30] in two repositories; the
    queue file has it for the first. A dry run leaves the file alone; a run
    adds one finding and counts one duplicate; when the write of the file
    is refused the command throws, after the scan. *)
Lemma scan_enqueues_what_is_new_witness :
  exists found w1,
    Detection.detect noDeps demoParsePip noDeps noDeps diskFetch diskNow
                     ["up/a"; "down/b"; "up/c"] HIGH diskGithub
                     (0, scanStore)
    = (inr found, w1)
    /\ List.map (fun e => (id e, repo e)) (Detection.findings found)
       = [("CVE-2024-30", "up/a"); ("CVE-2024-30", "up/c")]
    /\ scan true diskGithub diskStore (0, scanStore) = (inr (found, None), w1)
    /\ fst (scan false diskGithub diskStore (0, scanStore))
       = inr (found, Some (State.mkEnqueueResult 1 1))
    /\ scan false diskGithub refusingStore (0, scanStore)
       = (inl (Effect.mkThrown (Some "Conflict")), (24, scanStore)).
Proof.
  destruct (Detection.detect noDeps demoParsePip noDeps noDeps diskFetch
              diskNow ["up/a"; "down/b"; "up/c"] HIGH diskGithub
              (0, scanStore)) as [[err | found] w1] eqn:E.
  - exfalso. vm_compute in E. discriminate E.
  - exists found, w1. split; [reflexivity |].
    pose proof E as E'. vm_compute in E'. injection E' as Hf Hw.
    assert (Hne : Detection.findings found <> []).
    { rewrite <- Hf. discriminate. }
    split; [rewrite <- Hf; reflexivity |].
    split; [exact (proj1 (scan_enqueues_what_is_new Demo.JSON_parse
                            Demo.JSON_stringify diskNow noDeps demoParsePip
                            noDeps noDeps diskFetch
                            ["up/a"; "down/b"; "up/c"] HIGH diskGithub
                            diskStore (0, scanStore) found w1 E)) |].
    split.
    + destruct (proj2 (proj2 (proj2 (scan_enqueues_what_is_new
                                       Demo.JSON_parse Demo.JSON_stringify
                                       diskNow noDeps demoParsePip noDeps
                                       noDeps diskFetch
                                       ["up/a"; "down/b"; "up/c"] HIGH
                                       diskGithub diskStore (0, scanStore)
                                       found w1 E)) Hne)
                  (snd w1) (fst w1 + 1, snd w1) eq_refl)
        as (content & _ & Hrun & _).
      rewrite Hrun. cbn [Pipeline.write diskStore fst].
      rewrite <- Hf, <- Hw. vm_compute. reflexivity.
    + destruct (proj2 (proj2 (proj2 (scan_enqueues_what_is_new
                                       Demo.JSON_parse Demo.JSON_stringify
                                       diskNow noDeps demoParsePip noDeps
                                       noDeps diskFetch
                                       ["up/a"; "down/b"; "up/c"] HIGH
                                       diskGithub refusingStore
                                       (0, scanStore) found w1 E)) Hne)
                  (snd w1) (fst w1 + 1, snd w1) eq_refl)
        as (content & _ & Hrun & _).
      rewrite Hrun. cbn [Pipeline.write refusingStore].
      rewrite <- Hw. reflexivity.
Defined.

(** A run on the queue file of the scenarios: the three pending entries
    get their plans, the first fails, the second has its pull request and
    the third is skipped for want of a patched version; in the file
    written each has the status of its result and the time of the run, and
    the entry that was not pending is as it was. *)
Lemma triage_run_settles_every_listed_entry_witness :
  Pipeline.read diskStore (0, triageStore)
  = (inr triageStore, (1, triageStore))
  /\ Action.execute demoNpmUpdate Demo.showScore demoToISOString diskNow
                    (plansOf triageStore) diskGithub false (1, triageStore)
     = (inr triageResults, (6, triageStore))
  /\ Pipeline.read diskStore (6, triageStore)
     = (inr triageStore, (7, triageStore))
  /\ option_map
       (fun text =>
          List.map (fun e => (id e, status e, processedAt e))
                   (Js.values (State.parseQueue Demo.JSON_parse text)))
       (snd (snd (run false Decision.DEFAULT_POLICY false diskGithub
                      diskStore runTime (0, triageStore))))
     = Some [("CVE-2024-10", S_pr_opened, Some "2024-04-22T00:00:00.000Z");
             ("CVE-2024-21", S_pr_opened, Some runTime);
             ("CVE-2024-12", S_skipped, Some runTime);
             ("CVE-2024-20", S_error, Some runTime)]
  /\ exists q',
       run false Decision.DEFAULT_POLICY false diskGithub diskStore runTime
           (0, triageStore)
       = match Pipeline.write diskStore
                 (State.serialize Demo.JSON_stringify q') (7, triageStore)
         with
         | (inl err, w4) => (inl err, w4)
         | (inr _, w4) => (inr (Pipeline.summarise false triageResults), w4)
         end
       /\ Js.keys q'
          = Js.keys (State.parseQueue Demo.JSON_parse
                       (Js.nullish triageStore EmptyString))
       /\ Forall2 (fun p r =>
                     reportsPlan diskGithub
                       (Run.tryBlock demoNpmUpdate Demo.showScore
                                     demoToISOString diskNow diskGithub)
                       false p r
                     /\ exists e',
                          Js.get (State.entryKey (Decision.entry p)) q'
                          = Some e'
                          /\ settledBy runTime p r e')
                  (plansOf triageStore) triageResults
       /\ (forall e,
              In e (State.pending Demo.JSON_parse triageStore) ->
              exists e',
                Js.get (State.entryKey e) q' = Some e'
                /\ sameFinding e e' /\ status e' <> S_pending
                /\ processedAt e' = Some runTime)
       /\ (forall k e,
              Js.get k (State.parseQueue Demo.JSON_parse
                          (Js.nullish triageStore EmptyString))
              = Some e ->
              ~ In e (State.pending Demo.JSON_parse triageStore) ->
              Js.get k q' = Some e).
Proof.
  assert (H1 : Pipeline.read diskStore (0, triageStore)
               = (inr triageStore, (1, triageStore))) by reflexivity.
  assert (H2 : Action.execute demoNpmUpdate Demo.showScore demoToISOString
                 diskNow (plansOf triageStore) diskGithub false
                 (1, triageStore)
               = (inr triageResults, (6, triageStore)))
    by (vm_compute; reflexivity).
  assert (H3 : Pipeline.read diskStore (6, triageStore)
               = (inr triageStore, (7, triageStore))) by reflexivity.
  split; [exact H1 |]. split; [exact H2 |]. split; [exact H3 |].
  split; [vm_compute; reflexivity |].
  exact (triage_run_settles_every_listed_entry
           Demo.JSON_parse Demo.JSON_stringify demoNpmUpdate Demo.showScore
           demoToISOString diskNow Decision.DEFAULT_POLICY diskGithub
           diskStore runTime (0, triageStore) triageStore (1, triageStore)
           triageResults (6, triageStore) (7, triageStore) H1 H2 H3).
Defined.

(** A dry run on the queue file of the scenarios: one read of the store
    and nothing else, two pull requests that would be opened, one skip. *)
Lemma triage_run_summary_witness :
  Pipeline.read diskStore (0, triageStore)
  = (inr triageStore, (1, triageStore))
  /\ List.map r_action (List.map quietResult (plansOf triageStore))
     = [R_pr_opened; R_pr_opened; R_skipped]
  /\ run false Decision.DEFAULT_POLICY true diskGithub diskStore runTime
         (0, triageStore)
     = (inr (Pipeline.summarise true
               (List.map quietResult (plansOf triageStore))),
        (1, triageStore))
  /\ Pipeline.errors
       (Pipeline.summarise true (List.map quietResult (plansOf triageStore)))
     = 0%Z.
Proof.
  assert (H1 : Pipeline.read diskStore (0, triageStore)
               = (inr triageStore, (1, triageStore))) by reflexivity.
  split; [exact H1 |]. split; [vm_compute; reflexivity |].
  exact (proj1 (proj1 (proj2 (triage_run_summary
                                Demo.JSON_parse Demo.JSON_stringify
                                demoNpmUpdate Demo.showScore demoToISOString
                                diskNow false Decision.DEFAULT_POLICY true
                                diskGithub diskStore runTime
                                (0, triageStore)))
                      triageStore (1, triageStore) H1) eq_refl).
Defined.

(** The queue file of the scenarios has three pending entries, of distinct
    CVE ids. One result of the run is [skipped]: the filter of the server
    looks its plan up by the id, finds the skip, and keeps the result. *)
Lemma server_triage_is_app_triage_on_distinct_ids_witness :
  Pipeline.read diskStore (0, triageStore)
  = (inr triageStore, (1, triageStore))
  /\ List.map id (State.pending Demo.JSON_parse triageStore)
     = ["CVE-2024-20"; "CVE-2024-21"; "CVE-2024-12"]
  /\ List.map r_action triageResults = [R_error; R_pr_opened; R_skipped]
  /\ List.map (Pipeline.keptByServer (plansOf triageStore)) triageResults
     = [true; true; true]
  /\ run true Decision.DEFAULT_POLICY false diskGithub diskStore runTime
         (0, triageStore)
     = run false Decision.DEFAULT_POLICY false diskGithub diskStore runTime
           (0, triageStore).
Proof.
  assert (H1 : Pipeline.read diskStore (0, triageStore)
               = (inr triageStore, (1, triageStore))) by reflexivity.
  assert (Hids : List.map id (State.pending Demo.JSON_parse triageStore)
                 = ["CVE-2024-20"; "CVE-2024-21"; "CVE-2024-12"])
    by (vm_compute; reflexivity).
  assert (Hnd : NoDup (List.map id (State.pending Demo.JSON_parse
                                      triageStore))).
  { rewrite Hids.
    repeat constructor; cbn [In];
      intro H; repeat (destruct H as [H | H]; [discriminate H |]);
      exact H. }
  split; [exact H1 |]. split; [exact Hids |].
  split; [reflexivity |]. split; [vm_compute; reflexivity |].
  exact (server_triage_is_app_triage_on_distinct_ids
           Demo.JSON_parse Demo.JSON_stringify demoNpmUpdate Demo.showScore
           demoToISOString diskNow Decision.DEFAULT_POLICY false diskGithub
           diskStore runTime (0, triageStore) triageStore (1, triageStore)
           H1 Hnd).
Defined.

(** Three batches on the NVD of the scenarios. An id the NVD does not
    know is recorded as a failure and ranked last, after the enrichment of
    the id that follows it. A batch with a request that rejects with no
    value throws the [TypeError] of the catch block, and a batch with an
    id that is a number throws that of [toUpperCase]: in both, the record
    of the first id is lost. *)
Example enrichBatch_scenario :
  Intelligence.enrichBatch demoNvd noPause Js.toUpperCase
    [Intelligence.idString "cve-2024-2"; Intelligence.idString "cve-2024-1"]
    None 0
  = (inr [Intelligence.mkEnrichment "CVE-2024-1" "Analyzed" "HIGH"
            (Some (75 # 10)) (Some "Prototype pollution")
            "2024-01-01T00:00:00.000" [] None None;
          Intelligence.failed "CVE-2024-2"
            (Some "CVE CVE-2024-2 not found in NVD")], 2)
  /\ Intelligence.enrichBatch demoNvd noPause Js.toUpperCase
       [Intelligence.idString "cve-2024-1"; Intelligence.idString "cve-2024-3"]
       None 0
     = (inl (Effect.typeError false), 2)
  /\ Intelligence.enrichBatch demoNvd noPause Js.toUpperCase
       [Intelligence.idString "cve-2024-1";
        Intelligence.notString notAFunction]
       None 0
     = (inl notAFunction, 1).
Proof. repeat split; vm_compute; reflexivity. Qed.

End PipelineScenario.
